(** * Migration engine of maes-platform: a shallow embedding

    Sources embedded here:
    - [api/src/utils/migrate.js]: class [MigrationManager]
      ([createMigrationsTable], [initialize], [getAppliedMigrations],
      [getMigrationFiles], [runMigration], [runPendingMigrations],
      [isMigrationApplied], [getStatus]);
    - [services/compliance/src/services/database.js]: the helpers [query],
      [getRow], [getRows] over the shared connection [pool].  [migrate.js]
      requires these three names from the [services/database] module of
      the api package; the compliance service's module defines them over a
      [pg] pool and is the one embedded.

    JavaScript strings are sequences of UTF-16 code units.  Asynchronous
    functions are computations in a state-and-exception monad over the
    database.  Calls to the logger change no value and are left out.

    The PostgreSQL server and the [pg] pool are not part of the repository.
    The server is modelled as a committed store and, for each session, the
    writes of its open transaction; how it reads the statements of a script
    and how it orders rows are parameters.  The pool is modelled as the
    choice of a client for each query, and failures as an oracle. *)

From Stdlib Require Import String Ascii DecimalString.
From Stdlib Require Import List NArith Arith Bool Lia.
From Stdlib Require Import Sorting.Sorted Sorting.Permutation.
Import ListNotations.

(* ===================================================================== *)
(** ** JavaScript strings *)
(* ===================================================================== *)

Module JS.

(** A string value: its UTF-16 code units. *)
Definition jsstring := list N.

(** A literal written in the source, read code unit by code unit. *)
Definition lit (s : string) : jsstring :=
  List.map N_of_ascii (list_ascii_of_string s).

(** Strict equality [===] on strings. *)
Fixpoint eqb (a b : jsstring) : bool :=
  match a, b with
  | [], [] => true
  | x :: a', y :: b' => N.eqb x y && eqb a' b'
  | _, _ => false
  end.

(** The comparison used by [Array.prototype.sort] without a comparator:
    lexicographic on code units. *)
Fixpoint compare (a b : jsstring) : comparison :=
  match a, b with
  | [], [] => Eq
  | [], _ :: _ => Lt
  | _ :: _, [] => Gt
  | x :: a', y :: b' =>
      match N.compare x y with
      | Eq => compare a' b'
      | c => c
      end
  end.

Definition leb (a b : jsstring) : bool :=
  match compare a b with Gt => false | _ => true end.

(** [String.prototype.startsWith] and [endsWith]. *)
Fixpoint startsWith (s p : jsstring) : bool :=
  match p, s with
  | [], _ => true
  | _ :: _, [] => false
  | y :: p', x :: s' => N.eqb x y && startsWith s' p'
  end.

Definition endsWith (s p : jsstring) : bool :=
  startsWith (rev s) (rev p).

(** [String.prototype.split] with a one-code-unit separator. *)
Fixpoint split (sep : N) (s : jsstring) : list jsstring :=
  match s with
  | [] => [[]]
  | c :: s' =>
      if N.eqb c sep then [] :: split sep s'
      else match split sep s' with
           | [] => [[c]]
           | p :: ps => (c :: p) :: ps
           end
  end.

(** ECMAScript WhiteSpace and LineTerminator code points, the ones
    [String.prototype.trim] strips. *)
Definition isWhiteSpace (c : N) : bool :=
  match c with
  | 9%N | 10%N | 11%N | 12%N | 13%N | 32%N | 160%N
  | 5760%N | 8232%N | 8233%N | 8239%N | 8287%N | 12288%N | 65279%N => true
  | _ => (8192 <=? c)%N && (c <=? 8202)%N
  end.

Fixpoint trimStart (s : jsstring) : jsstring :=
  match s with
  | [] => []
  | c :: s' => if isWhiteSpace c then trimStart s' else s
  end.

Definition trimEnd (s : jsstring) : jsstring := rev (trimStart (rev s)).

Definition trim (s : jsstring) : jsstring := trimEnd (trimStart s).

(** [Array.prototype.includes] on an array of strings. *)
Definition includes (l : list jsstring) (x : jsstring) : bool :=
  existsb (eqb x) l.

(** [Array.prototype.sort()] on an array of strings.  The result of a sort
    by a total order does not depend on the algorithm; insertion sort is
    used here. *)
Fixpoint insert (x : jsstring) (l : list jsstring) : list jsstring :=
  match l with
  | [] => [x]
  | y :: l' => if leb x y then x :: l else y :: insert x l'
  end.

Fixpoint sort (l : list jsstring) : list jsstring :=
  match l with
  | [] => []
  | x :: l' => insert x (sort l')
  end.

(** Ascending order on an array of strings. *)
Definition ascending : list jsstring -> Prop :=
  StronglySorted (fun a b => leb a b = true).

(** Truthiness of a string: non-empty. *)
Definition truthy (s : jsstring) : bool :=
  match s with [] => false | _ => true end.

End JS.

Abbreviation jsstring := JS.jsstring.

(** White space only, as [trim] sees it. *)
Definition blank (s : jsstring) : Prop :=
  Forall (fun ch => JS.isWhiteSpace ch = true) s.

(* ===================================================================== *)
(** ** Errors and the file system *)
(* ===================================================================== *)

(** The kinds of exception the engine can see.  The first two are raised
    by [fs.readdir] and [fs.readFile], the others by the database driver. *)
Inductive Error : Type :=
| DirectoryReadError
| FileReadError
| StatementExecutionError
| DuplicateEntryError
| TransactionError.

(** What the engine reads from [this.migrationsPath]: the directory
    listing ([None] when the directory is missing or unreadable) and the
    text of a file of that directory ([None] when it cannot be read). *)
Record FS : Type := {
  readdir : option (list jsstring);
  readFile : jsstring -> option jsstring
}.

(* ===================================================================== *)
(** ** The database behind [pool.query] *)
(* ===================================================================== *)

(** A place in the pool: the client held there and its database session.
    The pool replaces a client it has closed by a new one, whose session
    starts outside any transaction. *)
Definition conn := nat.

(** The table [maes.migrations] ([None] while it does not exist, else the
    filenames recorded, oldest first) and the statements of migration
    scripts whose effects are in place, oldest first. *)
Record Store : Type := {
  ledger : option (list jsstring);
  effects : list jsstring
}.

(** One write. *)
Inductive Change : Type :=
| MkTable
| AddRow (filename : jsstring)
| Effect (statement : jsstring).

Definition apply (ch : Change) (s : Store) : Store :=
  match ch with
  | MkTable =>
      {| ledger := match ledger s with Some l => Some l | None => Some [] end;
         effects := effects s |}
  | AddRow f =>
      {| ledger := match ledger s with Some l => Some (l ++ [f]) | None => None end;
         effects := effects s |}
  | Effect st =>
      {| ledger := ledger s; effects := effects s ++ [st] |}
  end.

Definition replay (p : list Change) (s : Store) : Store :=
  fold_left (fun acc ch => apply ch acc) p s.

(** How the server reads a statement of a script.  The transaction
    commands have several spellings ([COMMIT], [END], [COMMIT WORK];
    [ROLLBACK], [ABORT]; [BEGIN], [START TRANSACTION]; in any letter case),
    and which text is which is for the server to say, as is which text it
    refuses.  An ordinary statement is one whose effect stays inside the
    transaction it runs in and leaves the table [maes.migrations] alone;
    what it does besides is opaque.  Savepoints, prepared transactions and
    statements that read or write [maes.migrations] are none of these: a
    server that accepts them from a script is not described here. *)
Inductive Kind : Type :=
| Begins
| Commits
| RollsBack
| Ordinary
| Refused.

(** What the engine does not choose about the server: how it reads the
    statements of scripts, and the collation that [ORDER BY filename]
    follows ([collation a b] when [a] sorts no later than [b]). *)
Record Server : Type := {
  grammar : jsstring -> Kind;
  collation : jsstring -> jsstring -> bool
}.

(** [ORDER BY] under a collation.  Insertion sort here; whatever the
    collation, the rows come back rearranged, none lost or added. *)
Fixpoint place (le : jsstring -> jsstring -> bool) (x : jsstring)
         (l : list jsstring) : list jsstring :=
  match l with
  | [] => [x]
  | y :: l' => if le x y then x :: l else y :: place le x l'
  end.

Fixpoint orderBy (le : jsstring -> jsstring -> bool) (l : list jsstring)
  : list jsstring :=
  match l with
  | [] => []
  | x :: l' => place le x (orderBy le l')
  end.

(** A query as the server receives it, on which client, and whether it
    succeeded. *)
Record Entry : Type := {
  on : conn;
  text : jsstring;
  params : list jsstring;
  answered : bool
}.

(** The uncommitted writes of a session, [None] outside a transaction. *)
Definition Session : Type := option (list Change).

(** The database: what is committed, the uncommitted writes of every
    session that has a transaction open, every query received so far, and
    the server itself. *)
Record DB : Type := {
  durable : Store;
  open : conn -> Session;
  log : list Entry;
  server : Server
}.

(** What a session sees: the committed store with its own pending writes. *)
Definition view (d : Store) (t : Session) : Store :=
  match t with
  | Some p => replay p d
  | None => d
  end.

(** A write on a session: pending inside a transaction, committed at once
    outside (autocommit). *)
Definition push (ch : Change) (d : Store) (t : Session) : Store * Session :=
  match t with
  | Some p => (d, Some (p ++ [ch]))
  | None => (apply ch d, None)
  end.

Definition viewOf (db : DB) (c : conn) : Store := view (durable db) (open db c).

(** The SQL texts that [migrate.js] sends. *)
Definition nl : string := String (ascii_of_nat 10) EmptyString.

Definition sql_create : jsstring :=
  JS.lit (nl ++ "        CREATE TABLE IF NOT EXISTS maes.migrations (" ++ nl
        ++ "          id SERIAL PRIMARY KEY," ++ nl
        ++ "          filename VARCHAR(255) UNIQUE NOT NULL," ++ nl
        ++ "          applied_at TIMESTAMP WITH TIME ZONE DEFAULT CURRENT_TIMESTAMP" ++ nl
        ++ "        );" ++ nl ++ "      ").
Definition sql_list : jsstring :=
  JS.lit "SELECT filename FROM maes.migrations ORDER BY filename".
Definition sql_lookup : jsstring :=
  JS.lit "SELECT 1 FROM maes.migrations WHERE filename = $1".
Definition sql_insert : jsstring :=
  JS.lit "INSERT INTO maes.migrations (filename) VALUES ($1)".
Definition sql_begin : jsstring := JS.lit "BEGIN".
Definition sql_commit : jsstring := JS.lit "COMMIT".
Definition sql_rollback : jsstring := JS.lit "ROLLBACK".

(** What a query asks of the server; [CInvalid] is a query that the server
    refuses. *)
Inductive Command : Type :=
| CBegin
| CCommit
| CRollback
| CEnsureLedger
| CListApplied (order : jsstring -> jsstring -> bool)
| CLookup (filename : jsstring)
| CRecord (filename : jsstring)
| CInvalid
| CPlain (statement : jsstring).

(** The server reading a query.  The seven texts that [migrate.js] sends
    are read for what they are, whoever sends them; the two with a
    parameter are invalid without exactly one.  Every other text is a
    statement of a script, read by the grammar of the server. *)
Definition classify (srv : Server) (t : jsstring) (ps : list jsstring)
  : Command :=
  if JS.eqb t sql_begin then CBegin
  else if JS.eqb t sql_commit then CCommit
  else if JS.eqb t sql_rollback then CRollback
  else if JS.eqb t sql_create then CEnsureLedger
  else if JS.eqb t sql_list then CListApplied (collation srv)
  else if JS.eqb t sql_lookup then
         match ps with [f] => CLookup f | _ => CInvalid end
  else if JS.eqb t sql_insert then
         match ps with [f] => CRecord f | _ => CInvalid end
  else match grammar srv t with
       | Begins => CBegin
       | Commits => CCommit
       | RollsBack => CRollback
       | Ordinary => CPlain t
       | Refused => CInvalid
       end.

(** Outcome of an asynchronous call: a value or a thrown error. *)
Inductive Result (A : Type) : Type :=
| Ok (a : A)
| Err (e : Error).

Arguments Ok {A} a.
Arguments Err {A} e.

(** The server runs one command on one session, given the committed store
    and the pending writes of that session.  [BEGIN] inside a transaction
    and [COMMIT] or [ROLLBACK] outside one only raise a warning.  [UNIQUE]
    on [filename] rejects a second row for a filename.  A command that
    fails writes nothing. *)
Definition step (cmd : Command) (d : Store) (t : Session)
  : Result (list jsstring) * (Store * Session) :=
  match cmd with
  | CBegin => (Ok [], (d, match t with Some p => Some p | None => Some [] end))
  | CCommit => (Ok [], (view d t, None))
  | CRollback => (Ok [], (d, None))
  | CEnsureLedger => (Ok [], push MkTable d t)
  | CListApplied order =>
      match ledger (view d t) with
      | Some l => (Ok (orderBy order l), (d, t))
      | None => (Err StatementExecutionError, (d, t))
      end
  | CLookup f =>
      match ledger (view d t) with
      | Some l => (Ok (if JS.includes l f then [JS.lit "1"] else []), (d, t))
      | None => (Err StatementExecutionError, (d, t))
      end
  | CRecord f =>
      match ledger (view d t) with
      | Some l =>
          if JS.includes l f then (Err DuplicateEntryError, (d, t))
          else (Ok [], push (AddRow f) d t)
      | None => (Err StatementExecutionError, (d, t))
      end
  | CInvalid => (Err StatementExecutionError, (d, t))
  | CPlain st => (Ok [], push (Effect st) d t)
  end.

Definition failureKind (cmd : Command) : Error :=
  match cmd with
  | CBegin | CCommit | CRollback => TransactionError
  | _ => StatementExecutionError
  end.

Definition succeeded {A : Type} (r : Result A) : bool :=
  match r with Ok _ => true | Err _ => false end.

(** The session of a client after its query: the pool keeps the client of
    a query that succeeded, and closes the client of a query that failed,
    which ends its session and discards the transaction it had open. *)
Definition released {A : Type} (r : Result A) (t : Session) : Session :=
  match r with Ok _ => t | Err _ => None end.

(* ===================================================================== *)
(** ** Asynchronous computations over the database *)
(* ===================================================================== *)

(** An [async] function: it runs against the database, changes it and
    either returns or throws.  What it changed before throwing stays. *)
Definition M (A : Type) : Type := DB -> Result A * DB.

Definition ret {A : Type} (a : A) : M A := fun db => (Ok a, db).

Definition throw {A : Type} (e : Error) : M A := fun db => (Err e, db).

Definition bind {A B : Type} (m : M A) (k : A -> M B) : M B :=
  fun db =>
    match m db with
    | (Ok a, db') => k a db'
    | (Err e, db') => (Err e, db')
    end.

(** [try { m } catch (error) { h error }]. *)
Definition try_catch {A : Type} (m : M A) (h : Error -> M A) : M A :=
  fun db =>
    match m db with
    | (Ok a, db') => (Ok a, db')
    | (Err e, db') => h e db'
    end.

Declare Scope async_scope.
Delimit Scope async_scope with async.
Notation "x <- m ;; k" := (bind m (fun x => k))
  (at level 61, m at next level, right associativity) : async_scope.
Notation "m ;; k" := (bind m (fun _ => k))
  (at level 61, right associativity) : async_scope.
Local Open Scope async_scope.

(** [for (const x of l) { await f(x); }]. *)
Fixpoint forEach {A : Type} (f : A -> M unit) (l : list A) : M unit :=
  match l with
  | [] => ret tt
  | x :: l' => f x ;; forEach f l'
  end.

(** The object [getStatus] returns. *)
Record Status : Type := {
  total : nat;
  applied : nat;
  pending : nat;
  appliedMigrations : list jsstring;
  pendingMigrations : list jsstring
}.

(* ===================================================================== *)
(** ** [database.js] and [migrate.js] *)
(* ===================================================================== *)

Section Engine.

(** The migrations directory. *)
Variable fsys : FS.

(** The pool: the client that serves the [n]-th query it is handed.
    [pool.query] takes whichever client is free at that moment, so the
    choice belongs to the pool and to whoever else is using it. *)
Variable dispatch : nat -> conn.

(** Failures of the driver or the server: whether the [n]-th query, with
    this text, is rejected (invalid SQL, violated constraint, lost
    connection).  A rejected query writes nothing. *)
Variable fails : nat -> jsstring -> bool.

(** [pool.query(text, params)] of the [pg] driver: it takes a client, runs
    the query on it and releases the client, with the error when there is
    one; the pool closes a client released with an error. *)
Definition pool_query (t : jsstring) (ps : list jsstring) : M (list jsstring) :=
  fun db =>
    let n := length (log db) in
    let c := dispatch n in
    let cmd := classify (server db) t ps in
    let '(r, (d, s)) :=
      if fails n t then (Err (failureKind cmd), (durable db, open db c))
      else step cmd (durable db) (open db c) in
    (r, {| durable := d;
           open := fun c' => if Nat.eqb c' c then released r s else open db c';
           log := log db ++ [{| on := c; text := t; params := ps;
                                answered := succeeded r |}];
           server := server db |}).

(** [database.js], [query]: the rows of the result, or the error rethrown. *)
Definition query (t : jsstring) (ps : list jsstring) : M (list jsstring) :=
  try_catch (res <- pool_query t ps ;; ret res) (fun error => throw error).

(** [database.js], [getRow]: [result.rows[0] || null]. *)
Definition getRow (t : jsstring) (ps : list jsstring) : M (option jsstring) :=
  result <- query t ps ;; ret (hd_error result).

(** [database.js], [getRows]: [result.rows]. *)
Definition getRows (t : jsstring) (ps : list jsstring) : M (list jsstring) :=
  result <- query t ps ;; ret result.

(** [fs.readdir(this.migrationsPath)]. *)
Definition fs_readdir : M (list jsstring) :=
  match readdir fsys with
  | Some files => ret files
  | None => throw DirectoryReadError
  end.

(** [fs.readFile(path.join(this.migrationsPath, filename), 'utf8')]. *)
Definition fs_readFile (filename : jsstring) : M jsstring :=
  match readFile fsys filename with
  | Some t => ret t
  | None => throw FileReadError
  end.

Definition createMigrationsTable : M unit :=
  try_catch (query sql_create [] ;; ret tt) (fun error => throw error).

Definition initialize : M unit := createMigrationsTable.

(** A row of the result is read through its [filename] column, which is
    all the query selects. *)
Definition getAppliedMigrations : M (list jsstring) :=
  try_catch
    (result <- getRows sql_list [] ;;
     ret (List.map (fun row => row) result))
    (fun _ => ret []).

Definition getMigrationFiles : M (list jsstring) :=
  try_catch
    (files <- fs_readdir ;;
     ret (JS.sort (filter (fun file => JS.endsWith file (JS.lit ".sql")) files)))
    (fun _ => ret []).

(** The statements of a script, lines 68 to 71 of [migrate.js]. *)
Definition statementsOf (migrationSQL : jsstring) : list jsstring :=
  filter (fun stmt => 0 <? length stmt)
    (List.map JS.trim (JS.split 59%N migrationSQL)).

(** The [for] loop over the statements, lines 73 to 77. *)
Definition executeStatements (statements : list jsstring) : M unit :=
  forEach
    (fun statement =>
       if JS.truthy (JS.trim statement)
       then query statement [] ;; ret tt
       else ret tt)
    statements.

(** The inner [try] block of [runMigration], lines 66 to 87. *)
Definition applyScript (filename migrationSQL : jsstring) : M unit :=
  let statements := statementsOf migrationSQL in
  executeStatements statements ;;
  query sql_insert [filename] ;;
  query sql_commit [] ;;
  ret tt.

Definition runMigration (filename : jsstring) : M unit :=
  try_catch
    (migrationSQL <- fs_readFile filename ;;
     query sql_begin [] ;;
     try_catch
       (applyScript filename migrationSQL)
       (fun error => query sql_rollback [] ;; throw error))
    (fun error => throw error).

Definition runPendingMigrations : M unit :=
  try_catch
    (initialize ;;
     appliedMigrations <- getAppliedMigrations ;;
     migrationFiles <- getMigrationFiles ;;
     let pendingMigrations :=
       filter (fun file => negb (JS.includes appliedMigrations file))
              migrationFiles in
     if length pendingMigrations =? 0 then ret tt
     else forEach runMigration pendingMigrations)
    (fun error => throw error).

Definition isMigrationApplied (filename : jsstring) : M bool :=
  try_catch
    (result <- getRow sql_lookup [filename] ;;
     ret (match result with Some _ => true | None => false end))
    (fun _ => ret false).

Definition getStatus : M Status :=
  try_catch
    (appliedMigrations <- getAppliedMigrations ;;
     migrationFiles <- getMigrationFiles ;;
     let pendingMigrations :=
       filter (fun file => negb (JS.includes appliedMigrations file))
              migrationFiles in
     ret {| total := length migrationFiles;
            applied := length appliedMigrations;
            pending := length pendingMigrations;
            appliedMigrations := appliedMigrations;
            pendingMigrations := pendingMigrations |})
    (fun error => throw error).

End Engine.

(** A pool that serves every query from the same place [c], as when the
    engine is alone on it. *)
Definition pinned (c : conn) : nat -> conn := fun _ => c.

(** SQL keywords do not depend on letter case. *)
Definition keyword (t : jsstring) : jsstring :=
  List.map (fun ch => if (97 <=? ch)%N && (ch <=? 122)%N then (ch - 32)%N
                      else ch) t.

(** The server of the examples below, a small one: it knows these
    spellings of the transaction commands and the statements of the
    example scripts, which are ordinary, it refuses every other text, and
    it orders by code units. *)
Definition opening : list jsstring :=
  [JS.lit "BEGIN"; JS.lit "BEGIN WORK"; JS.lit "BEGIN TRANSACTION";
   JS.lit "START TRANSACTION"].

Definition committing : list jsstring :=
  [JS.lit "COMMIT"; JS.lit "COMMIT WORK"; JS.lit "COMMIT TRANSACTION";
   JS.lit "END"; JS.lit "END WORK"; JS.lit "END TRANSACTION"].

Definition rollingBack : list jsstring :=
  [JS.lit "ROLLBACK"; JS.lit "ROLLBACK WORK"; JS.lit "ROLLBACK TRANSACTION";
   JS.lit "ABORT"; JS.lit "ABORT WORK"; JS.lit "ABORT TRANSACTION"].

Definition known : list jsstring :=
  [JS.lit "CREATE TABLE t(x int)"; JS.lit "INSERT INTO t VALUES (1)";
   JS.lit "ALTER TABLE t ADD COLUMN y int"; JS.lit "UPDATE t SET y = 0";
   JS.lit "INSERT INTO u VALUES (1)";
   JS.lit "CREATE TABLE a(x int)"; JS.lit "CREATE TABLE b(x int)";
   JS.lit "INSERT INTO missing VALUES (1)";
   JS.lit "UPDATE t SET x = 0"; JS.lit "DELETE FROM t WHERE x < 0"].

Definition exampleServer : Server :=
  {| grammar := fun t =>
       if JS.includes opening (keyword t) then Begins
       else if JS.includes committing (keyword t) then Commits
       else if JS.includes rollingBack (keyword t) then RollsBack
       else if JS.includes known t then Ordinary
       else Refused;
     collation := JS.leb |}.

(** A database just connected to: no session has a transaction open and
    no query has been received. *)
Definition connect (s : Store) : DB :=
  {| durable := s; open := fun _ => None; log := [];
     server := exampleServer |}.

(** The process ends and another one connects: the clients of the old
    pool are closed, and the server discards what their sessions had not
    committed. *)
Definition reconnect (db : DB) : DB :=
  {| durable := durable db; open := fun _ => None; log := log db;
     server := server db |}.

(** The rows of the ledger table, none while the table does not exist. *)
Definition rows (s : Store) : list jsstring :=
  match ledger s with Some l => l | None => [] end.

(** A statement that the server reads as the end of the transaction it
    runs in, by commit or by rollback. *)
Definition endsTransaction (srv : Server) (statement : jsstring) : bool :=
  match classify srv statement [] with
  | CCommit | CRollback => true
  | _ => false
  end.

(** A script that leaves the transaction of its unit of work alone. *)
Definition keepsTransaction (srv : Server) (migrationSQL : jsstring) : bool :=
  forallb (fun statement => negb (endsTransaction srv statement))
          (statementsOf migrationSQL).

(** What the server received, without the client. *)
Definition sent (db : DB) : list (jsstring * list jsstring) :=
  List.map (fun e => (text e, params e)) (log db).

(** Which of the queries received succeeded. *)
Definition answers (db : DB) : list bool := List.map answered (log db).

(** The queries of one unit of work that goes through. *)
Definition unitOfWork (filename migrationSQL : jsstring)
  : list (jsstring * list jsstring) :=
  (sql_begin, [])
    :: List.map (fun statement => (statement, [])) (statementsOf migrationSQL)
    ++ [(sql_insert, [filename]); (sql_commit, [])].


(** The pending array that [runPendingMigrations] and [getStatus] compute
    from what the two reads returned. *)
Definition pendingOf (appliedMigrations migrationFiles : list jsstring)
  : list jsstring :=
  filter (fun file => negb (JS.includes appliedMigrations file)) migrationFiles.

(** What [getMigrationFiles] returns for a directory. *)
Definition discovered (fsys : FS) : list jsstring :=
  match readdir fsys with
  | Some files =>
      JS.sort (filter (fun file => JS.endsWith file (JS.lit ".sql")) files)
  | None => []
  end.

(** A property of the database that a computation keeps. *)
Definition preserves {A : Type} (I : DB -> Prop) (m : M A) : Prop :=
  forall db r db', I db -> m db = (r, db') -> I db'.

(** A property that a computation keeps as long as it returns, and what
    holds instead once it has thrown. *)
Definition keeps {A : Type} (I J : DB -> Prop) (m : M A) : Prop :=
  forall db r db',
    I db -> m db = (r, db') ->
    match r with Ok _ => I db' | Err _ => J db' end.

(** A property of the session of one client, on a given server, as a
    property of the database. *)
Definition served (srv : Server) (c : conn) (P : Store -> Session -> Prop)
  : DB -> Prop :=
  fun db => server db = srv /\ P (durable db) (open db c).

(** The ledger rows are [R], committed and as the session sees them. *)
Definition rowsAre (R : list jsstring) : Store -> Session -> Prop :=
  fun d t => rows d = R /\ rows (view d t) = R.

(** The session is inside a transaction and nothing was committed since
    the store was [D]. *)
Definition inTransaction (D : Store) : Store -> Session -> Prop :=
  fun d t => d = D /\ t <> None.

(** The session is outside any transaction and nothing was committed since
    the store was [D]. *)
Definition undone (D : Store) : Store -> Session -> Prop :=
  fun d t => d = D /\ t = None.

(** The queries of a unit of work that was cut short after [k] statements
    and the queries [tail], and rolled back. *)
Definition interrupted (migrationSQL : jsstring) (k : nat)
           (tail : list (jsstring * list jsstring))
  : list (jsstring * list jsstring) :=
  (sql_begin, [])
    :: List.map (fun statement => (statement, []))
                (firstn k (statementsOf migrationSQL))
    ++ tail ++ [(sql_rollback, [])].

(** The session has just recorded [f] after the rows [R]: it sees the new
    row, and the row is committed already or still pending. *)
Definition recorded (R : list jsstring) (f : jsstring)
  : Store -> Session -> Prop :=
  fun d t =>
    ~ In f R /\ rows (view d t) = R ++ [f] /\
    (rows d = R \/ rows d = R ++ [f]).

(** The committed rows are [R], with or without a new row for [f]. *)
Definition settled (R : list jsstring) (f : jsstring)
  : Store -> Session -> Prop :=
  fun d _ => ~ In f R /\ (rows d = R \/ rows d = R ++ [f]).

(** The queries of the units of work of several scripts, one after the
    other. *)
Definition unitsOfWork (fsys : FS) (filenames : list jsstring)
  : list (jsstring * list jsstring) :=
  flat_map
    (fun filename =>
       match readFile fsys filename with
       | Some migrationSQL => unitOfWork filename migrationSQL
       | None => []
       end)
    filenames.

(** The script of [filename], if it can be read at all, leaves the
    transaction of its unit of work alone. *)
Definition leavesTransaction (srv : Server) (fsys : FS) (filename : jsstring)
  : bool :=
  match readFile fsys filename with
  | Some migrationSQL => keepsTransaction srv migrationSQL
  | None => true
  end.

(** The two queries every run starts with. *)
Definition preamble : list (jsstring * list jsstring) :=
  [(sql_create, []); (sql_list, [])].

(* ===================================================================== *)
(** ** A migrations directory to run the engine on *)
(* ===================================================================== *)

Definition f001 : jsstring := JS.lit "001_init.sql".
Definition f002 : jsstring := JS.lit "002_add_col.sql".

(** Two scripts and a file that is not a script. *)
Definition exampleDir : FS :=
  {| readdir := Some [f002; JS.lit "README.md"; f001];
     readFile := fun filename =>
       if JS.eqb filename f001
       then Some (JS.lit "CREATE TABLE t(x int); INSERT INTO t VALUES (1);")
       else if JS.eqb filename f002
       then Some (JS.lit "ALTER TABLE t ADD COLUMN y int; UPDATE t SET y = 0;")
       else None |}.

(** A server that rejects nothing. *)
Definition neverFails : nat -> jsstring -> bool := fun _ _ => false.

(** A server that rejects one text, whenever it is sent. *)
Definition rejects (bad : jsstring) : nat -> jsstring -> bool :=
  fun _ t => JS.eqb t bad.

(** A database without the ledger table, and one where the first script
    is recorded. *)
Definition emptyStore : Store := {| ledger := None; effects := [] |}.

Definition storeAfter001 : Store :=
  {| ledger := Some [f001];
     effects := [JS.lit "CREATE TABLE t(x int)";
                 JS.lit "INSERT INTO t VALUES (1)"] |}.

(** A script with a [COMMIT] of its own between two statements. *)
Definition f003 : jsstring := JS.lit "003_split.sql".

Definition selfCommittingDir : FS :=
  {| readdir := Some [f003];
     readFile := fun filename =>
       if JS.eqb filename f003
       then Some (JS.lit
              "CREATE TABLE t(x int); COMMIT; INSERT INTO u VALUES (1);")
       else None |}.

(** A database with an empty ledger table. *)
Definition blankStore : Store := {| ledger := Some []; effects := [] |}.

(** A directory with the first script alone. *)
Definition singleDir : FS :=
  {| readdir := Some [f001];
     readFile := fun filename =>
       if JS.eqb filename f001
       then Some (JS.lit "CREATE TABLE t(x int); INSERT INTO t VALUES (1);")
       else None |}.

(** A script with a [ROLLBACK] of its own between two statements, followed
    by a script that the server will not accept. *)
Definition f004 : jsstring := JS.lit "004_undo.sql".
Definition f005 : jsstring := JS.lit "005_bad.sql".

Definition undoingDir : FS :=
  {| readdir := Some [f004; f005];
     readFile := fun filename =>
       if JS.eqb filename f004
       then Some (JS.lit
              "CREATE TABLE a(x int); ROLLBACK; CREATE TABLE b(x int);")
       else if JS.eqb filename f005
       then Some (JS.lit "INSERT INTO missing VALUES (1);")
       else None |}.

(** A script that can be run any number of times, and a database where it
    is recorded. *)
Definition f006 : jsstring := JS.lit "006_reset.sql".

Definition rerunDir : FS :=
  {| readdir := Some [f006];
     readFile := fun filename =>
       if JS.eqb filename f006
       then Some (JS.lit "UPDATE t SET x = 0; DELETE FROM t WHERE x < 0;")
       else None |}.

Definition storeAfter006 : Store :=
  {| ledger := Some [f006];
     effects := [JS.lit "UPDATE t SET x = 0";
                 JS.lit "DELETE FROM t WHERE x < 0"] |}.

(** Every query in the log went to the session the pool chose for it. *)
Definition followsPool (dispatch : nat -> conn) (db : DB) : Prop :=
  List.map on (log db) = List.map dispatch (seq 0 (length (log db))).

(** A pool of two clients that are taken in turn, as when another request
    holds the client that served the previous query. *)
Definition alternating : nat -> conn := fun n => Nat.modulo n 2.

(** A pool that serves the first [k] queries from one client and the later
    ones from another, as when another request takes the first client and
    keeps it. *)
Definition switchesAt (k : nat) : nat -> conn :=
  fun n => if n <? k then 0 else 1.

(* ===================================================================== *)
(** ** The command line, [main] of [migrate.js] *)
(* ===================================================================== *)

(** [Array.prototype.join] on an array of strings. *)
Fixpoint join (sep : jsstring) (l : list jsstring) : jsstring :=
  match l with
  | [] => []
  | [x] => x
  | x :: l' => x ++ sep ++ join sep l'
  end.

(** A length inside a template literal: its decimal digits. *)
Definition decimal (n : nat) : jsstring :=
  JS.lit (NilEmpty.string_of_uint (Nat.to_uint n)).

(** How the process ends: the code given to [process.exit] and the lines
    written by [console.log]. *)
Record Exit : Type := {
  code : nat;
  printed : list jsstring
}.

Definition usage : list jsstring :=
  [JS.lit "Usage: node migrate.js [run|status]";
   JS.lit "  run    - Run all pending migrations (default)";
   JS.lit "  status - Show migration status"].

(** The lines of the [status] command, lines 180 to 186. *)
Definition report (status : Status) : list jsstring :=
  [JS.lit "Migration Status:";
   JS.lit "  Total migrations: " ++ decimal (total status);
   JS.lit "  Applied: " ++ decimal (applied status);
   JS.lit "  Pending: " ++ decimal (pending status)]
  ++ (if 0 <? length (pendingMigrations status)
      then [JS.lit "  Pending migrations:" ++ JS.lit " "
              ++ join (JS.lit ", ") (pendingMigrations status)]
      else []).

Section CommandLine.

Variable fsys : FS.
Variable dispatch : nat -> conn.
Variable fails : nat -> jsstring -> bool.

(** [main], with [argv2] for [process.argv[2]] ([None] when there is no
    argument).  [process.exit] ends the process, so the [process.exit(0)]
    after the [switch] is not reached from the [default] case. *)
Definition main (argv2 : option jsstring) : M Exit :=
  let command :=
    match argv2 with
    | Some a => if JS.truthy a then a else JS.lit "run"
    | None => JS.lit "run"
    end in
  try_catch
    (if JS.eqb command (JS.lit "run") then
       runPendingMigrations fsys dispatch fails ;;
       ret {| code := 0; printed := [] |}
     else if JS.eqb command (JS.lit "status") then
       status <- getStatus fsys dispatch fails ;;
       ret {| code := 0; printed := report status |}
     else ret {| code := 1; printed := usage |})
    (fun error => ret {| code := 1; printed := [] |}).

End CommandLine.

(** A statement that the server reads as an ordinary statement. *)
Definition ordinary (srv : Server) (statement : jsstring) : bool :=
  match classify srv statement [] with
  | CPlain _ => true
  | _ => false
  end.

(** The script of [filename], if it can be read at all, is made of
    ordinary statements. *)
Definition ordinaryScript (srv : Server) (fsys : FS) (filename : jsstring)
  : bool :=
  match readFile fsys filename with
  | Some migrationSQL => forallb (ordinary srv) (statementsOf migrationSQL)
  | None => true
  end.

(** A statement that is not one of the two queries of the engine that
    need a parameter: the server has no reason of its own to refuse it. *)
Definition acceptable (srv : Server) (statement : jsstring) : bool :=
  match classify srv statement [] with
  | CInvalid => false
  | _ => true
  end.

(** [s] is [piece] without the white space around it: what was taken off
    on both sides is white space, and [s] neither starts nor ends with
    white space. *)
Definition trimmedFrom (piece s : jsstring) : Prop :=
  exists pre post,
    piece = pre ++ s ++ post /\ blank pre /\ blank post /\
    (forall ch rest, s = ch :: rest -> JS.isWhiteSpace ch = false) /\
    (forall front ch, s = front ++ [ch] -> JS.isWhiteSpace ch = false).

(** A script written one statement per line, each ended by a semicolon. *)
Definition scriptOf (statements : list jsstring) : jsstring :=
  flat_map (fun statement => statement ++ [59%N; 10%N]) statements.

(** The committed effects of the units of work of several scripts. *)
Definition statementsOfAll (fsys : FS) (filenames : list jsstring)
  : list jsstring :=
  flat_map
    (fun filename =>
       match readFile fsys filename with
       | Some migrationSQL => statementsOf migrationSQL
       | None => []
       end)
    filenames.

(** A server that rejects two texts, whenever they are sent. *)
Definition rejectsBoth (bad1 bad2 : jsstring) : nat -> jsstring -> bool :=
  fun _ t => JS.eqb t bad1 || JS.eqb t bad2.
(* ===================================================================== *)
(** ** Facts about strings and arrays *)
(* ===================================================================== *)

Module JSFacts.
Import JS.

Lemma eqb_eq (a b : jsstring) : eqb a b = true <-> a = b.
Proof.
  revert b; induction a as [|x a IH]; intros [|y b]; simpl;
    try (split; [discriminate | congruence]); try tauto.
  rewrite andb_true_iff, N.eqb_eq, IH.
  split; [intros [-> ->]; reflexivity | intros H; inversion H; auto].
Qed.

Lemma eqb_refl (a : jsstring) : eqb a a = true.
Proof. apply eqb_eq; reflexivity. Qed.

Lemma eqb_neq (a b : jsstring) : eqb a b = false <-> a <> b.
Proof.
  rewrite <- eqb_eq. destruct (eqb a b); split; congruence.
Qed.

Lemma includes_In (l : list jsstring) (x : jsstring) :
  includes l x = true <-> In x l.
Proof.
  unfold includes. rewrite existsb_exists. split.
  - intros (y & Hy & E). apply eqb_eq in E. subst; assumption.
  - intros H. exists x. split; [assumption | apply eqb_refl].
Qed.

Lemma includes_not_In (l : list jsstring) (x : jsstring) :
  includes l x = false <-> ~ In x l.
Proof.
  rewrite <- includes_In. destruct (includes l x); split; congruence.
Qed.

Lemma compare_eq (a b : jsstring) : compare a b = Eq -> a = b.
Proof.
  revert b; induction a as [|x a IH]; intros [|y b]; simpl;
    try discriminate; try reflexivity.
  destruct (N.compare_spec x y) as [E|E|E]; try discriminate.
  intros H. subst. f_equal. apply IH, H.
Qed.

Lemma compare_antisym (a b : jsstring) :
  compare b a = CompOpp (compare a b).
Proof.
  revert b; induction a as [|x a IH]; intros [|y b]; simpl; try reflexivity.
  rewrite (N.compare_antisym x y).
  destruct (N.compare x y); simpl; auto.
Qed.

Lemma compare_lt_trans (a b c : jsstring) :
  compare a b = Lt -> compare b c = Lt -> compare a c = Lt.
Proof.
  revert b c; induction a as [|x a IH]; intros [|y b] [|z c]; simpl;
    try discriminate; try reflexivity.
  destruct (N.compare_spec x y) as [E|E|E], (N.compare_spec y z) as [F|F|F];
    subst; try discriminate; intros H1 H2.
  - rewrite N.compare_refl. eapply IH; eassumption.
  - apply N.compare_lt_iff in F. rewrite F. reflexivity.
  - apply N.compare_lt_iff in E. rewrite E. reflexivity.
  - assert (x < z)%N as L by lia. apply N.compare_lt_iff in L.
    rewrite L. reflexivity.
Qed.

Lemma leb_total (a b : jsstring) : leb a b = true \/ leb b a = true.
Proof.
  unfold leb. rewrite (compare_antisym a b).
  destruct (compare a b); simpl; auto.
Qed.

Lemma leb_antisym (a b : jsstring) :
  leb a b = true -> leb b a = true -> a = b.
Proof.
  unfold leb. rewrite (compare_antisym a b).
  destruct (compare a b) eqn:E; simpl; try discriminate.
  intros _ _. apply compare_eq, E.
Qed.

Lemma leb_trans (a b c : jsstring) :
  leb a b = true -> leb b c = true -> leb a c = true.
Proof.
  unfold leb.
  destruct (compare a b) eqn:E1; try discriminate;
    destruct (compare b c) eqn:E2; try discriminate; intros _ _.
  - apply compare_eq in E1. subst. rewrite E2. reflexivity.
  - apply compare_eq in E1. subst. rewrite E2. reflexivity.
  - apply compare_eq in E2. subst. rewrite E1. reflexivity.
  - rewrite (compare_lt_trans _ _ _ E1 E2). reflexivity.
Qed.

Lemma insert_perm (x : jsstring) (l : list jsstring) :
  Permutation (insert x l) (x :: l).
Proof.
  induction l as [|y l IH]; simpl; [reflexivity|].
  destruct (leb x y); [reflexivity|].
  rewrite IH. apply perm_swap.
Qed.

Lemma sort_perm (l : list jsstring) : Permutation (sort l) l.
Proof.
  induction l as [|x l IH]; simpl; [reflexivity|].
  rewrite insert_perm. constructor. exact IH.
Qed.

Lemma insert_ascending (x : jsstring) (l : list jsstring) :
  ascending l -> ascending (insert x l).
Proof.
  unfold ascending. induction l as [|y l IH]; simpl; intros H.
  - repeat constructor.
  - inversion H as [|? ? Hl Hy]; subst.
    destruct (leb x y) eqn:E.
    + constructor; [assumption|]. constructor; [assumption|].
      eapply Forall_impl; [|exact Hy]. intros z Hz. simpl in Hz.
      eapply leb_trans; eassumption.
    + constructor; [apply IH; assumption|].
      eapply Permutation_Forall; [symmetry; apply insert_perm|].
      constructor; [|assumption].
      destruct (leb_total x y); congruence.
Qed.

Lemma sort_ascending (l : list jsstring) : ascending (sort l).
Proof.
  induction l as [|x l IH]; simpl.
  - constructor.
  - apply insert_ascending, IH.
Qed.

(** Two ascending arrays with the same elements are the same array. *)
Lemma ascending_unique (l1 l2 : list jsstring) :
  ascending l1 -> ascending l2 -> Permutation l1 l2 -> l1 = l2.
Proof.
  unfold ascending. revert l2.
  induction l1 as [|x l1 IH]; intros l2 H1 H2 P.
  - apply Permutation_nil in P. congruence.
  - destruct l2 as [|y l2].
    + symmetry in P. apply Permutation_nil in P. discriminate.
    + inversion H1 as [|? ? S1 F1]; inversion H2 as [|? ? S2 F2]; subst.
      assert (x = y) as ->.
      { assert (In x (y :: l2)) as Ix
          by (eapply Permutation_in; [exact P | left; reflexivity]).
        assert (In y (x :: l1)) as Iy
          by (eapply Permutation_in; [symmetry; exact P | left; reflexivity]).
        destruct Ix as [->|Ix]; [reflexivity|].
        destruct Iy as [->|Iy]; [reflexivity|].
        rewrite Forall_forall in F1, F2.
        apply leb_antisym; [apply F1, Iy | apply F2, Ix]. }
      f_equal. apply IH; try assumption.
      eapply Permutation_cons_inv; exact P.
Qed.

Lemma sort_of_ascending (l : list jsstring) : ascending l -> sort l = l.
Proof.
  intros H. apply ascending_unique;
    [apply sort_ascending | assumption | apply sort_perm].
Qed.

Lemma sort_permutation_eq (l1 l2 : list jsstring) :
  Permutation l1 l2 -> sort l1 = sort l2.
Proof.
  intros P. apply ascending_unique; try apply sort_ascending.
  rewrite sort_perm, sort_perm. exact P.
Qed.

Lemma filter_ascending (p : jsstring -> bool) (l : list jsstring) :
  ascending l -> ascending (filter p l).
Proof.
  unfold ascending. induction 1 as [|x l S IH F]; simpl; [constructor|].
  destruct (p x); [|assumption].
  constructor; [assumption|].
  rewrite Forall_forall in *. intros y Hy. apply filter_In in Hy.
  apply F, Hy.
Qed.

Lemma filter_perm (p : jsstring -> bool) (l1 l2 : list jsstring) :
  Permutation l1 l2 -> Permutation (filter p l1) (filter p l2).
Proof.
  induction 1 as [| x l l' _ IH | x y l | l l' l'' _ IH1 _ IH2]; simpl.
  - constructor.
  - destruct (p x); [constructor|]; assumption.
  - destruct (p x), (p y); try reflexivity. apply perm_swap.
  - etransitivity; eassumption.
Qed.

(** Filtering a sorted array gives the sort of the filtered elements. *)
Lemma filter_sort (p : jsstring -> bool) (l : list jsstring) :
  filter p (sort l) = sort (filter p l).
Proof.
  apply ascending_unique.
  - apply filter_ascending, sort_ascending.
  - apply sort_ascending.
  - etransitivity; [apply filter_perm, sort_perm|].
    symmetry. apply sort_perm.
Qed.

Lemma filter_filter (p q : jsstring -> bool) (l : list jsstring) :
  filter p (filter q l) = filter (fun x => q x && p x) l.
Proof.
  induction l as [|x l IH]; simpl; [reflexivity|].
  destruct (q x); simpl; [destruct (p x)|]; rewrite ?IH; reflexivity.
Qed.

(** *** [trim] *)

Lemma trimStart_head (s : jsstring) :
  match trimStart s with
  | [] => True
  | c :: _ => isWhiteSpace c = false
  end.
Proof.
  induction s as [|c s IH]; simpl; [exact I|].
  destruct (isWhiteSpace c) eqn:E; [exact IH | exact E].
Qed.

Lemma trimStart_fixed (c : N) (s : jsstring) :
  isWhiteSpace c = false -> trimStart (c :: s) = c :: s.
Proof. intros E. simpl. rewrite E. reflexivity. Qed.

Lemma trimStart_snoc (s : jsstring) (c : N) :
  isWhiteSpace c = false -> exists s', trimStart (s ++ [c]) = s' ++ [c].
Proof.
  intros E. induction s as [|x s IH]; simpl.
  - rewrite E. exists []. reflexivity.
  - destruct (isWhiteSpace x); [exact IH|].
    exists (x :: s). reflexivity.
Qed.

(** A trimmed string neither starts nor ends with white space. *)
Lemma trim_head (s : jsstring) :
  match trim s with
  | [] => True
  | c :: _ => isWhiteSpace c = false
  end.
Proof.
  unfold trim, trimEnd. pose proof (trimStart_head s) as H.
  destruct (trimStart s) as [|c s']; simpl; [exact I|].
  destruct (trimStart_snoc (rev s') c H) as [r ->].
  rewrite rev_app_distr. simpl. exact H.
Qed.

Lemma trim_last (s : jsstring) :
  match rev (trim s) with
  | [] => True
  | c :: _ => isWhiteSpace c = false
  end.
Proof.
  unfold trim, trimEnd. rewrite rev_involutive. apply trimStart_head.
Qed.

Lemma trim_idempotent (s : jsstring) : trim (trim s) = trim s.
Proof.
  pose proof (trim_head s) as H1. pose proof (trim_last s) as H2.
  unfold trim at 1. unfold trimEnd.
  destruct (trim s) as [|c t] eqn:E; [reflexivity|].
  rewrite (trimStart_fixed c t H1).
  destruct (rev (c :: t)) as [|d r] eqn:R.
  - apply (f_equal (@rev N)) in R. rewrite rev_involutive in R.
    discriminate.
  - rewrite (trimStart_fixed d r H2), <- R. apply rev_involutive.
Qed.

(** *** [split] *)

Lemma split_not_nil (sep : N) (s : jsstring) : split sep s <> [].
Proof.
  induction s as [|c s IH]; simpl; [discriminate|].
  destruct (N.eqb c sep); [discriminate|].
  destruct (split sep s); discriminate.
Qed.

(** No piece contains the separator. *)
Lemma split_no_sep (sep : N) (s piece : jsstring) :
  In piece (split sep s) -> ~ In sep piece.
Proof.
  revert piece. induction s as [|c s IH]; simpl; intros piece H.
  - destruct H as [<-|[]]. intros [].
  - destruct (N.eqb c sep) eqn:E.
    + destruct H as [<-|H]; [intros []|apply IH, H].
    + pose proof (split_not_nil sep s) as NN.
      destruct (split sep s) as [|p ps]; [congruence|].
      destruct H as [<-|H].
      * intros [->|H]; [rewrite N.eqb_refl in E; discriminate|].
        apply (IH p); [left; reflexivity | exact H].
      * apply IH. right. exact H.
Qed.

(** Joining the pieces with the separator gives the text back. *)
Lemma split_join (sep : N) (s : jsstring) :
  match split sep s with
  | [] => False
  | p :: ps => p ++ flat_map (fun q => sep :: q) ps = s
  end.
Proof.
  induction s as [|c s IH]; simpl; [reflexivity|].
  destruct (N.eqb c sep) eqn:E.
  - apply N.eqb_eq in E. subst c.
    destruct (split sep s) as [|p ps]; [contradiction|].
    simpl. f_equal. exact IH.
  - destruct (split sep s) as [|p ps]; [contradiction|].
    simpl. f_equal. exact IH.
Qed.

Lemma truthy_length (s : jsstring) : truthy s = (0 <? length s).
Proof. destruct s; reflexivity. Qed.

(** *** [trim], by what it removes *)

Lemma trimStart_spec (s : jsstring) :
  exists pre, s = pre ++ trimStart s /\ blank pre.
Proof.
  induction s as [|c s IH]; simpl.
  - exists []. split; [reflexivity | constructor].
  - destruct (isWhiteSpace c) eqn:E.
    + destruct IH as (pre & H & F). exists (c :: pre). split.
      * simpl. f_equal. exact H.
      * constructor; assumption.
    + exists []. split; [reflexivity | constructor].
Qed.

(** A string is its trimmed part between two runs of white space. *)
Lemma trim_spec (s : jsstring) :
  exists pre post, s = pre ++ trim s ++ post /\ blank pre /\ blank post.
Proof.
  unfold trim, trimEnd.
  destruct (trimStart_spec s) as (pre & H1 & F1).
  destruct (trimStart_spec (rev (trimStart s))) as (q & H2 & F2).
  exists pre, (rev q). split; [|split; [exact F1 | apply Forall_rev, F2]].
  transitivity (pre ++ trimStart s); [exact H1|]. f_equal.
  apply (f_equal (@rev N)) in H2.
  rewrite rev_involutive, rev_app_distr in H2. exact H2.
Qed.

End JSFacts.

(* ===================================================================== *)
(** ** Facts about the database *)
(* ===================================================================== *)

Lemma place_perm (le : jsstring -> jsstring -> bool) (x : jsstring)
      (l : list jsstring) :
  Permutation (place le x l) (x :: l).
Proof.
  induction l as [|y l IH]; simpl; [reflexivity|].
  destruct (le x y); [reflexivity|].
  etransitivity; [apply perm_skip, IH | apply perm_swap].
Qed.

(** Whatever the collation, [ORDER BY] rearranges the rows it is given. *)
Lemma orderBy_perm (le : jsstring -> jsstring -> bool) (l : list jsstring) :
  Permutation (orderBy le l) l.
Proof.
  induction l as [|x l IH]; simpl; [reflexivity|].
  etransitivity; [apply place_perm | apply perm_skip, IH].
Qed.

Lemma rows_apply_MkTable (s : Store) : rows (apply MkTable s) = rows s.
Proof. unfold rows; simpl. destruct (ledger s); reflexivity. Qed.

Lemma rows_apply_Effect (st : jsstring) (s : Store) :
  rows (apply (Effect st) s) = rows s.
Proof. reflexivity. Qed.

Lemma replay_snoc (p : list Change) (ch : Change) (s : Store) :
  replay (p ++ [ch]) s = apply ch (replay p s).
Proof. unfold replay. rewrite fold_left_app. reflexivity. Qed.

Lemma replay_nil (s : Store) : replay [] s = s.
Proof. reflexivity. Qed.

Lemma apply_keeps_table (ch : Change) (s : Store) :
  ledger s <> None -> ledger (apply ch s) <> None.
Proof. destruct ch; simpl; destruct (ledger s); congruence. Qed.

Lemma replay_keeps_table (p : list Change) (s : Store) :
  ledger s <> None -> ledger (replay p s) <> None.
Proof.
  revert s. induction p as [|ch p IH]; intros s H; simpl; [exact H|].
  apply IH, apply_keeps_table, H.
Qed.

Section Reading.

Variable srv : Server.

Lemma classify_begin : classify srv sql_begin [] = CBegin.
Proof. reflexivity. Qed.

Lemma classify_commit : classify srv sql_commit [] = CCommit.
Proof. reflexivity. Qed.

Lemma classify_rollback : classify srv sql_rollback [] = CRollback.
Proof. reflexivity. Qed.

Lemma classify_create : classify srv sql_create [] = CEnsureLedger.
Proof. vm_compute. reflexivity. Qed.

Lemma classify_list : classify srv sql_list [] = CListApplied (collation srv).
Proof. vm_compute. reflexivity. Qed.

Lemma classify_lookup (f : jsstring) :
  classify srv sql_lookup [f] = CLookup f.
Proof. reflexivity. Qed.

Lemma classify_insert (f : jsstring) :
  classify srv sql_insert [f] = CRecord f.
Proof. reflexivity. Qed.

(** A query without parameters is never read as a ledger insert or a
    lookup. *)
Lemma classify_nil (t : jsstring) :
  forall f, classify srv t [] <> CRecord f /\ classify srv t [] <> CLookup f.
Proof.
  intros f. unfold classify.
  repeat match goal with
         | |- context [if ?b then _ else _] => destruct b
         end; try (split; discriminate).
  destruct (grammar srv t); split; discriminate.
Qed.

Lemma classify_keeps (t : jsstring) :
  endsTransaction srv t = false ->
  classify srv t [] <> CCommit /\ classify srv t [] <> CRollback.
Proof.
  unfold endsTransaction. destruct (classify srv t []); intros H;
    try discriminate; split; discriminate.
Qed.

Lemma ordinary_classify (s : jsstring) :
  ordinary srv s = true -> classify srv s [] = CPlain s.
Proof.
  unfold ordinary, classify.
  repeat match goal with
         | |- context [if ?b then _ else _] => destruct b
         end; try discriminate.
  destruct (grammar srv s); intros H; try discriminate; reflexivity.
Qed.

Lemma ordinary_keeps (s : jsstring) :
  ordinary srv s = true -> endsTransaction srv s = false.
Proof.
  unfold ordinary, endsTransaction.
  destruct (classify srv s []); intros H; try discriminate; reflexivity.
Qed.

Lemma ordinary_acceptable (s : jsstring) :
  ordinary srv s = true -> acceptable srv s = true.
Proof.
  unfold ordinary, acceptable.
  destruct (classify srv s []); intros H; try discriminate; reflexivity.
Qed.

End Reading.

(** *** One session *)

Ltac split_step E :=
  repeat match type of E with
         | context [match ledger ?v with _ => _ end] => destruct (ledger v)
         | context [if JS.includes ?l ?f then _ else _] =>
             destruct (JS.includes l f)
         end.

(** A command that fails leaves the store and the session as they were. *)
Lemma step_err (cmd : Command) (d d' : Store) (t t' : Session) (e : Error) :
  step cmd d t = (Err e, (d', t')) -> d' = d /\ t' = t.
Proof.
  intros E. destruct cmd; cbn [step] in E; split_step E;
    try discriminate; injection E as _ <- <-; auto.
Qed.

Lemma rowsAre_closed (R : list jsstring) (d : Store) (t : Session) :
  rowsAre R d t -> rowsAre R d None.
Proof. intros [H _]. split; [exact H | exact H]. Qed.

Lemma step_rowsAre (R : list jsstring) (cmd : Command) (d d' : Store)
      (t t' : Session) (r : Result (list jsstring)) :
  (forall f, cmd <> CRecord f) ->
  rowsAre R d t -> step cmd d t = (r, (d', t')) -> rowsAre R d' t'.
Proof.
  unfold rowsAre. intros NR [H1 H2] E.
  destruct cmd; try (exfalso; eapply NR; reflexivity);
    cbn [step] in E; split_step E;
    destruct t as [p|]; cbn [push view] in *;
    inversion E; subst; clear E; cbn [view];
    rewrite ?replay_snoc, ?replay_nil, ?rows_apply_MkTable,
      ?rows_apply_Effect;
    split; try congruence;
    unfold rows; simpl; destruct (ledger d); reflexivity.
Qed.

(** The ledger insert: either refused without writing, or the filename is
    new and the session now sees it last. *)
Lemma step_record (R : list jsstring) (f : jsstring) (d d' : Store)
      (t t' : Session) (r : Result (list jsstring)) :
  rowsAre R d t -> step (CRecord f) d t = (r, (d', t')) ->
  match r with
  | Ok _ =>
      ~ In f R /\ rows (view d' t') = R ++ [f] /\
      ((t' = None /\ rows d' = R ++ [f]) \/ (t' <> None /\ rows d' = R))
  | Err _ => d' = d /\ t' = t
  end.
Proof.
  unfold rowsAre. intros [H1 H2] E. cbn [step] in E.
  destruct (ledger (view d t)) as [l|] eqn:L.
  - assert (l = R) as -> by (unfold rows in H2; rewrite L in H2; exact H2).
    destruct (JS.includes R f) eqn:I.
    + inversion E; subst. auto.
    + apply JSFacts.includes_not_In in I.
      destruct t as [p|]; cbn [push view] in *; inversion E; subst; clear E.
      * split; [exact I|]. split.
        -- cbn [view]. rewrite replay_snoc. unfold rows; simpl. rewrite L.
           reflexivity.
        -- right. split; [discriminate | reflexivity].
      * split; [exact I|]. cbn [view]. unfold rows; simpl. rewrite L.
        split; [reflexivity|]. left. split; reflexivity.
  - inversion E; subst. auto.
Qed.

Lemma step_inTransaction (D : Store) (cmd : Command) (d d' : Store)
      (t t' : Session) (r : Result (list jsstring)) :
  cmd <> CCommit -> cmd <> CRollback ->
  inTransaction D d t -> step cmd d t = (r, (d', t')) ->
  inTransaction D d' t'.
Proof.
  unfold inTransaction. intros NC NR [-> Ht] E.
  destruct t as [p|]; [|congruence].
  destruct cmd; cbn [step push view] in E; try congruence; split_step E;
    inversion E; subst; split; congruence.
Qed.

Lemma view_keeps_table (d : Store) (t : Session) :
  ledger d <> None -> ledger (view d t) <> None.
Proof.
  destruct t as [p|]; cbn [view]; [apply replay_keeps_table | auto].
Qed.

Lemma push_keeps_table (ch : Change) (d : Store) (t : Session) :
  ledger d <> None -> ledger (fst (push ch d t)) <> None.
Proof.
  destruct t as [p|]; cbn [push fst]; [auto | apply apply_keeps_table].
Qed.

Lemma step_keeps_table (cmd : Command) (d d' : Store) (t t' : Session)
      (r : Result (list jsstring)) :
  ledger d <> None -> step cmd d t = (r, (d', t')) -> ledger d' <> None.
Proof.
  intros H E.
  assert (forall ch, push ch d t = (d', t') -> ledger d' <> None) as P.
  { intros ch Ep. pose proof (push_keeps_table ch d t H) as K.
    rewrite Ep in K. exact K. }
  destruct cmd; cbn [step] in E; split_step E;
    inversion E; subst; clear E; eauto using view_keeps_table.
Qed.

(* ===================================================================== *)
(** ** Facts about [query] *)
(* ===================================================================== *)

Section Queries.

Variable dispatch : nat -> conn.
Variable fails : nat -> jsstring -> bool.

(** The [try]/[catch] of [query] rethrows what it caught. *)
Lemma query_pool (t : jsstring) (ps : list jsstring) (db : DB) :
  query dispatch fails t ps db = pool_query dispatch fails t ps db.
Proof.
  unfold query, try_catch, bind, ret, throw.
  destruct (pool_query dispatch fails t ps db) as [[a|e] db']; reflexivity.
Qed.

(** One query: it is logged with its outcome; the server stays the same;
    the other clients are left alone; and on the client that serves it,
    either it is rejected, or it is one step of the session, and the
    client is closed if that step failed. *)
Lemma query_inv (t : jsstring) (ps : list jsstring) (db db' : DB)
      (r : Result (list jsstring)) :
  query dispatch fails t ps db = (r, db') ->
  log db' =
  log db ++ [{| on := dispatch (length (log db)); text := t; params := ps;
                answered := succeeded r |}] /\
  server db' = server db /\
  (forall c', c' <> dispatch (length (log db)) -> open db' c' = open db c') /\
  ((fails (length (log db)) t = true /\
    r = Err (failureKind (classify (server db) t ps)) /\
    durable db' = durable db /\
    open db' (dispatch (length (log db))) = None)
   \/
   (fails (length (log db)) t = false /\
    exists s,
      step (classify (server db) t ps) (durable db)
           (open db (dispatch (length (log db))))
      = (r, (durable db', s)) /\
      open db' (dispatch (length (log db))) = released r s)).
Proof.
  rewrite query_pool. unfold pool_query.
  destruct (fails (length (log db)) t) eqn:F.
  - intros E. injection E as <- <-. cbn. rewrite Nat.eqb_refl.
    split; [reflexivity|]. split; [reflexivity|]. split.
    + intros c' N. apply Nat.eqb_neq in N. rewrite N. reflexivity.
    + left. auto.
  - destruct (step (classify (server db) t ps) (durable db)
                   (open db (dispatch (length (log db)))))
      as [r0 [d s]] eqn:S.
    intros E. injection E as <- <-. cbn. rewrite Nat.eqb_refl.
    split; [reflexivity|]. split; [reflexivity|]. split.
    + intros c' N. apply Nat.eqb_neq in N. rewrite N. reflexivity.
    + right. split; [reflexivity|]. exists s. auto.
Qed.

(** Every query reaches the server, on the client the pool chose. *)
Lemma query_log (t : jsstring) (ps : list jsstring) (db db' : DB)
      (r : Result (list jsstring)) :
  query dispatch fails t ps db = (r, db') ->
  log db' =
  log db ++ [{| on := dispatch (length (log db)); text := t; params := ps;
                answered := succeeded r |}].
Proof. intros E. apply query_inv in E. apply E. Qed.

Lemma query_sent (t : jsstring) (ps : list jsstring) (db db' : DB)
      (r : Result (list jsstring)) :
  query dispatch fails t ps db = (r, db') ->
  sent db' = sent db ++ [(t, ps)].
Proof.
  intros E. apply query_log in E. unfold sent. rewrite E, map_app.
  reflexivity.
Qed.

Lemma query_answers (t : jsstring) (ps : list jsstring) (db db' : DB)
      (r : Result (list jsstring)) :
  query dispatch fails t ps db = (r, db') ->
  answers db' = answers db ++ [succeeded r].
Proof.
  intros E. apply query_log in E. unfold answers. rewrite E, map_app.
  reflexivity.
Qed.

Lemma query_server (t : jsstring) (ps : list jsstring) (db db' : DB)
      (r : Result (list jsstring)) :
  query dispatch fails t ps db = (r, db') -> server db' = server db.
Proof. intros E. apply query_inv in E. apply E. Qed.

(** A query that fails has written nothing, and its client is closed. *)
Lemma query_failed (t : jsstring) (ps : list jsstring) (db db' : DB)
      (e : Error) :
  query dispatch fails t ps db = (Err e, db') ->
  durable db' = durable db /\ open db' (dispatch (length (log db))) = None.
Proof.
  intros E. apply query_inv in E.
  destruct E as (_ & _ & _ & [(_ & _ & Hd & Ho) | (_ & s & S & Ho)]).
  - auto.
  - apply step_err in S. destruct S as [Hd _]. auto.
Qed.

(** A query that succeeds was not rejected and is one step of the session
    of its client. *)
Lemma query_succeeded (t : jsstring) (ps : list jsstring) (db db' : DB)
      (x : list jsstring) :
  query dispatch fails t ps db = (Ok x, db') ->
  fails (length (log db)) t = false /\
  step (classify (server db) t ps) (durable db)
       (open db (dispatch (length (log db))))
  = (Ok x, (durable db', open db' (dispatch (length (log db))))).
Proof.
  intros E. apply query_inv in E.
  destruct E as (_ & _ & _ & [(_ & E & _) | (F & s & S & Ho)]);
    [discriminate|].
  split; [exact F|]. cbn in Ho. rewrite Ho. exact S.
Qed.

End Queries.

(** On one client.  The invariant [P] of the session holds after a query
    that succeeds, and [J] holds once the client is closed. *)
Lemma query_keeps (c : conn) (fails : nat -> jsstring -> bool)
      (srv : Server) (P J : Store -> Session -> Prop)
      (t : jsstring) (ps : list jsstring) :
  (forall d0 t0, P d0 t0 -> J d0 None) ->
  (forall d0 t0 x d1 t1,
      P d0 t0 -> step (classify srv t ps) d0 t0 = (Ok x, (d1, t1)) ->
      P d1 t1) ->
  keeps (served srv c P) (served srv c J) (query (pinned c) fails t ps).
Proof.
  intros HJ HP db r db' [Hs I] E. unfold served.
  rewrite (query_server _ _ _ _ _ _ _ E).
  destruct r as [x|e].
  - apply query_succeeded in E. destruct E as [_ E]. unfold pinned in E.
    rewrite Hs in E. split; [exact Hs|]. eapply HP; eassumption.
  - apply query_failed in E. destruct E as [Hd Ho]. unfold pinned in Ho.
    rewrite Hd, Ho. split; [exact Hs|]. eapply HJ; eassumption.
Qed.

Lemma keeps_preserves {A : Type} (I : DB -> Prop) (m : M A) :
  keeps I I m -> preserves I m.
Proof.
  intros H db r db' Hi E. specialize (H db r db' Hi E).
  destruct r; exact H.
Qed.

Lemma query_preserves (c : conn) (fails : nat -> jsstring -> bool)
      (srv : Server) (P : Store -> Session -> Prop)
      (t : jsstring) (ps : list jsstring) :
  (forall d0 t0, P d0 t0 -> P d0 None) ->
  (forall d0 t0 x d1 t1,
      P d0 t0 -> step (classify srv t ps) d0 t0 = (Ok x, (d1, t1)) ->
      P d1 t1) ->
  preserves (served srv c P) (query (pinned c) fails t ps).
Proof. intros H1 H2. apply keeps_preserves, query_keeps; assumption. Qed.

(** *** Keeping a property through the control flow *)

Lemma preserves_ret {A : Type} (I : DB -> Prop) (a : A) : preserves I (ret a).
Proof. intros db r db' H E. inversion E; subst. exact H. Qed.

Lemma preserves_throw {A : Type} (I : DB -> Prop) (e : Error) :
  preserves I (@throw A e).
Proof. intros db r db' H E. inversion E; subst. exact H. Qed.

Lemma preserves_bind {A B : Type} (I : DB -> Prop) (m : M A) (k : A -> M B) :
  preserves I m -> (forall a, preserves I (k a)) -> preserves I (bind m k).
Proof.
  intros Hm Hk db r db' H E. unfold bind in E.
  destruct (m db) as [[a|e] db1] eqn:Em.
  - eapply Hk; [eapply Hm; eassumption | exact E].
  - inversion E; subst. eapply Hm; eassumption.
Qed.

Lemma preserves_try_catch {A : Type} (I : DB -> Prop) (m : M A)
      (h : Error -> M A) :
  preserves I m -> (forall e, preserves I (h e)) ->
  preserves I (try_catch m h).
Proof.
  intros Hm Hh db r db' H E. unfold try_catch in E.
  destruct (m db) as [[a|e] db1] eqn:Em.
  - inversion E; subst. eapply Hm; eassumption.
  - eapply Hh; [eapply Hm; eassumption | exact E].
Qed.

Lemma preserves_forEach {A : Type} (I : DB -> Prop) (f : A -> M unit)
      (l : list A) :
  (forall x, In x l -> preserves I (f x)) -> preserves I (forEach f l).
Proof.
  induction l as [|x l IH]; intros H; cbn [forEach].
  - apply preserves_ret.
  - apply preserves_bind.
    + apply H. left. reflexivity.
    + intros _. apply IH. intros y Hy. apply H. right. exact Hy.
Qed.

Lemma keeps_ret {A : Type} (I J : DB -> Prop) (a : A) : keeps I J (ret a).
Proof. intros db r db' H E. inversion E; subst. exact H. Qed.

Lemma keeps_bind {A B : Type} (I J : DB -> Prop) (m : M A) (k : A -> M B) :
  keeps I J m -> (forall a, keeps I J (k a)) -> keeps I J (bind m k).
Proof.
  intros Hm Hk db r db' H E. unfold bind in E.
  destruct (m db) as [[a|e] db1] eqn:Em.
  - eapply Hk; [|exact E]. exact (Hm _ _ _ H Em).
  - inversion E; subst. exact (Hm _ _ _ H Em).
Qed.

Lemma keeps_forEach {A : Type} (I J : DB -> Prop) (f : A -> M unit)
      (l : list A) :
  (forall x, In x l -> keeps I J (f x)) -> keeps I J (forEach f l).
Proof.
  induction l as [|x l IH]; intros H; cbn [forEach].
  - apply keeps_ret.
  - apply keeps_bind.
    + apply H. left. reflexivity.
    + intros _. apply IH. intros y Hy. apply H. right. exact Hy.
Qed.

(** A loop that throws stopped at the first element that threw. *)
Lemma forEach_stops {A : Type} (f : A -> M unit) (l : list A) (db db' : DB)
      (e : Error) :
  forEach f l db = (Err e, db') ->
  exists l1 x l2 dbk,
    l = l1 ++ x :: l2 /\
    forEach f l1 db = (Ok tt, dbk) /\
    f x dbk = (Err e, db').
Proof.
  revert db. induction l as [|x l IH]; intros db E; cbn [forEach] in E.
  - discriminate.
  - unfold bind in E. destruct (f x db) as [[[]|e0] db1] eqn:Ef.
    + destruct (IH _ E) as (l1 & y & l2 & dbk & -> & E1 & E2).
      exists (x :: l1), y, l2, dbk. repeat split; [|exact E2].
      cbn [forEach]. unfold bind. rewrite Ef. exact E1.
    + inversion E; subst. exists [], x, l, db. repeat split. exact Ef.
Qed.

(* ===================================================================== *)
(** ** The control flow of the engine, case by case *)
(* ===================================================================== *)

Section Flow.

Variable fsys : FS.
Variable dispatch : nat -> conn.
Variable fails : nat -> jsstring -> bool.

Lemma getMigrationFiles_eq (db : DB) :
  getMigrationFiles fsys db = (Ok (discovered fsys), db).
Proof.
  unfold getMigrationFiles, discovered, try_catch, bind, fs_readdir.
  destruct (readdir fsys); reflexivity.
Qed.

Lemma getAppliedMigrations_cases (db : DB) :
  (exists l db', query dispatch fails sql_list [] db = (Ok l, db') /\
                 getAppliedMigrations dispatch fails db = (Ok l, db'))
  \/
  (exists e db', query dispatch fails sql_list [] db = (Err e, db') /\
                 getAppliedMigrations dispatch fails db = (Ok [], db')).
Proof.
  unfold getAppliedMigrations, getRows, try_catch, bind, ret.
  destruct (query dispatch fails sql_list [] db) as [[l|e] db'].
  - left. exists l, db'. rewrite map_id. split; reflexivity.
  - right. exists e, db'. split; reflexivity.
Qed.

Lemma applyScript_cases (f txt : jsstring) (db db' : DB) (r : Result unit) :
  applyScript dispatch fails f txt db = (r, db') ->
  (exists e,
      executeStatements dispatch fails (statementsOf txt) db = (Err e, db')
      /\ r = Err e)
  \/
  exists db1,
    executeStatements dispatch fails (statementsOf txt) db = (Ok tt, db1) /\
    ((exists e,
         query dispatch fails sql_insert [f] db1 = (Err e, db') /\ r = Err e)
     \/
     exists ri db2,
       query dispatch fails sql_insert [f] db1 = (Ok ri, db2) /\
       ((exists e,
            query dispatch fails sql_commit [] db2 = (Err e, db') /\ r = Err e)
        \/
        (exists rc,
            query dispatch fails sql_commit [] db2 = (Ok rc, db') /\
            r = Ok tt))).
Proof.
  unfold applyScript, bind, ret.
  destruct (executeStatements dispatch fails (statementsOf txt) db)
    as [[[]|e] db1].
  2:{ intros E; inversion E; subst. left. exists e. split; reflexivity. }
  destruct (query dispatch fails sql_insert [f] db1) as [[ri|e] db2] eqn:Ei.
  2:{ intros E; inversion E; subst. right. exists db1. split; [reflexivity|].
      left. exists e. split; [exact Ei | reflexivity]. }
  destruct (query dispatch fails sql_commit [] db2) as [[rc|e] db3] eqn:Ec;
    intros E; inversion E; subst; right; exists db1; (split; [reflexivity|]);
    right; exists ri, db2; (split; [exact Ei|]).
  - right. exists rc. split; [exact Ec | reflexivity].
  - left. exists e. split; [exact Ec | reflexivity].
Qed.

Lemma runMigration_cases (f : jsstring) (db db' : DB) (r : Result unit) :
  runMigration fsys dispatch fails f db = (r, db') ->
  (readFile fsys f = None /\ r = Err FileReadError /\ db' = db)
  \/
  exists txt,
    readFile fsys f = Some txt /\
    ((exists e,
         query dispatch fails sql_begin [] db = (Err e, db') /\ r = Err e)
     \/
     exists rb db1,
       query dispatch fails sql_begin [] db = (Ok rb, db1) /\
       ((applyScript dispatch fails f txt db1 = (Ok tt, db') /\ r = Ok tt)
        \/
        exists e db2,
          applyScript dispatch fails f txt db1 = (Err e, db2) /\
          ((exists rr,
               query dispatch fails sql_rollback [] db2 = (Ok rr, db') /\
               r = Err e)
           \/
           (exists e',
               query dispatch fails sql_rollback [] db2 = (Err e', db') /\
               r = Err e')))).
Proof.
  unfold runMigration, try_catch, bind, throw, fs_readFile.
  destruct (readFile fsys f) as [txt|].
  2:{ unfold throw. intros E; inversion E; subst. left. repeat split. }
  unfold ret. intros E. right. exists txt. split; [reflexivity|].
  destruct (query dispatch fails sql_begin [] db) as [[rb|e] db1] eqn:Eb.
  2:{ inversion E; subst. left. exists e. split; reflexivity. }
  right. exists rb, db1. split; [reflexivity|].
  destruct (applyScript dispatch fails f txt db1) as [[[]|e] db2] eqn:Ea.
  - inversion E; subst. left. split; reflexivity.
  - right. exists e, db2. split; [reflexivity|].
    destruct (query dispatch fails sql_rollback [] db2) as [[rr|e'] db3] eqn:Er;
      inversion E; subst.
    + left. exists rr. split; reflexivity.
    + right. exists e'. split; reflexivity.
Qed.

Lemma runPendingMigrations_cases (db db' : DB) (r : Result unit) :
  runPendingMigrations fsys dispatch fails db = (r, db') ->
  (exists e, query dispatch fails sql_create [] db = (Err e, db') /\ r = Err e)
  \/
  exists rc db1 appliedMigrations db2,
    query dispatch fails sql_create [] db = (Ok rc, db1) /\
    getAppliedMigrations dispatch fails db1 = (Ok appliedMigrations, db2) /\
    forEach (runMigration fsys dispatch fails)
            (pendingOf appliedMigrations (discovered fsys)) db2 = (r, db').
Proof.
  unfold runPendingMigrations, initialize, createMigrationsTable.
  unfold try_catch at 1. unfold bind at 1. unfold try_catch at 1.
  unfold bind at 1.
  destruct (query dispatch fails sql_create [] db) as [[rc|e] db1] eqn:Ec.
  2:{ unfold throw. intros E; inversion E; subst. left. exists e.
      split; reflexivity. }
  unfold ret at 1. unfold bind at 1.
  intros E. right. exists rc, db1.
  assert (forall (p : list jsstring) (x : DB),
             (if length p =? 0 then ret tt
              else forEach (runMigration fsys dispatch fails) p) x
             = forEach (runMigration fsys dispatch fails) p x) as Hif
    by (intros [|y p] x; reflexivity).
  destruct (getAppliedMigrations_cases db1)
    as [(l & db2 & _ & Ea) | (e & db2 & _ & Ea)];
    rewrite Ea in E; unfold bind at 1 in E;
    rewrite getMigrationFiles_eq in E; rewrite Hif in E;
    [exists l, db2 | exists [], db2];
    (split; [reflexivity|]); (split; [exact Ea|]);
    unfold pendingOf;
    match type of E with
    | context [forEach ?f ?p ?x] =>
        destruct (forEach f p x) as [[[]|e0] db3]
    end; unfold throw in E; inversion E; subst; reflexivity.
Qed.

End Flow.

(* ===================================================================== *)
(** ** The statements of a script *)
(* ===================================================================== *)

Lemma statementsOf_In (txt s : jsstring) :
  In s (statementsOf txt) <->
  exists piece, In piece (JS.split 59%N txt) /\ s = JS.trim piece /\ s <> [].
Proof.
  unfold statementsOf. rewrite filter_In, in_map_iff. split.
  - intros [(piece & <- & Hp) L]. exists piece. repeat split; [exact Hp|].
    intros E. rewrite E in L. discriminate.
  - intros (piece & Hp & -> & N). split; [exists piece; auto|].
    destruct (JS.trim piece); [congruence | reflexivity].
Qed.

(** The test inside the loop never skips a statement. *)
Lemma statement_truthy (txt s : jsstring) :
  In s (statementsOf txt) -> JS.truthy (JS.trim s) = true.
Proof.
  intros H. apply statementsOf_In in H. destruct H as (piece & _ & -> & N).
  rewrite JSFacts.trim_idempotent.
  destruct (JS.trim piece); [congruence | reflexivity].
Qed.

Lemma repeat_true_snoc (n : nat) :
  repeat true n ++ [true] = repeat true (S n).
Proof. rewrite <- repeat_cons. reflexivity. Qed.

Section Statements.

Variable dispatch : nat -> conn.
Variable fails : nat -> jsstring -> bool.

(** The loop sends the statements in order, answered one after the other,
    and stops at the first that fails. *)
Lemma executeStatements_sent (stmts : list jsstring) (db db' : DB)
      (r : Result unit) :
  (forall s, In s stmts -> JS.truthy (JS.trim s) = true) ->
  executeStatements dispatch fails stmts db = (r, db') ->
  match r with
  | Ok _ =>
      sent db' = sent db ++ List.map (fun s => (s, [])) stmts /\
      answers db' = answers db ++ repeat true (length stmts)
  | Err _ =>
      exists k, k < length stmts /\
      sent db' = sent db ++ List.map (fun s => (s, [])) (firstn (S k) stmts) /\
      answers db' = answers db ++ repeat true k ++ [false]
  end.
Proof.
  unfold executeStatements.
  revert db. induction stmts as [|s stmts IH]; intros db G E.
  - cbn in E. inversion E; subst. cbn. rewrite !app_nil_r. auto.
  - cbn [forEach] in E. rewrite (G s (or_introl eq_refl)) in E.
    unfold bind at 1 in E. unfold bind at 1 in E.
    destruct (query dispatch fails s [] db) as [[rs|e] db1] eqn:Q.
    + unfold ret at 1 in E.
      pose proof (query_sent _ _ _ _ _ _ _ Q) as Qs.
      pose proof (query_answers _ _ _ _ _ _ _ Q) as Qa. cbn in Qa.
      specialize (IH db1 (fun x Hx => G x (or_intror Hx)) E).
      destruct r as [u|e].
      * destruct IH as [IH1 IH2]. split.
        -- rewrite IH1, Qs, <- app_assoc. reflexivity.
        -- rewrite IH2, Qa, <- app_assoc. reflexivity.
      * destruct IH as (k & Hk & IH1 & IH2). exists (S k).
        split; [cbn; lia|]. split.
        -- rewrite IH1, Qs, <- app_assoc. reflexivity.
        -- rewrite IH2, Qa, <- app_assoc. reflexivity.
    + inversion E; subst.
      pose proof (query_sent _ _ _ _ _ _ _ Q) as Qs.
      pose proof (query_answers _ _ _ _ _ _ _ Q) as Qa. cbn in Qa.
      exists 0. split; [cbn; lia|]. split; [rewrite Qs | rewrite Qa];
        reflexivity.
Qed.

End Statements.

(** On one client: what every statement keeps while it succeeds, the loop
    keeps while it returns. *)
Lemma executeStatements_keeps (c : conn) (fails : nat -> jsstring -> bool)
      (srv : Server) (P J : Store -> Session -> Prop)
      (stmts : list jsstring) :
  (forall d0 t0, P d0 t0 -> J d0 None) ->
  (forall s d0 t0 x d1 t1,
      In s stmts ->
      P d0 t0 -> step (classify srv s []) d0 t0 = (Ok x, (d1, t1)) ->
      P d1 t1) ->
  keeps (served srv c P) (served srv c J)
        (executeStatements (pinned c) fails stmts).
Proof.
  intros HJ H. unfold executeStatements. apply keeps_forEach.
  intros s Hs. destruct (JS.truthy (JS.trim s)).
  - apply keeps_bind.
    + apply query_keeps; [exact HJ|]. intros d0 t0 x d1 t1. apply H, Hs.
    + intros _. apply keeps_ret.
  - apply keeps_ret.
Qed.

Lemma executeStatements_rowsAre (c : conn) (fails : nat -> jsstring -> bool)
      (srv : Server) (R : list jsstring) (stmts : list jsstring) :
  preserves (served srv c (rowsAre R))
            (executeStatements (pinned c) fails stmts).
Proof.
  apply keeps_preserves, executeStatements_keeps.
  - apply rowsAre_closed.
  - intros s d0 t0 x d1 t1 _. apply step_rowsAre.
    intros f. apply (classify_nil srv s f).
Qed.

Lemma inTransaction_closed (D d : Store) (t : Session) :
  inTransaction D d t -> undone D d None.
Proof. intros [H _]. split; [exact H | reflexivity]. Qed.

(** Statements that do not end the transaction leave the session inside
    it, with nothing committed, as long as they succeed; when one fails,
    the client is closed and still nothing was committed. *)
Lemma executeStatements_inTransaction (c : conn)
      (fails : nat -> jsstring -> bool) (srv : Server) (D : Store)
      (stmts : list jsstring) :
  forallb (fun s => negb (endsTransaction srv s)) stmts = true ->
  keeps (served srv c (inTransaction D)) (served srv c (undone D))
        (executeStatements (pinned c) fails stmts).
Proof.
  intros K. apply executeStatements_keeps.
  - apply inTransaction_closed.
  - intros s d0 t0 x d1 t1 Hs.
    rewrite forallb_forall in K. specialize (K s Hs).
    apply negb_true_iff in K. destruct (classify_keeps srv s K) as [N1 N2].
    apply step_inTransaction; assumption.
Qed.

(* ===================================================================== *)
(** ** What one unit of work sends to the server *)
(* ===================================================================== *)

Lemma unitOfWork_length (f txt : jsstring) :
  length (unitOfWork f txt) = S (length (statementsOf txt) + 2).
Proof.
  unfold unitOfWork. cbn [length]. rewrite length_app, length_map.
  reflexivity.
Qed.

Section Sent.

Variable fsys : FS.
Variable dispatch : nat -> conn.
Variable fails : nat -> jsstring -> bool.

Lemma applyScript_sent (f txt : jsstring) (db db' : DB) (r : Result unit) :
  applyScript dispatch fails f txt db = (r, db') ->
  match r with
  | Ok _ =>
      sent db' =
      sent db ++ List.map (fun s => (s, [])) (statementsOf txt)
              ++ [(sql_insert, [f]); (sql_commit, [])] /\
      answers db' = answers db ++ repeat true (length (statementsOf txt) + 2)
  | Err _ =>
      exists k tail,
        k <= length (statementsOf txt) /\
        (tail = [] \/
         (k = length (statementsOf txt) /\
          (tail = [(sql_insert, [f])] \/
           tail = [(sql_insert, [f]); (sql_commit, [])]))) /\
        0 < k + length tail /\
        sent db' =
        sent db ++ List.map (fun s => (s, [])) (firstn k (statementsOf txt))
                ++ tail /\
        answers db' =
        answers db ++ repeat true (pred (k + length tail)) ++ [false]
  end.
Proof.
  intros E. apply applyScript_cases in E.
  destruct E as [(e & Es & ->) | (db1 & Es & E)].
  - apply executeStatements_sent in Es; [|apply statement_truthy].
    destruct Es as (k & Hk & Es & Ea). exists (S k), []. split; [lia|].
    split; [left; reflexivity|]. split; [lia|].
    rewrite app_nil_r. split; [exact Es|].
    cbn [length]. rewrite Nat.add_0_r. exact Ea.
  - apply executeStatements_sent in Es; [|apply statement_truthy].
    destruct Es as [Es Ea].
    destruct E as [(e & Ei & ->) | (ri & db2 & Ei & E)];
      pose proof (query_sent _ _ _ _ _ _ _ Ei) as Si;
      pose proof (query_answers _ _ _ _ _ _ _ Ei) as Ai; cbn in Ai.
    + exists (length (statementsOf txt)), [(sql_insert, [f])].
      split; [lia|]. split; [right; auto|]. split; [cbn; lia|].
      rewrite firstn_all. split.
      * rewrite Si, Es, <- app_assoc. reflexivity.
      * cbn [length]. rewrite Nat.add_1_r. cbn [pred].
        rewrite Ai, Ea, <- app_assoc. reflexivity.
    + destruct E as [(e & Ec & ->) | (rc & Ec & ->)];
        pose proof (query_sent _ _ _ _ _ _ _ Ec) as Sc;
        pose proof (query_answers _ _ _ _ _ _ _ Ec) as Ac; cbn in Ac.
      * exists (length (statementsOf txt)),
          [(sql_insert, [f]); (sql_commit, [])].
        split; [lia|]. split; [right; auto|]. split; [cbn; lia|].
        rewrite firstn_all. split.
        -- rewrite Sc, Si, Es, <- !app_assoc. reflexivity.
        -- cbn [length].
           replace (pred (length (statementsOf txt) + 2))
             with (S (length (statementsOf txt))) by lia.
           rewrite Ac, Ai, Ea, <- repeat_true_snoc, <- !app_assoc.
           reflexivity.
      * split.
        -- rewrite Sc, Si, Es, <- !app_assoc. reflexivity.
        -- rewrite Ac, Ai, Ea, repeat_app, <- !app_assoc. reflexivity.
Qed.

(** A unit of work that goes through sent [BEGIN], every statement of the
    script in order, the ledger insert and [COMMIT], and every one of
    these queries succeeded. *)
Lemma runMigration_sent_ok (f : jsstring) (db db' : DB) (u : unit) :
  runMigration fsys dispatch fails f db = (Ok u, db') ->
  exists txt,
    readFile fsys f = Some txt /\ sent db' = sent db ++ unitOfWork f txt /\
    answers db' = answers db ++ repeat true (length (unitOfWork f txt)).
Proof.
  intros E. apply runMigration_cases in E.
  destruct E as [(_ & E & _) | (txt & Hr & E)]; [discriminate|].
  exists txt. split; [exact Hr|].
  destruct E as [(e & _ & E) | (rb & db1 & Eb & E)]; [discriminate|].
  destruct E as [(Ea & _) | (e & db2 & _ & [(rr & _ & E) | (e' & _ & E)])];
    try discriminate.
  pose proof (query_sent _ _ _ _ _ _ _ Eb) as Sb.
  pose proof (query_answers _ _ _ _ _ _ _ Eb) as Ab. cbn in Ab.
  apply applyScript_sent in Ea. destruct Ea as [Sa Aa]. split.
  - rewrite Sa, Sb, <- app_assoc. reflexivity.
  - rewrite unitOfWork_length, Aa, Ab, <- app_assoc. reflexivity.
Qed.

(** A unit of work that throws sent nothing, or [BEGIN] alone, which
    failed, or it was cut short: every query succeeded up to one that
    failed, and [ROLLBACK] was sent next and last. *)
Lemma runMigration_sent_err (f : jsstring) (db db' : DB) (e : Error) :
  runMigration fsys dispatch fails f db = (Err e, db') ->
  (readFile fsys f = None /\ db' = db)
  \/
  exists txt,
    readFile fsys f = Some txt /\
    ((sent db' = sent db ++ [(sql_begin, [])] /\
      answers db' = answers db ++ [false])
     \/
     exists k tail b,
       k <= length (statementsOf txt) /\
       (tail = [] \/
        (k = length (statementsOf txt) /\
         (tail = [(sql_insert, [f])] \/
          tail = [(sql_insert, [f]); (sql_commit, [])]))) /\
       sent db' = sent db ++ interrupted txt k tail /\
       answers db' =
       answers db ++ repeat true (k + length tail) ++ [false; b]).
Proof.
  intros E. apply runMigration_cases in E.
  destruct E as [(Hr & _ & ->) | (txt & Hr & E)]; [left; auto|].
  right. exists txt. split; [exact Hr|].
  destruct E as [(e0 & Eb & _) | (rb & db1 & Eb & E)];
    pose proof (query_sent _ _ _ _ _ _ _ Eb) as Sb;
    pose proof (query_answers _ _ _ _ _ _ _ Eb) as Ab; cbn in Ab;
    [left; auto|].
  right.
  destruct E as [(_ & E) | (e0 & db2 & Ea & E)]; [discriminate|].
  apply applyScript_sent in Ea.
  destruct Ea as (k & tail & Hk & Ht & Pos & Sa & Aa).
  assert (exists rr, query dispatch fails sql_rollback [] db2 = (rr, db'))
    as (rr & Er)
      by (destruct E as [(rr & Er & _) | (e' & Er & _)]; eauto).
  pose proof (query_sent _ _ _ _ _ _ _ Er) as Sr.
  pose proof (query_answers _ _ _ _ _ _ _ Er) as Ar.
  exists k, tail, (succeeded rr). split; [exact Hk|]. split; [exact Ht|].
  split.
  - unfold interrupted. rewrite Sr, Sa, Sb, <- !app_assoc. reflexivity.
  - rewrite Ar, Aa, Ab, <- !app_assoc. f_equal.
    destruct (k + length tail) as [|m]; [lia|]. reflexivity.
Qed.

End Sent.

(* ===================================================================== *)
(** ** One unit of work on one client *)
(* ===================================================================== *)

Section OneSession.

Variable fsys : FS.
Variable c : conn.
Variable fails : nat -> jsstring -> bool.

Lemma idle_rowsAre (db : DB) :
  open db c = None ->
  served (server db) c (rowsAre (rows (durable db))) db.
Proof.
  intros H. unfold served, rowsAre. rewrite H. repeat split.
Qed.

Lemma begin_rowsAre (srv : Server) (R : list jsstring) :
  preserves (served srv c (rowsAre R))
            (query (pinned c) fails sql_begin []).
Proof.
  apply query_preserves; [apply rowsAre_closed|].
  intros d0 t0 x d1 t1. rewrite classify_begin.
  apply step_rowsAre. discriminate.
Qed.

(** [ROLLBACK] commits nothing and leaves the client outside any
    transaction, whether it succeeds or not. *)
Lemma rollback_idle (db db' : DB) (r : Result (list jsstring)) :
  query (pinned c) fails sql_rollback [] db = (r, db') ->
  durable db' = durable db /\ open db' c = None /\ server db' = server db.
Proof.
  intros E. pose proof (query_server _ _ _ _ _ _ _ E) as Hs.
  destruct r as [x|e].
  - apply query_succeeded in E. destruct E as [_ E].
    rewrite classify_rollback in E. cbn [step] in E. unfold pinned in E.
    injection E as _ Hd Ho. auto.
  - apply query_failed in E. destruct E as [Hd Ho]. auto.
Qed.

(** The ledger insert, from a state where the rows are [R]. *)
Lemma insert_rowsAre (srv : Server) (R : list jsstring) (f : jsstring)
      (db db' : DB) (r : Result (list jsstring)) :
  served srv c (rowsAre R) db ->
  query (pinned c) fails sql_insert [f] db = (r, db') ->
  match r with
  | Ok _ => served srv c (recorded R f) db'
  | Err _ => served srv c (rowsAre R) db'
  end.
Proof.
  unfold served. intros [Hs I] E.
  rewrite (query_server _ _ _ _ _ _ _ E). destruct r as [x|e].
  - apply query_succeeded in E. destruct E as [_ E]. unfold pinned in E.
    rewrite classify_insert in E.
    pose proof (step_record R f _ _ _ _ _ I E) as S. cbn in S.
    split; [exact Hs|].
    destruct S as (N & V & [[_ D] | [_ D]]); unfold recorded; auto.
  - apply query_failed in E. destruct E as [Hd Ho]. unfold pinned in Ho.
    rewrite Hd, Ho. split; [exact Hs|]. eapply rowsAre_closed, I.
Qed.

Lemma commit_recorded (srv : Server) (R : list jsstring) (f : jsstring)
      (db db' : DB) (r : Result (list jsstring)) :
  served srv c (recorded R f) db ->
  query (pinned c) fails sql_commit [] db = (r, db') ->
  open db' c = None /\
  match r with
  | Ok _ => rows (durable db') = R ++ [f]
  | Err _ => settled R f (durable db') None
  end.
Proof.
  unfold served. intros [Hs I] E. destruct r as [x|e].
  - apply query_succeeded in E. destruct E as [_ E]. unfold pinned in E.
    rewrite classify_commit in E. cbn [step] in E.
    injection E as _ Hd Ho. destruct I as (_ & V & _).
    split; [auto|]. rewrite <- Hd. exact V.
  - apply query_failed in E. destruct E as [Hd Ho]. unfold pinned in Ho.
    split; [exact Ho|]. rewrite Hd. destruct I as (N & _ & D).
    split; assumption.
Qed.

(** What one unit of work does to the ledger. *)
Lemma runMigration_rows (f : jsstring) (db db' : DB) (r : Result unit) :
  open db c = None ->
  runMigration fsys (pinned c) fails f db = (r, db') ->
  open db' c = None /\
  match r with
  | Ok _ =>
      ~ In f (rows (durable db)) /\
      rows (durable db') = rows (durable db) ++ [f]
  | Err _ =>
      rows (durable db') = rows (durable db) \/
      (~ In f (rows (durable db)) /\
       rows (durable db') = rows (durable db) ++ [f])
  end.
Proof.
  intros Idle E. pose proof (idle_rowsAre db Idle) as I0.
  set (R := rows (durable db)) in *. set (srv := server db) in *.
  assert (forall x, served srv c (rowsAre R) x -> rows (durable x) = R)
    as Out by (intros x [_ [H _]]; exact H).
  apply runMigration_cases in E.
  destruct E as [(_ & -> & ->) | (txt & _ & E)]; [auto|].
  destruct E as [(e & Eb & ->) | (rb & db1 & Eb & E)].
  { pose proof (begin_rowsAre srv R _ _ _ I0 Eb) as I1.
    apply query_failed in Eb. destruct Eb as [_ Ho]. auto. }
  pose proof (begin_rowsAre srv R _ _ _ I0 Eb) as I1.
  assert (forall e db2,
             applyScript (pinned c) fails f txt db1 = (Err e, db2) ->
             rows (durable db2) = R \/
             (~ In f R /\ rows (durable db2) = R ++ [f])) as Failed.
  { intros e db2 Ea. apply applyScript_cases in Ea.
    destruct Ea as [(e0 & Es & _) | (db1' & Es & Ea)].
    - left. apply Out. eapply executeStatements_rowsAre; eassumption.
    - pose proof (executeStatements_rowsAre c fails srv R _ _ _ _ I1 Es)
        as I2.
      destruct Ea as [(e0 & Ei & _) | (ri & db3 & Ei & Ea)].
      + left. apply Out. apply (insert_rowsAre srv R f _ _ _ I2 Ei).
      + pose proof (insert_rowsAre srv R f _ _ _ I2 Ei) as I3. cbn in I3.
        destruct Ea as [(e0 & Ec & _) | (rc & _ & Ea)]; [|discriminate].
        destruct (commit_recorded srv R f _ _ _ I3 Ec) as [_ [N D]].
        destruct D as [D | D]; auto. }
  destruct E as [(Ea & ->) | (e & db2 & Ea & E)].
  - apply applyScript_cases in Ea.
    destruct Ea as [(e0 & _ & Ea) | (db1' & Es & Ea)]; [discriminate|].
    pose proof (executeStatements_rowsAre c fails srv R _ _ _ _ I1 Es) as I2.
    destruct Ea as [(e0 & _ & Ea) | (ri & db3 & Ei & Ea)]; [discriminate|].
    pose proof (insert_rowsAre srv R f _ _ _ I2 Ei) as I3. cbn in I3.
    destruct Ea as [(e0 & _ & Ea) | (rc & Ec & _)]; [discriminate|].
    destruct (commit_recorded srv R f _ _ _ I3 Ec) as [C1 C2]. cbn in C2.
    destruct I3 as (_ & N & _). auto.
  - assert (exists rr, query (pinned c) fails sql_rollback [] db2 = (rr, db'))
      as (rr & Er)
        by (destruct E as [(rr & Er & _) | (e' & Er & _)]; eauto).
    destruct (rollback_idle _ _ _ Er) as (Hd & Ho & _).
    assert (match r with Ok _ => False | Err _ => True end) as Thrown
        by (destruct E as [(rr0 & _ & ->) | (e' & _ & ->)]; exact I).
    destruct r as [u|e1]; [contradiction|].
    split; [exact Ho|]. rewrite Hd. exact (Failed e db2 Ea).
Qed.

End OneSession.

Section Atomic.

Variable fsys : FS.
Variable c : conn.
Variable fails : nat -> jsstring -> bool.

Lemma begin_opens (db db' : DB) (rb : list jsstring) :
  open db c = None ->
  query (pinned c) fails sql_begin [] db = (Ok rb, db') ->
  served (server db) c (inTransaction (durable db)) db'.
Proof.
  intros Idle E. pose proof (query_server _ _ _ _ _ _ _ E) as Hs.
  apply query_succeeded in E. destruct E as [_ E]. unfold pinned in E.
  rewrite classify_begin, Idle in E. cbn [step] in E.
  injection E as _ Hd Ho.
  unfold served, inTransaction. rewrite <- Hd, <- Ho.
  split; [exact Hs|]. split; [reflexivity | discriminate].
Qed.

(** A script that leaves the transaction alone and fails has committed
    nothing, and its client is closed. *)
Lemma applyScript_undone (srv : Server) (f txt : jsstring) (D : Store)
      (db db' : DB) (e : Error) :
  keepsTransaction srv txt = true ->
  served srv c (inTransaction D) db ->
  applyScript (pinned c) fails f txt db = (Err e, db') ->
  served srv c (undone D) db'.
Proof.
  intros K I E. apply applyScript_cases in E.
  destruct E as [(e0 & Es & _) | (db1 & Es & E)].
  { exact (executeStatements_inTransaction c fails srv D _ K _ _ _ I Es). }
  pose proof (executeStatements_inTransaction c fails srv D _ K _ _ _ I Es)
    as I1. cbn in I1.
  assert (keeps (served srv c (inTransaction D)) (served srv c (undone D))
                (query (pinned c) fails sql_insert [f])) as Pi.
  { apply query_keeps; [apply inTransaction_closed|].
    intros d0 t0 x d1 t1. rewrite classify_insert.
    apply step_inTransaction; discriminate. }
  destruct E as [(e0 & Ei & _) | (ri & db2 & Ei & E)].
  { exact (Pi _ _ _ I1 Ei). }
  pose proof (Pi _ _ _ I1 Ei) as I2. cbn in I2.
  destruct E as [(e0 & Ec & _) | (rc & _ & E)]; [|discriminate].
  pose proof (query_server _ _ _ _ _ _ _ Ec) as Hs.
  apply query_failed in Ec. destruct Ec as [Hd Ho]. unfold pinned in Ho.
  destruct I2 as [Hs2 [HD _]]. unfold served, undone.
  rewrite Hs, Hd, Ho. auto.
Qed.

(** Atomicity of one unit of work: when no statement of the script ends
    the transaction, a failure leaves the committed store as it was. *)
Lemma runMigration_atomic (f txt : jsstring) (db db' : DB) (e : Error) :
  open db c = None ->
  readFile fsys f = Some txt ->
  keepsTransaction (server db) txt = true ->
  runMigration fsys (pinned c) fails f db = (Err e, db') ->
  durable db' = durable db.
Proof.
  intros Idle Hr K E. apply runMigration_cases in E.
  destruct E as [(Hn & _) | (txt' & Hr' & E)]; [congruence|].
  assert (txt' = txt) as -> by congruence.
  destruct E as [(e0 & Eb & _) | (rb & db1 & Eb & E)].
  { apply query_failed in Eb. apply Eb. }
  pose proof (begin_opens _ _ _ Idle Eb) as I1.
  destruct E as [(_ & E) | (e0 & db2 & Ea & E)]; [discriminate|].
  pose proof (applyScript_undone _ f txt _ _ _ _ K I1 Ea) as [_ [Hd2 _]].
  assert (exists rr, query (pinned c) fails sql_rollback [] db2 = (rr, db'))
    as (rr & Er)
      by (destruct E as [(rr & Er & _) | (e' & Er & _)]; eauto).
  destruct (rollback_idle c fails _ _ _ Er) as (Hd & _). congruence.
Qed.

Lemma runMigration_leaves (f : jsstring) (db db' : DB) (e : Error) :
  open db c = None ->
  leavesTransaction (server db) fsys f = true ->
  runMigration fsys (pinned c) fails f db = (Err e, db') ->
  durable db' = durable db.
Proof.
  intros Idle K E. unfold leavesTransaction in K.
  destruct (readFile fsys f) as [txt|] eqn:Hr.
  - eapply runMigration_atomic; eassumption.
  - apply runMigration_cases in E.
    destruct E as [(_ & _ & ->) | (txt & Hr' & _)]; [|congruence].
    reflexivity.
Qed.

End Atomic.

(* ===================================================================== *)
(** ** What every query keeps, the engine keeps *)
(* ===================================================================== *)

Section Generic.

Variable fsys : FS.
Variable dispatch : nat -> conn.
Variable fails : nat -> jsstring -> bool.

Lemma runMigration_preserves (I : DB -> Prop) (f : jsstring) :
  (forall t ps, preserves I (query dispatch fails t ps)) ->
  preserves I (runMigration fsys dispatch fails f).
Proof.
  intros Q. unfold runMigration.
  apply preserves_try_catch; [|intros e; apply preserves_throw].
  apply preserves_bind.
  { unfold fs_readFile. destruct (readFile fsys f);
      [apply preserves_ret | apply preserves_throw]. }
  intros txt. apply preserves_bind; [apply Q|]. intros _.
  apply preserves_try_catch.
  - unfold applyScript, executeStatements.
    apply preserves_bind.
    + apply preserves_forEach. intros s _.
      destruct (JS.truthy (JS.trim s)); [|apply preserves_ret].
      apply preserves_bind; [apply Q | intros _; apply preserves_ret].
    + intros _. apply preserves_bind; [apply Q|]. intros _.
      apply preserves_bind; [apply Q | intros _; apply preserves_ret].
  - intros e. apply preserves_bind; [apply Q | intros _; apply preserves_throw].
Qed.

Lemma runAll_preserves (I : DB -> Prop) (l : list jsstring) :
  (forall t ps, preserves I (query dispatch fails t ps)) ->
  preserves I (forEach (runMigration fsys dispatch fails) l).
Proof.
  intros Q. apply preserves_forEach. intros f _.
  apply runMigration_preserves, Q.
Qed.

Lemma runPendingMigrations_preserves (I : DB -> Prop) :
  (forall t ps, preserves I (query dispatch fails t ps)) ->
  preserves I (runPendingMigrations fsys dispatch fails).
Proof.
  intros Q db r db' H E. apply runPendingMigrations_cases in E.
  destruct E as [(e & Ec & _) | (rc & db1 & a & db2 & Ec & Ea & E)].
  - eapply Q; eassumption.
  - pose proof (Q _ _ _ _ _ H Ec) as H1.
    assert (I db2) as H2.
    { destruct (getAppliedMigrations_cases dispatch fails db1)
        as [(l & dbx & Ql & Ea') | (e & dbx & Ql & Ea')];
        rewrite Ea in Ea'; injection Ea' as _ <-; eapply Q; eassumption. }
    revert H2 E. apply runAll_preserves, Q.
Qed.

(** The server stays the same. *)
Lemma query_keeps_server (srv : Server) (t : jsstring) (ps : list jsstring) :
  preserves (fun db => server db = srv) (query dispatch fails t ps).
Proof.
  intros db r db' H E. rewrite (query_server _ _ _ _ _ _ _ E). exact H.
Qed.

Lemma runMigration_server (f : jsstring) (db db' : DB) (r : Result unit) :
  runMigration fsys dispatch fails f db = (r, db') -> server db' = server db.
Proof.
  intros E.
  exact (runMigration_preserves (fun x => server x = server db) f
           (query_keeps_server (server db)) db r db' eq_refl E).
Qed.

Lemma runAll_server (l : list jsstring) (db db' : DB) (r : Result unit) :
  forEach (runMigration fsys dispatch fails) l db = (r, db') ->
  server db' = server db.
Proof.
  intros E.
  exact (runAll_preserves (fun x => server x = server db) l
           (query_keeps_server (server db)) db r db' eq_refl E).
Qed.

Lemma runPendingMigrations_server (db db' : DB) (r : Result unit) :
  runPendingMigrations fsys dispatch fails db = (r, db') ->
  server db' = server db.
Proof.
  intros E.
  exact (runPendingMigrations_preserves (fun x => server x = server db)
           (query_keeps_server (server db)) db r db' eq_refl E).
Qed.

(** Once the ledger table exists, it exists. *)
Lemma query_keeps_table (t : jsstring) (ps : list jsstring) :
  preserves (fun db => ledger (durable db) <> None)
            (query dispatch fails t ps).
Proof.
  intros db r db' H E. apply query_inv in E.
  destruct E as (_ & _ & _ & [(_ & _ & Hd & _) | (_ & s & S & _)]).
  - rewrite Hd. exact H.
  - eapply step_keeps_table; eassumption.
Qed.

Lemma runAll_keeps_table (l : list jsstring) :
  preserves (fun db => ledger (durable db) <> None)
            (forEach (runMigration fsys dispatch fails) l).
Proof. apply runAll_preserves, query_keeps_table. Qed.

End Generic.

(* ===================================================================== *)
(** ** Several units of work in a row *)
(* ===================================================================== *)

Section Sequences.

Variable fsys : FS.

Lemma unitsOfWork_cons (f : jsstring) (l : list jsstring) (txt : jsstring) :
  readFile fsys f = Some txt ->
  unitsOfWork fsys (f :: l) = unitOfWork f txt ++ unitsOfWork fsys l.
Proof. intros H. unfold unitsOfWork. cbn [flat_map]. rewrite H. reflexivity. Qed.

Lemma runAll_sent_ok (dispatch : nat -> conn)
      (fails : nat -> jsstring -> bool)
      (l : list jsstring) (db db' : DB) (u : unit) :
  forEach (runMigration fsys dispatch fails) l db = (Ok u, db') ->
  sent db' = sent db ++ unitsOfWork fsys l /\
  answers db' = answers db ++ repeat true (length (unitsOfWork fsys l)).
Proof.
  revert db. induction l as [|f l IH]; intros db E; cbn [forEach] in E.
  - inversion E; subst. cbn. rewrite !app_nil_r. auto.
  - unfold bind in E.
    destruct (runMigration fsys dispatch fails f db) as [[u0|e] db1] eqn:Ef;
      [|discriminate].
    apply runMigration_sent_ok in Ef. destruct Ef as (txt & Hr & Sf & Af).
    destruct (IH _ E) as [S A].
    rewrite (unitsOfWork_cons f l txt Hr). split.
    + rewrite S, Sf, <- app_assoc. reflexivity.
    + rewrite A, Af, length_app, repeat_app, <- app_assoc. reflexivity.
Qed.

Variable c : conn.
Variable fails : nat -> jsstring -> bool.

(** Every script of a sequence that goes through was new to the ledger and
    is recorded, in order, and the client is left idle. *)
Lemma runAll_ok (l : list jsstring) (db db' : DB) (u : unit) :
  open db c = None ->
  forEach (runMigration fsys (pinned c) fails) l db = (Ok u, db') ->
  open db' c = None /\
  rows (durable db') = rows (durable db) ++ l /\
  (forall f, In f l -> ~ In f (rows (durable db))) /\
  NoDup l.
Proof.
  revert db. induction l as [|f l IH]; intros db Idle E; cbn [forEach] in E.
  - inversion E; subst. rewrite app_nil_r.
    repeat split; [exact Idle | intros f [] | constructor].
  - unfold bind in E.
    destruct (runMigration fsys (pinned c) fails f db) as [[u0|e] db1] eqn:Ef;
      [|discriminate].
    apply runMigration_rows in Ef; [|exact Idle].
    destruct Ef as (Idle1 & New & R1).
    destruct (IH _ Idle1 E) as (Idle' & R' & New' & ND).
    split; [exact Idle'|]. split; [rewrite R', R1, <- app_assoc; reflexivity|].
    split.
    + intros g [<-|Hg]; [exact New|]. intros Hin. apply (New' g Hg).
      rewrite R1. apply in_or_app. left. exact Hin.
    + constructor; [|exact ND]. intros Hin. apply (New' f Hin).
      rewrite R1. apply in_or_app. right. left. reflexivity.
Qed.

(** A sequence that throws stopped at the script that threw: the scripts
    before it are recorded, and the one that threw is recorded only if its
    insert was committed before the failure. *)
Lemma runAll_err (l : list jsstring) (db db' : DB) (e : Error) :
  open db c = None ->
  forEach (runMigration fsys (pinned c) fails) l db = (Err e, db') ->
  exists l1 x l2 dbk,
    l = l1 ++ x :: l2 /\
    forEach (runMigration fsys (pinned c) fails) l1 db = (Ok tt, dbk) /\
    runMigration fsys (pinned c) fails x dbk = (Err e, db') /\
    open dbk c = None /\
    server dbk = server db /\
    rows (durable dbk) = rows (durable db) ++ l1 /\
    open db' c = None /\
    (rows (durable db') = rows (durable db) ++ l1 \/
     rows (durable db') = rows (durable db) ++ l1 ++ [x]).
Proof.
  intros Idle E. apply forEach_stops in E.
  destruct E as (l1 & x & l2 & dbk & -> & E1 & E2).
  destruct (runAll_ok _ _ _ _ Idle E1) as (Idlek & Rk & _ & _).
  exists l1, x, l2, dbk. repeat split; try assumption.
  - eapply runAll_server; exact E1.
  - apply (runMigration_rows fsys c fails x dbk db' _ Idlek E2).
  - destruct (runMigration_rows fsys c fails x dbk db' _ Idlek E2) as [_ R].
    cbn in R. rewrite Rk in R.
    destruct R as [R | [_ R]]; [left; exact R | right].
    rewrite R, <- app_assoc. reflexivity.
Qed.

(** Scripts that are recorded already cannot be recorded again: the first
    one throws, and the ledger keeps its rows. *)
Lemma runAll_stale (l : list jsstring) (db db' : DB) (r : Result unit) :
  open db c = None ->
  (forall f, In f l -> In f (rows (durable db))) ->
  forEach (runMigration fsys (pinned c) fails) l db = (r, db') ->
  rows (durable db') = rows (durable db) /\
  (l <> [] -> exists e, r = Err e).
Proof.
  intros Idle Stale E. destruct l as [|f l]; cbn [forEach] in E.
  - inversion E; subst. split; [reflexivity | congruence].
  - unfold bind in E.
    destruct (runMigration fsys (pinned c) fails f db) as [[u0|e] db1] eqn:Ef;
      apply runMigration_rows in Ef; try exact Idle.
    + destruct Ef as (_ & New & _). exfalso. apply New, Stale. left.
      reflexivity.
    + inversion E; subst. split; [|intros _; exists e; reflexivity].
      destruct Ef as [_ [R | [New _]]]; [exact R|].
      exfalso. apply New, Stale. left. reflexivity.
Qed.

(** Every exit of a sequence leaves the client outside any transaction. *)
Lemma runAll_idle (l : list jsstring) (db db' : DB) (r : Result unit) :
  open db c = None ->
  forEach (runMigration fsys (pinned c) fails) l db = (r, db') ->
  open db' c = None.
Proof.
  intros Idle E. revert Idle E.
  apply (preserves_forEach (fun x => open x c = None)).
  intros f _ x rx x' Ix Ex.
  apply (runMigration_rows fsys c fails f x x' rx Ix Ex).
Qed.

End Sequences.

(* ===================================================================== *)
(** ** The pending array *)
(* ===================================================================== *)

Lemma includes_perm (l l' : list jsstring) (x : jsstring) :
  Permutation l l' -> JS.includes l x = JS.includes l' x.
Proof.
  intros P. destruct (JS.includes l' x) eqn:E.
  - apply JSFacts.includes_In. apply JSFacts.includes_In in E.
    eapply Permutation_in; [symmetry; exact P | exact E].
  - apply JSFacts.includes_not_In. apply JSFacts.includes_not_In in E.
    intros H. apply E. eapply Permutation_in; [exact P | exact H].
Qed.

(** The pending array does not depend on how the applied array is
    ordered. *)
Lemma pendingOf_perm (M M' N : list jsstring) :
  Permutation M M' -> pendingOf M N = pendingOf M' N.
Proof.
  intros P. unfold pendingOf. apply filter_ext. intros x.
  rewrite (includes_perm _ _ x P). reflexivity.
Qed.

Lemma pendingOf_disjoint (M N : list jsstring) :
  (forall f, In f N -> ~ In f M) -> pendingOf M N = N.
Proof.
  unfold pendingOf. induction N as [|x N IH]; intros H; cbn [filter].
  - reflexivity.
  - assert (JS.includes M x = false) as ->
        by (apply JSFacts.includes_not_In, H; left; reflexivity).
    cbn. rewrite IH; [reflexivity|]. intros f Hf. apply H. right. exact Hf.
Qed.

Lemma pendingOf_nil (N : list jsstring) : pendingOf [] N = N.
Proof. apply pendingOf_disjoint. intros f _ []. Qed.

Lemma pendingOf_In (M N : list jsstring) (f : jsstring) :
  In f (pendingOf M N) <-> In f N /\ ~ In f M.
Proof.
  unfold pendingOf. rewrite filter_In, negb_true_iff,
    JSFacts.includes_not_In. reflexivity.
Qed.

Lemma pendingOf_covered (M N : list jsstring) :
  incl N M -> pendingOf M N = [].
Proof.
  intros Sub. unfold pendingOf. induction N as [|x N IH]; [reflexivity|].
  cbn [filter].
  assert (JS.includes M x = true) as ->
      by (apply JSFacts.includes_In, Sub; left; reflexivity).
  cbn. apply IH. intros y Hy. apply Sub. right. exact Hy.
Qed.



Lemma discovered_ascending (fsys : FS) : JS.ascending (discovered fsys).
Proof.
  unfold discovered. destruct (readdir fsys).
  - apply JSFacts.sort_ascending.
  - constructor.
Qed.

(** The pending array is the ascending sort of the names that end in
    [.sql] and are not applied. *)
Lemma pendingOf_discovered (fsys : FS) (files M : list jsstring) :
  readdir fsys = Some files ->
  pendingOf M (discovered fsys) =
  JS.sort (filter (fun file => JS.endsWith file (JS.lit ".sql")
                               && negb (JS.includes M file)) files).
Proof.
  intros H. unfold pendingOf, discovered. rewrite H.
  rewrite JSFacts.filter_sort, JSFacts.filter_filter. reflexivity.
Qed.

Lemma pendingOf_ascending (fsys : FS) (M : list jsstring) :
  JS.ascending (pendingOf M (discovered fsys)).
Proof.
  apply JSFacts.filter_ascending, discovered_ascending.
Qed.

Lemma incl_includes (M N : list jsstring) :
  forallb (JS.includes N) M = true -> incl M N.
Proof.
  rewrite forallb_forall. intros H f Hf. apply JSFacts.includes_In, H, Hf.
Qed.

Lemma split_by_ledger (M N : list jsstring) :
  NoDup M -> NoDup N -> incl M N ->
  length (pendingOf M N) = length N - length M.
Proof.
  intros NM NN Sub.
  pose proof (filter_length (JS.includes M) N) as L.
  assert (length (filter (JS.includes M) N) = length M) as LM.
  { apply Permutation_length, NoDup_Permutation.
    - apply NoDup_filter, NN.
    - exact NM.
    - intros f. rewrite filter_In, JSFacts.includes_In. split.
      + intros [_ H]. exact H.
      + intros H. split; [apply Sub, H | exact H]. }
  unfold pendingOf. lia.
Qed.

(* ===================================================================== *)
(** ** The start of a run *)
(* ===================================================================== *)

Section Start.

Variable fsys : FS.

(** Whatever the pool does, a run sends the two opening queries and then
    works through the pending array. *)
Lemma runPendingMigrations_sent (dispatch : nat -> conn)
      (fails : nat -> jsstring -> bool) (db db' : DB) (r : Result unit) :
  runPendingMigrations fsys dispatch fails db = (r, db') ->
  (exists e,
      r = Err e /\ query dispatch fails sql_create [] db = (Err e, db') /\
      sent db' = sent db ++ [(sql_create, [])])
  \/
  exists rc db1 a db2,
    query dispatch fails sql_create [] db = (Ok rc, db1) /\
    getAppliedMigrations dispatch fails db1 = (Ok a, db2) /\
    sent db2 = sent db ++ preamble /\
    forEach (runMigration fsys dispatch fails)
            (pendingOf a (discovered fsys)) db2 = (r, db').
Proof.
  intros E. apply runPendingMigrations_cases in E.
  destruct E as [(e & Ec & ->) | (rc & db1 & a & db2 & Ec & Ea & E)].
  - left. exists e. repeat split; [exact Ec|].
    apply query_sent in Ec. exact Ec.
  - right. exists rc, db1, a, db2.
    split; [exact Ec|]. split; [exact Ea|]. split; [|exact E].
    apply query_sent in Ec.
    destruct (getAppliedMigrations_cases dispatch fails db1)
      as [(l & dbx & Q & Ea') | (e & dbx & Q & Ea')];
      rewrite Ea in Ea'; inversion Ea'; subst;
      apply query_sent in Q; rewrite Q, Ec, <- app_assoc; reflexivity.
Qed.

Variable c : conn.
Variable fails : nat -> jsstring -> bool.

Lemma create_idle (db db' : DB) (r : Result (list jsstring)) :
  open db c = None ->
  query (pinned c) fails sql_create [] db = (r, db') ->
  open db' c = None /\
  rows (durable db') = rows (durable db) /\
  effects (durable db') = effects (durable db) /\
  match r with
  | Ok _ => ledger (durable db') <> None
  | Err e =>
      e = StatementExecutionError /\ durable db' = durable db /\
      fails (length (log db)) sql_create = true
  end.
Proof.
  intros Idle E. destruct r as [x|e].
  - apply query_succeeded in E. destruct E as [_ E]. unfold pinned in E.
    rewrite classify_create, Idle in E. cbn [step push] in E.
    injection E as _ Hd Ho. rewrite <- Hd, <- Ho.
    split; [reflexivity|]. split; [apply rows_apply_MkTable|].
    split; [reflexivity|]. cbn. destruct (ledger (durable db)); discriminate.
  - pose proof (query_failed _ _ _ _ _ _ _ E) as [Hd Ho].
    unfold pinned in Ho. rewrite Hd.
    split; [exact Ho|]. split; [reflexivity|]. split; [reflexivity|].
    apply query_inv in E.
    destruct E as (_ & _ & _ & [(F & E & _) | (_ & s & S & _)]).
    + rewrite classify_create in E. injection E as ->. auto.
    + rewrite classify_create in S. cbn [step] in S. discriminate.
Qed.

Lemma list_idle (db db' : DB) (r : Result (list jsstring)) :
  open db c = None ->
  query (pinned c) fails sql_list [] db = (r, db') ->
  open db' c = None /\
  durable db' = durable db /\
  match r with
  | Ok l => l = orderBy (collation (server db)) (rows (durable db))
  | Err _ =>
      fails (length (log db)) sql_list = true \/ ledger (durable db) = None
  end.
Proof.
  intros Idle E. destruct r as [x|e].
  - apply query_succeeded in E. destruct E as [_ E]. unfold pinned in E.
    rewrite classify_list, Idle in E. cbn [step view] in E.
    unfold rows. destruct (ledger (durable db)) as [l|]; [|discriminate].
    injection E as <- Hd Ho. rewrite <- Hd, <- Ho. auto.
  - pose proof (query_failed _ _ _ _ _ _ _ E) as [Hd Ho].
    unfold pinned in Ho. split; [exact Ho|]. split; [exact Hd|].
    apply query_inv in E.
    destruct E as (_ & _ & _ & [(F & _) | (_ & s & S & _)]); [auto|].
    unfold pinned in S. rewrite classify_list, Idle in S.
    cbn [step view] in S. right.
    destruct (ledger (durable db)); [discriminate | reflexivity].
Qed.

Lemma getAppliedMigrations_idle (db db' : DB) (a : list jsstring) :
  open db c = None ->
  getAppliedMigrations (pinned c) fails db = (Ok a, db') ->
  open db' c = None /\
  durable db' = durable db /\
  server db' = server db /\
  (a = orderBy (collation (server db)) (rows (durable db)) \/
   (a = [] /\
    (fails (length (log db)) sql_list = true \/ ledger (durable db) = None))).
Proof.
  intros Idle E.
  destruct (getAppliedMigrations_cases (pinned c) fails db)
    as [(l & dbx & Q & Ea) | (e & dbx & Q & Ea)];
    rewrite E in Ea; inversion Ea; subst;
    pose proof (query_server _ _ _ _ _ _ _ Q) as Hs;
    destruct (list_idle _ _ _ Idle Q) as (Ho & Hd & Hl);
    (split; [exact Ho|]); (split; [exact Hd|]); (split; [exact Hs|]); auto.
Qed.

(** A run on one idle client: the table is ensured, the applied array is
    the ledger in the order of the server, or empty when the list query
    was rejected, and the rest is the loop. *)
Lemma runPendingMigrations_idle (db db' : DB) (r : Result unit) :
  open db c = None ->
  runPendingMigrations fsys (pinned c) fails db = (r, db') ->
  (exists e,
      r = Err e /\ durable db' = durable db /\ open db' c = None /\
      sent db' = sent db ++ [(sql_create, [])] /\
      answers db' = answers db ++ [false] /\
      fails (length (log db)) sql_create = true)
  \/
  exists a db2,
    (Permutation a (rows (durable db)) \/
     (a = [] /\ fails (S (length (log db))) sql_list = true)) /\
    open db2 c = None /\
    server db2 = server db /\
    rows (durable db2) = rows (durable db) /\
    effects (durable db2) = effects (durable db) /\
    ledger (durable db2) <> None /\
    sent db2 = sent db ++ preamble /\
    forEach (runMigration fsys (pinned c) fails)
            (pendingOf a (discovered fsys)) db2 = (r, db').
Proof.
  intros Idle E. apply runPendingMigrations_sent in E.
  destruct E as [(e & -> & Ec & Hs) | (rc & db1 & a & db2 & Ec & Ea & Hs & E)].
  - left. exists e.
    destruct (create_idle _ _ _ Idle Ec) as (Ho & _ & _ & _ & Hd & F).
    apply query_answers in Ec. repeat split; assumption.
  - right. exists a, db2.
    destruct (create_idle _ _ _ Idle Ec) as (Ho & Hr & He & T).
    destruct (getAppliedMigrations_idle _ _ _ Ho Ea)
      as (Ho2 & Hd2 & Hs2 & Ha).
    rewrite Hd2, Hs2, (query_server _ _ _ _ _ _ _ Ec). rewrite Hr in Ha.
    assert (length (log db1) = S (length (log db))) as L.
    { apply query_log in Ec. rewrite Ec, length_app. cbn. lia. }
    rewrite L in Ha.
    split; [|repeat split; assumption].
    destruct Ha as [Ha | [Ha [F | N]]];
      [left; rewrite Ha; apply orderBy_perm | right; auto|].
    contradiction.
Qed.

End Start.

(* ===================================================================== *)
(** ** Completeness of a run *)
(* ===================================================================== *)

(** C1, evaluated.  The engine sends every query of a unit of work through
    [pool.query], so the [COMMIT] of a unit of work runs on whichever
    client the pool hands out for it.  With one script in the directory, an
    empty database and a pool that serves the first six queries of the run
    from one client and the seventh, the [COMMIT], from another, every
    query succeeds and [runPendingMigrations] returns normally; the
    [COMMIT] found no transaction to commit, so the ledger has no row for
    the script and none of its statements is applied, although the script
    was discovered and was pending. *)
Theorem runPendingMigrations_misses_commit :
  let db := connect emptyStore in
  let run := runPendingMigrations singleDir (switchesAt 6) neverFails db in
  discovered singleDir = [f001] /\
  rows (durable db) = [] /\
  fst run = Ok tt /\
  List.map (fun e => (on e, text e, params e)) (log (snd run)) =
  [(0, sql_create, []);
   (0, sql_list, []);
   (0, sql_begin, []);
   (0, JS.lit "CREATE TABLE t(x int)", []);
   (0, JS.lit "INSERT INTO t VALUES (1)", []);
   (0, sql_insert, [f001]);
   (1, sql_commit, [])] /\
  answers (snd run) = [true; true; true; true; true; true; true] /\
  rows (durable (snd run)) = [] /\
  effects (durable (snd run)) = [].
Proof. vm_compute. repeat split. Qed.

(* ===================================================================== *)
(** ** Order of application *)
(* ===================================================================== *)

(** The array [getMigrationFiles] returns depends on the names in the
    directory, not on the order in which [readdir] lists them. *)
Lemma discovered_stable (fsys fsys' : FS) (files files' : list jsstring) :
  readdir fsys = Some files -> readdir fsys' = Some files' ->
  Permutation files files' ->
  discovered fsys' = discovered fsys.
Proof.
  intros H H' P. unfold discovered. rewrite H, H'.
  apply JSFacts.sort_permutation_eq, JSFacts.filter_perm. symmetry. exact P.
Qed.

(** C2. Whatever the pool does, a run of [runPendingMigrations] that gets
    past its first query works through the pending array [P], which is
    ascending and is the sort (by code units, as [sort()] compares) of the
    [.sql] names of the directory that the applied array [a], returned by
    [getAppliedMigrations], lacks: a run that
    returns has sent the units of work of [P] in that order, a run that
    throws has sent those of the scripts of [P] before the one that threw.
    The array is the same however [readdir] orders the same names. *)
Theorem runPendingMigrations_order
        (fsys : FS) (dispatch : nat -> conn) (fails : nat -> jsstring -> bool)
        (db db' : DB) (r : Result unit) :
  runPendingMigrations fsys dispatch fails db = (r, db') ->
  ((exists e, r = Err e /\ sent db' = sent db ++ [(sql_create, [])])
   \/
   exists rc db1 a db2,
     query dispatch fails sql_create [] db = (Ok rc, db1) /\
     getAppliedMigrations dispatch fails db1 = (Ok a, db2) /\
     JS.ascending (pendingOf a (discovered fsys)) /\
     (forall files,
         readdir fsys = Some files ->
         pendingOf a (discovered fsys) =
         JS.sort (filter (fun file => JS.endsWith file (JS.lit ".sql")
                                      && negb (JS.includes a file)) files)) /\
     match r with
     | Ok _ =>
         sent db' =
         sent db ++ preamble
                 ++ unitsOfWork fsys (pendingOf a (discovered fsys))
     | Err e =>
         exists l1 x l2 dbk,
           pendingOf a (discovered fsys) = l1 ++ x :: l2 /\
           sent dbk = sent db ++ preamble ++ unitsOfWork fsys l1 /\
           runMigration fsys dispatch fails x dbk = (Err e, db')
     end)
  /\
  (forall fsys' files files' a,
      readdir fsys = Some files -> readdir fsys' = Some files' ->
      Permutation files files' ->
      pendingOf a (discovered fsys') = pendingOf a (discovered fsys)).
Proof.
  intros E. split.
  - apply runPendingMigrations_sent in E.
    destruct E as [(e & -> & _ & S) | (rc & db1 & a & db2 & Ec & Ea & S & E)].
    + left. exists e. split; [reflexivity | exact S].
    + right. exists rc, db1, a, db2. split; [exact Ec|]. split; [exact Ea|].
      split; [apply pendingOf_ascending|].
      split; [intros files; apply pendingOf_discovered|].
      destruct r as [[]|e].
      * apply runAll_sent_ok in E. destruct E as [E _].
        rewrite E, S, <- app_assoc. reflexivity.
      * apply forEach_stops in E.
        destruct E as (l1 & x & l2 & dbk & P & E1 & E2).
        exists l1, x, l2, dbk. split; [exact P|]. split; [|exact E2].
        apply runAll_sent_ok in E1. destruct E1 as [E1 _].
        rewrite E1, S, <- app_assoc. reflexivity.
  - intros fsys' files files' a H H' P.
    rewrite (discovered_stable fsys fsys' files files' H H' P). reflexivity.
Qed.

Lemma runPendingMigrations_order_witness :
  let db := connect emptyStore in
  let db' := snd (runPendingMigrations exampleDir (pinned 0) neverFails db) in
  readdir exampleDir = Some [f002; JS.lit "README.md"; f001] /\
  sent db' = preamble ++ unitsOfWork exampleDir [f001; f002].
Proof.
  intros db db'. split; [reflexivity|].
  destruct (runPendingMigrations_order exampleDir (pinned 0) neverFails
                                       db db' (Ok tt)) as [H _].
  - vm_compute. reflexivity.
  - destruct H as [(e & E & _) | (rc & db1 & a & db2 & _)]; [discriminate|].
    vm_compute. reflexivity.
Defined.

(* ===================================================================== *)
(** ** Atomicity of a unit of work *)
(* ===================================================================== *)




(* ===================================================================== *)
(** ** A run that fails *)
(* ===================================================================== *)

Lemma replay_effects (l : list jsstring) (s : Store) :
  replay (List.map Effect l) s =
  {| ledger := ledger s; effects := effects s ++ l |}.
Proof.
  revert s. induction l as [|x l IH]; intros s.
  - cbn. rewrite app_nil_r. destruct s; reflexivity.
  - change (replay (List.map Effect (x :: l)) s)
      with (replay (List.map Effect l) (apply (Effect x) s)).
    rewrite IH. cbn. rewrite <- app_assoc. reflexivity.
Qed.

Section Applied.

Variable fsys : FS.
Variable c : conn.
Variable fails : nat -> jsstring -> bool.

(** Ordinary statements that all succeed inside a transaction wait, in
    order, for the commit. *)
Lemma executeStatements_ordinary (srv : Server) (stmts : list jsstring) :
  forallb (ordinary srv) stmts = true ->
  (forall s, In s stmts -> JS.truthy (JS.trim s) = true) ->
  forall db p db',
    server db = srv ->
    open db c = Some p ->
    executeStatements (pinned c) fails stmts db = (Ok tt, db') ->
    server db' = srv /\
    durable db' = durable db /\
    open db' c = Some (p ++ List.map Effect stmts).
Proof.
  unfold executeStatements.
  induction stmts as [|s stmts IH]; intros Pl Tr db p db' Hs Ho E.
  - cbn in E. injection E as <-. cbn. rewrite app_nil_r. auto.
  - cbn [forallb] in Pl. apply andb_true_iff in Pl. destruct Pl as [Ps Pl].
    cbn [forEach] in E. rewrite (Tr s (or_introl eq_refl)) in E.
    unfold bind at 1 in E. unfold bind at 1 in E.
    destruct (query (pinned c) fails s [] db) as [[rs|e] db1] eqn:Q;
      [|discriminate].
    unfold ret at 1 in E.
    pose proof (query_server _ _ _ _ _ _ _ Q) as Hs1.
    apply query_succeeded in Q. destruct Q as [_ Q]. unfold pinned in Q.
    rewrite Hs, (ordinary_classify srv s Ps), Ho in Q. cbn [step push] in Q.
    injection Q as _ Hd1 Ho1.
    destruct (IH Pl (fun x Hx => Tr x (or_intror Hx)) db1 (p ++ [Effect s])
                 db' (eq_trans Hs1 Hs) (eq_sym Ho1) E) as (Hs' & Hd' & Ho').
    split; [exact Hs'|]. split; [congruence|].
    rewrite Ho', <- app_assoc. reflexivity.
Qed.

(** A unit of work that returns, for a script of ordinary statements, has
    committed them all, once each and in order. *)
Lemma runMigration_effects (f txt : jsstring) (db db' : DB) (u : unit) :
  open db c = None ->
  readFile fsys f = Some txt ->
  forallb (ordinary (server db)) (statementsOf txt) = true ->
  runMigration fsys (pinned c) fails f db = (Ok u, db') ->
  effects (durable db') = effects (durable db) ++ statementsOf txt.
Proof.
  intros Idle Hr Pl E. apply runMigration_cases in E.
  destruct E as [(_ & E & _) | (txt' & Hr' & E)]; [discriminate|].
  assert (txt' = txt) as -> by congruence.
  destruct E as [(e & _ & E) | (rb & db1 & Eb & E)]; [discriminate|].
  destruct E as [(Ea & _) | (e & db2 & _ & [(rr & _ & E) | (e' & _ & E)])];
    try discriminate.
  pose proof (query_server _ _ _ _ _ _ _ Eb) as Hs1.
  apply query_succeeded in Eb. destruct Eb as [_ Eb]. unfold pinned in Eb.
  rewrite classify_begin, Idle in Eb. cbn [step] in Eb.
  injection Eb as _ Hd1 Ho1.
  apply applyScript_cases in Ea.
  destruct Ea as [(e0 & _ & Ea) | (db2 & Es & Ea)]; [discriminate|].
  destruct (executeStatements_ordinary (server db) (statementsOf txt) Pl
              (statement_truthy txt) db1 [] db2 Hs1 (eq_sym Ho1) Es)
    as (Hs2 & Hd2 & Ho2).
  cbn [app] in Ho2.
  destruct Ea as [(e0 & _ & Ea) | (ri & db3 & Ei & Ea)]; [discriminate|].
  apply query_succeeded in Ei. destruct Ei as [_ Ei]. unfold pinned in Ei.
  rewrite classify_insert, Ho2 in Ei. cbn [step] in Ei.
  destruct (ledger (view (durable db2) (Some (List.map Effect (statementsOf txt)))));
    [|discriminate].
  destruct (JS.includes l f); [discriminate|]. cbn [push] in Ei.
  injection Ei as _ Hd3 Ho3.
  destruct Ea as [(e0 & _ & Ea) | (rc & Ec & _)]; [discriminate|].
  apply query_succeeded in Ec. destruct Ec as [_ Ec]. unfold pinned in Ec.
  rewrite classify_commit, <- Ho3, <- Hd3 in Ec. cbn [step view] in Ec.
  injection Ec as _ Hd4 _. rewrite <- Hd4, replay_snoc, replay_effects.
  cbn. rewrite Hd2, <- Hd1. reflexivity.
Qed.

(** The same for a sequence of units of work. *)
Lemma runAll_effects (l : list jsstring) :
  forall db db' u,
    open db c = None ->
    forallb (ordinaryScript (server db) fsys) l = true ->
    forEach (runMigration fsys (pinned c) fails) l db = (Ok u, db') ->
    effects (durable db') = effects (durable db) ++ statementsOfAll fsys l.
Proof.
  induction l as [|f l IH]; intros db db' u Idle Pl E; cbn [forEach] in E.
  - injection E as _ <-. cbn. rewrite app_nil_r. reflexivity.
  - cbn [forallb] in Pl. apply andb_true_iff in Pl. destruct Pl as [Pf Pl].
    unfold bind in E.
    destruct (runMigration fsys (pinned c) fails f db) as [[u0|e] db1] eqn:Ef;
      [|discriminate].
    pose proof (runMigration_server _ _ _ _ _ _ _ Ef) as Hs1.
    destruct (runMigration_rows fsys c fails f db db1 _ Idle Ef) as [Idle1 _].
    unfold ordinaryScript in Pf. unfold statementsOfAll. cbn [flat_map].
    destruct (readFile fsys f) as [txt|] eqn:Hr.
    + rewrite <- Hs1 in Pl. rewrite (IH _ _ _ Idle1 Pl E).
      rewrite (runMigration_effects f txt db db1 u0 Idle Hr Pf Ef).
      rewrite <- app_assoc. reflexivity.
    + apply runMigration_cases in Ef.
      destruct Ef as [(_ & Ef & _) | (txt & Hr' & _)];
        [discriminate | congruence].
Qed.

End Applied.

(** The claim about the state after a failed run, taken for every script,
    fails: the first script below rolls back by itself after its first
    statement, so the rest of it, the ledger insert included, is committed
    at once; the second script is rejected and the run throws.  The ledger
    then holds the first script, which comes before the failing one, but
    that script is not fully applied: its first statement is missing. *)
Lemma runPendingMigrations_half_applied :
  let db := connect emptyStore in
  let run := runPendingMigrations undoingDir (pinned 0)
               (rejects (JS.lit "INSERT INTO missing VALUES (1)")) db in
  open db 0 = None /\
  rows (durable db) = [] /\
  pendingOf [] (discovered undoingDir) = [f004; f005] /\
  fst run = Err StatementExecutionError /\
  rows (durable (snd run)) = [f004] /\
  statementsOfAll undoingDir [f004] =
  [JS.lit "CREATE TABLE a(x int)"; JS.lit "ROLLBACK";
   JS.lit "CREATE TABLE b(x int)"] /\
  effects (durable (snd run)) = [JS.lit "CREATE TABLE b(x int)"].
Proof. vm_compute. repeat split. Qed.

(** C4, amended.  On one client of the pool with no transaction open,
    [runPendingMigrations] ends in one of three ways.  The ledger table
    could not be ensured: it throws, having sent that one query.  Or it
    returns: then it has sent the units of work of the whole pending array
    and every query of them succeeded.  Or it throws [e]: then the pending
    array is [l1 ++ x :: l2], the units of work of [l1] were sent in order
    and every query of them succeeded, [runMigration x] threw that same
    [e], and the run ended in the state in which it threw, so nothing of
    [l2] was attempted.  The rows of [l1] were added to the ledger; when
    the scripts of [l1] are made of ordinary statements, these are all
    committed, in order; and when no statement of the script of [x] ends
    the transaction, the committed store is the one the scripts of [l1]
    left.  The pending array is computed from the ledger rows, in the order
    of the server, or from nothing when the ledger read failed. *)
Theorem runPendingMigrations_aborts
        (fsys : FS) (c : conn) (fails : nat -> jsstring -> bool)
        (db db' : DB) (r : Result unit) :
  open db c = None ->
  runPendingMigrations fsys (pinned c) fails db = (r, db') ->
  (exists e,
      r = Err e /\ durable db' = durable db /\
      sent db' = sent db ++ [(sql_create, [])] /\
      answers db' = answers db ++ [false])
  \/
  exists a db2,
    (Permutation a (rows (durable db)) \/ a = []) /\
    sent db2 = sent db ++ preamble /\
    rows (durable db2) = rows (durable db) /\
    effects (durable db2) = effects (durable db) /\
    ((r = Ok tt /\
      sent db' = sent db2 ++ unitsOfWork fsys (pendingOf a (discovered fsys)) /\
      answers db' =
      answers db2
      ++ repeat true
           (length (unitsOfWork fsys (pendingOf a (discovered fsys)))))
     \/
     exists e l1 x l2 dbk,
       r = Err e /\
       pendingOf a (discovered fsys) = l1 ++ x :: l2 /\
       sent dbk = sent db2 ++ unitsOfWork fsys l1 /\
       answers dbk = answers db2 ++ repeat true (length (unitsOfWork fsys l1)) /\
       rows (durable dbk) = rows (durable db) ++ l1 /\
       (forallb (ordinaryScript (server db) fsys) l1 = true ->
        effects (durable dbk) = effects (durable db) ++ statementsOfAll fsys l1)
       /\
       runMigration fsys (pinned c) fails x dbk = (Err e, db') /\
       ((readFile fsys x = None /\ db' = dbk)
        \/ exists txt,
             readFile fsys x = Some txt /\
             (sent db' = sent dbk ++ [(sql_begin, [])]
              \/ exists k tail, sent db' = sent dbk ++ interrupted txt k tail))
       /\
       (leavesTransaction (server db) fsys x = true ->
        durable db' = durable dbk /\
        rows (durable db') = rows (durable db) ++ l1)).
Proof.
  intros Idle E.
  apply runPendingMigrations_idle in E; [|exact Idle].
  destruct E as [(e0 & -> & Hd & _ & S & A & _)
                | (a & db2 & Ha & Idle2 & Hs2 & R2 & F2 & _ & S2 & E)].
  { left. exists e0. auto. }
  right. exists a, db2.
  split; [destruct Ha as [Ha | [Ha _]]; auto|].
  split; [exact S2|]. split; [exact R2|]. split; [exact F2|].
  destruct r as [[]|e].
  - left. split; [reflexivity|]. apply runAll_sent_ok in E. exact E.
  - right. apply runAll_err in E; [|exact Idle2].
    destruct E as (l1 & x & l2 & dbk & P & E1 & Ex & Idlek & Hsk & Rk & _).
    exists e, l1, x, l2, dbk. split; [reflexivity|]. split; [exact P|].
    rewrite R2 in Rk. rewrite Hs2 in Hsk.
    destruct (runAll_sent_ok _ _ _ _ _ _ _ E1) as [S1 A1].
    split; [exact S1|]. split; [exact A1|]. split; [exact Rk|].
    split; [|split; [exact Ex|split]].
    + intros Pl. rewrite <- F2. rewrite <- Hs2 in Pl.
      exact (runAll_effects fsys c fails l1 db2 dbk tt Idle2 Pl E1).
    + destruct (runMigration_sent_err _ _ _ _ _ _ _ Ex)
        as [H | (txt & Hr & [[H _] | (k & tail & b & _ & _ & H & _)])].
      * left. exact H.
      * right. exists txt. split; [exact Hr | left; exact H].
      * right. exists txt. split; [exact Hr|]. right. exists k, tail.
        exact H.
    + intros K. rewrite <- Hsk in K.
      pose proof (runMigration_leaves fsys c fails x dbk db' e Idlek K Ex)
        as Hd.
      split; [exact Hd | rewrite Hd; exact Rk].
Qed.

Lemma runPendingMigrations_aborts_witness :
  let db := connect emptyStore in
  let run := runPendingMigrations exampleDir (pinned 0)
               (rejects (JS.lit "UPDATE t SET y = 0")) db in
  fst run = Err StatementExecutionError /\
  rows (durable (snd run)) = [f001] /\
  effects (durable (snd run)) =
  [JS.lit "CREATE TABLE t(x int)"; JS.lit "INSERT INTO t VALUES (1)"].
Proof.
  intros db run.
  destruct (runPendingMigrations_aborts exampleDir 0
              (rejects (JS.lit "UPDATE t SET y = 0")) db (snd run)
              (fst run)) as [(e & _ & _ & S & _) | _].
  - reflexivity.
  - apply surjective_pairing.
  - vm_compute in S. discriminate.
  - vm_compute. repeat split.
Defined.

(* ===================================================================== *)
(** ** Statement splitting *)
(* ===================================================================== *)

Lemma trimStart_In (s : jsstring) (x : N) :
  In x (JS.trimStart s) -> In x s.
Proof.
  induction s as [|ch s IH]; cbn [JS.trimStart]; [auto|].
  destruct (JS.isWhiteSpace ch); [intros H; right; apply IH, H | auto].
Qed.

Lemma trim_In (s : jsstring) (x : N) : In x (JS.trim s) -> In x s.
Proof.
  unfold JS.trim, JS.trimEnd. intros H.
  apply in_rev, trimStart_In, in_rev in H. apply trimStart_In, H.
Qed.

(** [trim] removes the white space around a string, all of it and nothing
    else. *)
Lemma trim_trimmedFrom (piece : jsstring) : trimmedFrom piece (JS.trim piece).
Proof.
  destruct (JSFacts.trim_spec piece) as (pre & post & H & F1 & F2).
  exists pre, post. split; [exact H|]. split; [exact F1|].
  split; [exact F2|]. split.
  - intros ch rest E. pose proof (JSFacts.trim_head piece) as Hh.
    rewrite E in Hh. exact Hh.
  - intros front ch E. pose proof (JSFacts.trim_last piece) as Hl.
    rewrite E, rev_app_distr in Hl. exact Hl.
Qed.

Lemma trimmed_pieces (pieces : list jsstring) :
  Forall2 trimmedFrom pieces (List.map JS.trim pieces).
Proof.
  induction pieces as [|p ps IH]; cbn [List.map]; constructor;
    [apply trim_trimmedFrom | exact IH].
Qed.

(** C5. Whatever the pool does, for a script with text [txt]:
    [runMigration] sends, between [BEGIN] and the ledger insert, exactly
    the statements [statementsOf txt], each once and in order, when it
    returns, and a prefix of them when it throws.  These statements are
    obtained as follows: the text is cut at its semicolons (the pieces
    joined by [;] give [txt] back and none holds a [;]); each piece is
    replaced by what remains of it once the white space at both ends is
    taken off (what is taken off is white space, what remains neither
    starts nor ends with white space); what is empty is dropped; the order
    is the order of the text.  So no statement is empty, holds a [;],
    starts or ends with white space.  The text of the example yields its
    two statements, and a text with blanks, tabs and line ends around its
    statements and before its semicolons yields the bare statements. *)
Theorem runMigration_statements
        (fsys : FS) (dispatch : nat -> conn) (fails : nat -> jsstring -> bool)
        (f txt : jsstring) (db db' : DB) (r : Result unit) :
  readFile fsys f = Some txt ->
  runMigration fsys dispatch fails f db = (r, db') ->
  match r with
  | Ok _ => sent db' = sent db ++ unitOfWork f txt
  | Err _ =>
      sent db' = sent db ++ [(sql_begin, [])]
      \/ exists k tail,
           k <= length (statementsOf txt) /\
           (tail = [] \/
            (k = length (statementsOf txt) /\
             (tail = [(sql_insert, [f])] \/
              tail = [(sql_insert, [f]); (sql_commit, [])]))) /\
           sent db' = sent db ++ interrupted txt k tail
  end
  /\ (exists p ps trimmed,
         JS.split 59%N txt = p :: ps /\
         p ++ flat_map (fun q => 59%N :: q) ps = txt /\
         (forall q, In q (p :: ps) -> ~ In 59%N q) /\
         Forall2 trimmedFrom (p :: ps) trimmed /\
         statementsOf txt = filter (fun s => negb (JS.eqb s [])) trimmed)
  /\ (forall s, In s (statementsOf txt) ->
                s <> [] /\ ~ In 59%N s /\
                (forall ch rest, s = ch :: rest ->
                                 JS.isWhiteSpace ch = false) /\
                (forall front ch, s = front ++ [ch] ->
                                  JS.isWhiteSpace ch = false))
  /\ statementsOf (JS.lit "CREATE TABLE t(x int); INSERT INTO t VALUES (1);")
     = [JS.lit "CREATE TABLE t(x int)"; JS.lit "INSERT INTO t VALUES (1)"]
  /\ statementsOf
       ([32; 9] ++ JS.lit "A" ++ [32; 10; 59; 32; 59; 13; 10]
                ++ JS.lit "B" ++ [9; 59])%N
     = [JS.lit "A"; JS.lit "B"].
Proof.
  intros Hr E. split; [|split; [|split; [|split]]].
  - destruct r as [u|e].
    + apply runMigration_sent_ok in E. destruct E as (txt' & Hr' & E & _).
      congruence.
    + apply runMigration_sent_err in E.
      destruct E as [(Hn & _) | (txt' & Hr' & E)]; [congruence|].
      assert (txt' = txt) as -> by congruence.
      destruct E as [[E _] | (k & tail & b & Hk & Ht & E & _)];
        [left; exact E | right].
      exists k, tail. auto.
  - pose proof (JSFacts.split_join 59%N txt) as J.
    pose proof (JSFacts.split_no_sep 59%N txt) as NS.
    destruct (JS.split 59%N txt) as [|p ps] eqn:Sp; [contradiction|].
    exists p, ps, (List.map JS.trim (p :: ps)).
    split; [reflexivity|]. split; [exact J|].
    split; [exact NS|]. split; [apply trimmed_pieces|].
    unfold statementsOf. rewrite Sp.
    apply filter_ext. intros s. destruct s; reflexivity.
  - intros s Hs. apply statementsOf_In in Hs.
    destruct Hs as (piece & Hp & -> & NE).
    split; [exact NE|]. split.
    + intros H. apply trim_In in H.
      exact (JSFacts.split_no_sep 59%N txt piece Hp H).
    + destruct (trim_trimmedFrom piece) as (_ & _ & _ & _ & _ & H1 & H2).
      split; assumption.
  - vm_compute. reflexivity.
  - vm_compute. reflexivity.
Qed.

Lemma runMigration_statements_witness :
  let db := connect blankStore in
  let run := runMigration exampleDir (pinned 0) neverFails f001 db in
  fst run = Ok tt /\
  sent (snd run) =
  [(sql_begin, []);
   (JS.lit "CREATE TABLE t(x int)", []);
   (JS.lit "INSERT INTO t VALUES (1)", []);
   (sql_insert, [f001]);
   (sql_commit, [])].
Proof.
  intros db run. split; [vm_compute; reflexivity|].
  destruct (runMigration_statements exampleDir (pinned 0) neverFails f001
              (JS.lit "CREATE TABLE t(x int); INSERT INTO t VALUES (1);")
              db (snd run) (Ok tt)) as (S & _).
  - reflexivity.
  - vm_compute. reflexivity.
  - rewrite S. vm_compute. reflexivity.
Defined.

(* ===================================================================== *)
(** ** Reads that fail *)
(* ===================================================================== *)

Section Reads.

Variable fsys : FS.
Variable dispatch : nat -> conn.
Variable fails : nat -> jsstring -> bool.

(** The two ledger reads write nothing; a read that fails costs its client
    the transaction it had open, since the pool closes that client. *)
Lemma read_only (t : jsstring) (ps : list jsstring) (db db' : DB)
      (r : Result (list jsstring)) :
  ((exists le, classify (server db) t ps = CListApplied le)
   \/ exists f, classify (server db) t ps = CLookup f) ->
  query dispatch fails t ps db = (r, db') ->
  durable db' = durable db /\
  (forall c, open db' c = open db c
             \/ (c = dispatch (length (log db)) /\ open db' c = None)) /\
  (forall x, r = Ok x -> forall c, open db' c = open db c).
Proof.
  intros C E. apply query_inv in E.
  destruct E as (_ & _ & Others & [(_ & -> & Hd & Ho) | (_ & s & S & Ho)]).
  - split; [exact Hd|]. split; [|discriminate].
    intros c. destruct (Nat.eq_dec c (dispatch (length (log db)))) as [->|N];
      [right; auto | left; apply Others, N].
  - assert (durable db' = durable db /\
            s = open db (dispatch (length (log db)))) as [Hd Hs].
    { destruct C as [[le C] | [f C]]; rewrite C in S; cbn [step] in S;
        split_step S; injection S as _ Hd Hs; auto. }
    subst s. split; [exact Hd|]. split.
    + intros c. destruct (Nat.eq_dec c (dispatch (length (log db)))) as [->|N];
        [|left; apply Others, N].
      destruct r; cbn in Ho; [left | right]; auto.
    + intros x -> c.
      destruct (Nat.eq_dec c (dispatch (length (log db)))) as [->|N];
        [exact Ho | apply Others, N].
Qed.

Lemma getAppliedMigrations_readonly (db db' : DB) (a : list jsstring) :
  getAppliedMigrations dispatch fails db = (Ok a, db') ->
  durable db' = durable db /\
  (forall c, open db' c = open db c
             \/ (c = dispatch (length (log db)) /\ open db' c = None)) /\
  (forall l dbq,
      query dispatch fails sql_list [] db = (Ok l, dbq) ->
      forall c, open db' c = open db c).
Proof.
  intros E.
  assert ((exists le, classify (server db) sql_list [] = CListApplied le)
          \/ exists f, classify (server db) sql_list [] = CLookup f) as C
      by (left; eexists; apply classify_list).
  destruct (getAppliedMigrations_cases dispatch fails db)
    as [(l & dbx & Q & Ea) | (e & dbx & Q & Ea)];
    rewrite E in Ea; inversion Ea; subst;
    destruct (read_only sql_list [] _ _ _ C Q) as (Hd & Ho & Hk);
    (split; [exact Hd|]); (split; [exact Ho|]); intros l0 dbq Q'.
  - eapply Hk. reflexivity.
  - congruence.
Qed.

(** [getStatus] is the composition of the two reads; its [catch] never
    runs. *)
Lemma getStatus_eq (db : DB) :
  exists a db',
    getAppliedMigrations dispatch fails db = (Ok a, db') /\
    getStatus fsys dispatch fails db =
    (Ok {| total := length (discovered fsys);
           applied := length a;
           pending := length (pendingOf a (discovered fsys));
           appliedMigrations := a;
           pendingMigrations := pendingOf a (discovered fsys) |}, db').
Proof.
  unfold getStatus. unfold try_catch at 1. unfold bind at 1.
  destruct (getAppliedMigrations_cases dispatch fails db)
    as [(l & dbx & _ & Ea) | (e & dbx & _ & Ea)]; rewrite Ea;
    unfold bind; rewrite getMigrationFiles_eq; unfold ret;
    eexists; eexists; (split; [reflexivity|]); reflexivity.
Qed.

Lemma discovered_unreadable : readdir fsys = None -> discovered fsys = [].
Proof. unfold discovered. intros ->. reflexivity. Qed.

End Reads.

(** The claim that [getStatus] fails when a read fails does not hold: with
    the first script recorded and the list query rejected, [getStatus]
    returns a status with nothing applied and both scripts pending. *)
Lemma getStatus_reports_on_failure :
  let db := connect storeAfter001 in
  fst (query (pinned 0) (rejects sql_list) sql_list [] db)
  = Err StatementExecutionError /\
  fst (getStatus exampleDir (pinned 0) (rejects sql_list) db)
  = Ok {| total := 2; applied := 0; pending := 2;
          appliedMigrations := [];
          pendingMigrations := [f001; f002] |}.
Proof. vm_compute. split; reflexivity. Qed.

(** C6, amended. [getStatus] never throws on a failure of its reads and
    writes nothing: it returns the counts and arrays computed from what
    [getAppliedMigrations] and [getMigrationFiles] returned, so a failed
    ledger read is reported as nothing applied and every discovered script
    pending, and a failed directory read as no script at all.  The
    committed store is unchanged; so is every session when the ledger read
    succeeds, and when it fails nothing changes but that the pool closes
    the client that served it. *)
Theorem getStatus_never_fails
        (fsys : FS) (dispatch : nat -> conn) (fails : nat -> jsstring -> bool)
        (db : DB) :
  exists st db',
    getStatus fsys dispatch fails db = (Ok st, db') /\
    durable db' = durable db /\
    (forall c, open db' c = open db c
               \/ (c = dispatch (length (log db)) /\ open db' c = None)) /\
    (forall l dbq,
        query dispatch fails sql_list [] db = (Ok l, dbq) ->
        forall c, open db' c = open db c) /\
    total st = length (discovered fsys) /\
    applied st = length (appliedMigrations st) /\
    pending st = length (pendingMigrations st) /\
    pendingMigrations st = pendingOf (appliedMigrations st) (discovered fsys) /\
    (forall e dbq,
        query dispatch fails sql_list [] db = (Err e, dbq) ->
        appliedMigrations st = [] /\ pendingMigrations st = discovered fsys) /\
    (readdir fsys = None -> total st = 0 /\ pendingMigrations st = []).
Proof.
  destruct (getStatus_eq fsys dispatch fails db) as (a & db' & Ea & Es).
  eexists. exists db'. split; [exact Es|].
  cbn [total applied pending appliedMigrations pendingMigrations].
  destruct (getAppliedMigrations_readonly _ _ _ _ _ Ea) as (Hd & Ho & Hk).
  repeat (split; [first [exact Hd | exact Ho | exact Hk | reflexivity]|]).
  split.
  - intros e dbq Q.
    destruct (getAppliedMigrations_cases dispatch fails db)
      as [(l & dbx & Q' & _) | (e' & dbx & _ & Ea')]; [congruence|].
    rewrite Ea in Ea'. injection Ea' as -> _.
    split; [reflexivity | apply pendingOf_nil].
  - intros H. rewrite (discovered_unreadable fsys H). split; reflexivity.
Qed.

(** C7. A failed directory read makes [getMigrationFiles] return the empty
    array, and a failed ledger query makes [getAppliedMigrations] return the
    empty array; neither throws.  The callers go on from there: with the
    directory unreadable, [runPendingMigrations] finds nothing pending and
    returns after its two opening queries, and [getStatus] reports no
    script; with the ledger unreadable, [runPendingMigrations] takes every
    discovered script as pending and [getStatus] reports nothing applied. *)
Theorem reads_fail_open
        (fsys : FS) (dispatch : nat -> conn) (fails : nat -> jsstring -> bool)
        (db : DB) :
  (readdir fsys = None -> getMigrationFiles fsys db = (Ok [], db))
  /\ (forall e db',
         query dispatch fails sql_list [] db = (Err e, db') ->
         getAppliedMigrations dispatch fails db = (Ok [], db'))
  /\ (readdir fsys = None ->
      forall r db',
        runPendingMigrations fsys dispatch fails db = (r, db') ->
        (exists e, r = Err e /\ sent db' = sent db ++ [(sql_create, [])])
        \/ (r = Ok tt /\ sent db' = sent db ++ preamble))
  /\ (readdir fsys = None ->
      exists st db',
        getStatus fsys dispatch fails db = (Ok st, db') /\
        total st = 0 /\ pending st = 0 /\ pendingMigrations st = [])
  /\ (forall rc db1 e db2,
         query dispatch fails sql_create [] db = (Ok rc, db1) ->
         query dispatch fails sql_list [] db1 = (Err e, db2) ->
         runPendingMigrations fsys dispatch fails db =
         forEach (runMigration fsys dispatch fails) (discovered fsys) db2)
  /\ (forall e dbq,
         query dispatch fails sql_list [] db = (Err e, dbq) ->
         exists st,
           getStatus fsys dispatch fails db = (Ok st, dbq) /\
           applied st = 0 /\ appliedMigrations st = [] /\
           pendingMigrations st = discovered fsys).
Proof.
  assert (forall x e y,
             query dispatch fails sql_list [] x = (Err e, y) ->
             getAppliedMigrations dispatch fails x = (Ok [], y)) as Open.
  { intros x e y Q.
    destruct (getAppliedMigrations_cases dispatch fails x)
      as [(l & dbx & Q' & _) | (e' & dbx & Q' & Ea)]; congruence. }
  split; [|split; [|split; [|split; [|split]]]].
  - intros H. rewrite getMigrationFiles_eq, (discovered_unreadable fsys H).
    reflexivity.
  - exact (Open db).
  - intros H r db' E. apply runPendingMigrations_sent in E.
    destruct E as [(e & -> & _ & S) | (rc & db1 & a & db2 & _ & _ & S & E)].
    + left. exists e. split; [reflexivity | exact S].
    + right. rewrite (discovered_unreadable fsys H) in E. cbn in E.
      inversion E; subst. split; [reflexivity | exact S].
  - intros H. destruct (getStatus_eq fsys dispatch fails db)
      as (a & db' & _ & Es).
    eexists. exists db'. split; [exact Es|].
    cbn [total applied pending appliedMigrations pendingMigrations].
    rewrite (discovered_unreadable fsys H). repeat split.
  - intros rc db1 e db2 Qc Ql.
    destruct (runPendingMigrations fsys dispatch fails db) as [r db'] eqn:E.
    apply runPendingMigrations_cases in E.
    destruct E as [(e0 & Qc' & _) | (rc' & db1' & a & db2' & Qc' & Ea & E)];
      [congruence|].
    assert (db1' = db1) as -> by congruence.
    rewrite (Open _ _ _ Ql) in Ea. injection Ea as <- <-.
    rewrite pendingOf_nil in E. symmetry. exact E.
  - intros e dbq Q.
    destruct (getStatus_eq fsys dispatch fails db) as (a & db' & Ea & Es).
    rewrite (Open _ _ _ Q) in Ea. injection Ea as <- <-.
    eexists. split; [exact Es|].
    cbn [total applied pending appliedMigrations pendingMigrations].
    repeat split. apply pendingOf_nil.
Qed.

(* ===================================================================== *)
(** ** The point lookup *)
(* ===================================================================== *)

Section Lookup.

Variable dispatch : nat -> conn.
Variable fails : nat -> jsstring -> bool.

Lemma isMigrationApplied_cases (f : jsstring) (db : DB) :
  (exists l db',
      query dispatch fails sql_lookup [f] db = (Ok l, db') /\
      isMigrationApplied dispatch fails f db
      = (Ok (match l with [] => false | _ :: _ => true end), db'))
  \/
  (exists e db',
      query dispatch fails sql_lookup [f] db = (Err e, db') /\
      isMigrationApplied dispatch fails f db = (Ok false, db')).
Proof.
  unfold isMigrationApplied, getRow, try_catch, bind, ret.
  destruct (query dispatch fails sql_lookup [f] db) as [[l|e] db'].
  - left. exists l, db'. split; [reflexivity|]. destruct l; reflexivity.
  - right. exists e, db'. split; reflexivity.
Qed.

(** What the lookup query answers. *)
Lemma lookup_answer (f : jsstring) (db : DB) :
  fst (query dispatch fails sql_lookup [f] db) =
  if fails (length (log db)) sql_lookup then Err StatementExecutionError
  else match ledger (viewOf db (dispatch (length (log db)))) with
       | Some l => Ok (if JS.includes l f then [JS.lit "1"] else [])
       | None => Err StatementExecutionError
       end.
Proof.
  rewrite query_pool. unfold pool_query, viewOf.
  rewrite classify_lookup.
  destruct (fails (length (log db)) sql_lookup); [reflexivity|].
  cbn [step].
  destruct (ledger (view (durable db) (open db (dispatch (length (log db))))));
    reflexivity.
Qed.

End Lookup.

(** C10. [isMigrationApplied] never throws.  It returns [false] when the
    lookup query fails, whether the server rejects it or the ledger table
    is missing, and it returns [false] when the query succeeds and the
    ledger, as the session sees it, has no row for the filename; it returns
    [true] only when the query succeeds and finds the row.  A result of
    [false] therefore does not tell an unreadable ledger from a script that
    is not applied. *)
Theorem isMigrationApplied_conflates
        (dispatch : nat -> conn) (fails : nat -> jsstring -> bool)
        (f : jsstring) (db : DB) :
  (exists b db', isMigrationApplied dispatch fails f db = (Ok b, db'))
  /\ (forall e db',
         query dispatch fails sql_lookup [f] db = (Err e, db') ->
         isMigrationApplied dispatch fails f db = (Ok false, db'))
  /\ (fails (length (log db)) sql_lookup = true ->
      fst (isMigrationApplied dispatch fails f db) = Ok false)
  /\ (ledger (viewOf db (dispatch (length (log db)))) = None ->
      fst (isMigrationApplied dispatch fails f db) = Ok false)
  /\ (forall l,
         fails (length (log db)) sql_lookup = false ->
         ledger (viewOf db (dispatch (length (log db)))) = Some l ->
         (~ In f l ->
          fst (isMigrationApplied dispatch fails f db) = Ok false) /\
         (In f l ->
          fst (isMigrationApplied dispatch fails f db) = Ok true)).
Proof.
  pose proof (lookup_answer dispatch fails f db) as A.
  destruct (isMigrationApplied_cases dispatch fails f db)
    as [(l & db' & Q & E) | (e & db' & Q & E)]; rewrite E; rewrite Q in A;
    cbn [fst] in *.
  - split; [eexists; eexists; reflexivity|].
    split; [intros e dbx H; congruence|].
    split; [intros F; rewrite F in A; discriminate|].
    split; [intros T; rewrite T in A;
            destruct (fails _ _); discriminate|].
    intros l0 F T. rewrite F, T in A. injection A as ->. split; intros H.
    + apply JSFacts.includes_not_In in H. rewrite H. reflexivity.
    + apply JSFacts.includes_In in H. rewrite H. reflexivity.
  - split; [eexists; eexists; reflexivity|].
    split; [intros e0 dbx H; congruence|].
    split; [reflexivity|]. split; [reflexivity|].
    intros l0 F T. rewrite F, T in A. discriminate.
Qed.

(* ===================================================================== *)
(** ** Running again *)
(* ===================================================================== *)

Lemma store_eq (s1 s2 : Store) :
  ledger s1 <> None -> ledger s2 <> None ->
  rows s1 = rows s2 -> effects s1 = effects s2 -> s1 = s2.
Proof.
  destruct s1 as [[l1|] e1], s2 as [[l2|] e2]; unfold rows; cbn;
    intros H1 H2 R E; try congruence.
Qed.

(** After a run that returned, every discovered script is in the ledger,
    the table exists and the client is idle. *)
Lemma after_success (fsys : FS) (c : conn) (fails : nat -> jsstring -> bool)
      (db db1 : DB) :
  open db c = None ->
  runPendingMigrations fsys (pinned c) fails db = (Ok tt, db1) ->
  open db1 c = None /\
  ledger (durable db1) <> None /\
  incl (discovered fsys) (rows (durable db1)).
Proof.
  intros Idle E. apply runPendingMigrations_idle in E; [|exact Idle].
  destruct E as [(e & E & _)
                | (a & dbm & Ha & Idlem & _ & Rm & _ & T & _ & E)];
    [discriminate|].
  destruct (runAll_ok _ _ _ _ _ _ _ Idlem E) as (Idle1 & R1 & _ & _).
  split; [exact Idle1|].
  split; [eapply runAll_keeps_table; eassumption|].
  intros f Hf. rewrite R1, Rm. apply in_or_app.
  destruct Ha as [Ha | [-> _]].
  - rewrite (pendingOf_perm _ _ _ Ha).
    destruct (JS.includes (rows (durable db)) f) eqn:I.
    + left. apply JSFacts.includes_In, I.
    + right. apply pendingOf_In. split; [exact Hf|].
      apply JSFacts.includes_not_In, I.
  - right. rewrite pendingOf_nil. exact Hf.
Qed.

(** C8, evaluated.  The run of C1, in which the pool serves the [COMMIT]
    of the unit of work from another client, returns normally and leaves
    the ledger empty.  Once the clients of that pool are closed, a second
    run over the same directory, served by one client throughout, finds
    the script pending, sends its whole unit of work and returns: the
    second run applies a script and adds its row to the ledger. *)
Theorem runPendingMigrations_applies_again :
  let db := connect emptyStore in
  let run1 := runPendingMigrations singleDir (switchesAt 6) neverFails db in
  let db1 := reconnect (snd run1) in
  let run2 := runPendingMigrations singleDir (pinned 0) neverFails db1 in
  fst run1 = Ok tt /\
  rows (durable (snd run1)) = [] /\
  durable db1 = durable (snd run1) /\
  fst run2 = Ok tt /\
  sent (snd run2) =
  sent (snd run1) ++ preamble
    ++ [(sql_begin, []);
        (JS.lit "CREATE TABLE t(x int)", []);
        (JS.lit "INSERT INTO t VALUES (1)", []);
        (sql_insert, [f001]);
        (sql_commit, [])] /\
  answers (snd run2) = repeat true 14 /\
  rows (durable (snd run2)) = [f001] /\
  effects (durable (snd run2)) =
  [JS.lit "CREATE TABLE t(x int)"; JS.lit "INSERT INTO t VALUES (1)"].
Proof. vm_compute. repeat split. Qed.

(* ===================================================================== *)
(** ** Clients of a unit of work *)
(* ===================================================================== *)

Lemma query_followsPool (dispatch : nat -> conn)
      (fails : nat -> jsstring -> bool) (t : jsstring) (ps : list jsstring) :
  preserves (followsPool dispatch) (query dispatch fails t ps).
Proof.
  intros db r db' I E. unfold followsPool in *.
  apply query_log in E. rewrite E, map_app, length_app, I. cbn [length map].
  rewrite Nat.add_1_r, seq_S, map_app. reflexivity.
Qed.

(** The engine never chooses a client: each query of a unit of work runs
    where the pool sends it. *)
Lemma runMigration_followsPool (fsys : FS) (dispatch : nat -> conn)
      (fails : nat -> jsstring -> bool) (f : jsstring) :
  preserves (followsPool dispatch) (runMigration fsys dispatch fails f).
Proof.
  apply runMigration_preserves. intros t ps. apply query_followsPool.
Qed.

(** C9, evaluated.  Each query of a unit of work runs on the client the
    pool hands out for it, and nothing in [runMigration] or [query] holds
    on to one client.  With a pool of two clients taken in turn, [BEGIN]
    opens a transaction on client 0, the first statement of the script
    runs on client 1 outside any transaction and is committed at once, the
    second statement is rejected on client 0, [ROLLBACK] reaches client 1,
    which has nothing to roll back: [runMigration] throws and the first
    statement stays applied. *)
Theorem runMigration_spans_sessions :
  (forall fsys dispatch fails f db r db',
      followsPool dispatch db ->
      runMigration fsys dispatch fails f db = (r, db') ->
      followsPool dispatch db')
  /\
  let db := connect storeAfter001 in
  let run := runMigration exampleDir alternating
               (rejects (JS.lit "UPDATE t SET y = 0")) f002 db in
  fst run = Err StatementExecutionError /\
  List.map (fun e => (on e, text e)) (log (snd run)) =
  [(0, sql_begin);
   (1, JS.lit "ALTER TABLE t ADD COLUMN y int");
   (0, JS.lit "UPDATE t SET y = 0");
   (1, sql_rollback)] /\
  answers (snd run) = [true; true; false; true] /\
  effects (durable (snd run)) =
  effects storeAfter001 ++ [JS.lit "ALTER TABLE t ADD COLUMN y int"].
Proof.
  split.
  - intros fsys dispatch fails f db r db' I E.
    eapply runMigration_followsPool; eassumption.
  - vm_compute. repeat split.
Qed.

(* ===================================================================== *)
(** ** Further properties: the ledger table and the two reads *)
(* ===================================================================== *)

Lemma initialize_eq (dispatch : nat -> conn) (fails : nat -> jsstring -> bool)
      (db : DB) :
  initialize dispatch fails db =
  match query dispatch fails sql_create [] db with
  | (Ok _, db') => (Ok tt, db')
  | (Err e, db') => (Err e, db')
  end.
Proof.
  unfold initialize, createMigrationsTable, try_catch, bind, ret, throw.
  destruct (query dispatch fails sql_create [] db) as [[rc|e] db'];
    reflexivity.
Qed.

(** X2. On one idle session, [initialize] creates the ledger table when
    it is missing and changes nothing committed when it exists: it never
    touches the ledger rows or the applied statements, it leaves the
    session idle, after it returns the table exists, and it throws only
    when the server rejects the statement, in which case the store is as
    before.  Calling it again after it returned changes nothing. *)
Theorem initialize_idempotent
        (c : conn) (fails : nat -> jsstring -> bool)
        (db db' : DB) (r : Result unit) :
  open db c = None ->
  initialize (pinned c) fails db = (r, db') ->
  open db' c = None
  /\ rows (durable db') = rows (durable db)
  /\ effects (durable db') = effects (durable db)
  /\ (ledger (durable db) <> None -> durable db' = durable db)
  /\ match r with
     | Ok _ => ledger (durable db') <> None
     | Err e =>
         e = StatementExecutionError /\ durable db' = durable db /\
         fails (length (log db)) sql_create = true
     end
  /\ (forall r2 db2,
         r = Ok tt ->
         initialize (pinned c) fails db' = (r2, db2) ->
         durable db2 = durable db').
Proof.
  assert (forall x x' rx,
             open x c = None ->
             initialize (pinned c) fails x = (rx, x') ->
             open x' c = None /\
             rows (durable x') = rows (durable x) /\
             effects (durable x') = effects (durable x) /\
             match rx with
             | Ok _ => ledger (durable x') <> None
             | Err e =>
                 e = StatementExecutionError /\ durable x' = durable x /\
                 fails (length (log x)) sql_create = true
             end) as Once.
  { intros x x' rx Idle E. rewrite initialize_eq in E.
    destruct (query (pinned c) fails sql_create [] x) as [[rc|e] x1] eqn:Q;
      injection E as <- <-;
      destruct (create_idle _ _ _ _ _ Idle Q) as (Ho & Hr & He & T);
      (split; [exact Ho|]); (split; [exact Hr|]); (split; [exact He|]);
      exact T. }
  assert (forall x x' rx,
             open x c = None -> ledger (durable x) <> None ->
             initialize (pinned c) fails x = (rx, x') ->
             durable x' = durable x) as Again.
  { intros x x' rx Idle T E.
    destruct (Once _ _ _ Idle E) as (_ & Hr & He & Hx).
    destruct rx as [u|e]; [|apply Hx].
    apply store_eq; assumption. }
  intros Idle E. destruct (Once _ _ _ Idle E) as (Ho & Hr & He & Hx).
  repeat (split; [assumption|]).
  split; [intros T; eapply Again; eassumption|].
  split; [exact Hx|].
  intros r2 db2 -> E2. eapply Again; eassumption.
Qed.

Lemma initialize_idempotent_witness :
  let db := connect emptyStore in
  let db' := snd (initialize (pinned 0) neverFails db) in
  ledger (durable db) = None /\
  ledger (durable db') = Some [] /\
  durable (snd (initialize (pinned 0) neverFails db')) = durable db'.
Proof.
  intros db db'.
  destruct (initialize_idempotent 0 neverFails db db' (Ok tt))
    as (_ & _ & _ & _ & _ & Again).
  - reflexivity.
  - vm_compute. reflexivity.
  - split; [reflexivity|]. split; [vm_compute; reflexivity|].
    eapply Again; [reflexivity | apply surjective_pairing].
Defined.

(** X3. [getMigrationFiles] never throws and never touches the database.
    What it returns is in ascending order and holds exactly the names of
    the directory that end in [.sql], each as often as the directory lists
    it; it is empty when the directory cannot be read. *)
Theorem getMigrationFiles_exact (fsys : FS) (db : DB) :
  exists l,
    getMigrationFiles fsys db = (Ok l, db) /\
    JS.ascending l /\
    (forall files,
        readdir fsys = Some files ->
        Permutation l
          (filter (fun file => JS.endsWith file (JS.lit ".sql")) files) /\
        (forall f, In f l <->
                   In f files /\ JS.endsWith f (JS.lit ".sql") = true)) /\
    (readdir fsys = None -> l = []).
Proof.
  exists (discovered fsys). split; [apply getMigrationFiles_eq|].
  split; [apply discovered_ascending|]. split.
  - intros files H. unfold discovered. rewrite H.
    split; [apply JSFacts.sort_perm|].
    intros f. split; intros Hf.
    + apply (Permutation_in f (JSFacts.sort_perm _)) in Hf.
      apply filter_In in Hf. exact Hf.
    + apply (Permutation_in f (Permutation_sym (JSFacts.sort_perm _))).
      apply filter_In. exact Hf.
  - apply discovered_unreadable.
Qed.

Section ReadsAgree.

Variable dispatch : nat -> conn.
Variable fails : nat -> jsstring -> bool.

(** What the list query answers. *)
Lemma list_answer (db : DB) :
  fst (query dispatch fails sql_list [] db) =
  if fails (length (log db)) sql_list then Err StatementExecutionError
  else match ledger (viewOf db (dispatch (length (log db)))) with
       | Some l => Ok (orderBy (collation (server db)) l)
       | None => Err StatementExecutionError
       end.
Proof.
  rewrite query_pool. unfold pool_query, viewOf.
  rewrite classify_list.
  destruct (fails (length (log db)) sql_list); [reflexivity|].
  cbn [step].
  destruct (ledger (view (durable db) (open db (dispatch (length (log db))))));
    reflexivity.
Qed.

Lemma getAppliedMigrations_answer (db : DB) :
  fst (getAppliedMigrations dispatch fails db) =
  Ok (if fails (length (log db)) sql_list then []
      else match ledger (viewOf db (dispatch (length (log db)))) with
           | Some l => orderBy (collation (server db)) l
           | None => []
           end).
Proof.
  pose proof (list_answer db) as A.
  destruct (getAppliedMigrations_cases dispatch fails db)
    as [(l & db' & Q & E) | (e & db' & Q & E)];
    rewrite E; rewrite Q in A; cbn [fst] in *;
    destruct (fails (length (log db)) sql_list); try discriminate;
    try reflexivity;
    destruct (ledger (viewOf db (dispatch (length (log db)))));
    try discriminate; try reflexivity.
  injection A as ->. reflexivity.
Qed.

Lemma isMigrationApplied_answer (f : jsstring) (db : DB) :
  fst (isMigrationApplied dispatch fails f db) =
  Ok (if fails (length (log db)) sql_lookup then false
      else match ledger (viewOf db (dispatch (length (log db)))) with
           | Some l => JS.includes l f
           | None => false
           end).
Proof.
  pose proof (lookup_answer dispatch fails f db) as A.
  destruct (isMigrationApplied_cases dispatch fails f db)
    as [(l & db' & Q & E) | (e & db' & Q & E)];
    rewrite E; rewrite Q in A; cbn [fst] in *;
    destruct (fails (length (log db)) sql_lookup); try discriminate;
    try reflexivity;
    destruct (ledger (viewOf db (dispatch (length (log db))))) as [l0|];
    try discriminate; try reflexivity.
  injection A as ->. destruct (JS.includes l0 f); reflexivity.
Qed.

End ReadsAgree.

(** X4. Whatever the pool does, [getAppliedMigrations] never throws,
    commits nothing, and sends the list query and nothing else.  When the
    server does not reject the query and the client that serves it sees
    the ledger table, the array returned holds exactly the filenames of
    the ledger as that client sees it, each as often as recorded, in the
    order that [ORDER BY] gives under the collation of the server, and no
    session has changed.  When the server rejects the query or the table
    is missing, the array is empty, and the pool closes the client that
    served the query. *)
Theorem getAppliedMigrations_exact
        (dispatch : nat -> conn) (fails : nat -> jsstring -> bool) (db : DB) :
  exists a db',
    getAppliedMigrations dispatch fails db = (Ok a, db') /\
    durable db' = durable db /\
    (forall c, open db' c = open db c
               \/ (c = dispatch (length (log db)) /\ open db' c = None)) /\
    sent db' = sent db ++ [(sql_list, [])] /\
    (forall l,
        fails (length (log db)) sql_list = false ->
        ledger (viewOf db (dispatch (length (log db)))) = Some l ->
        a = orderBy (collation (server db)) l /\
        Permutation a l /\
        (forall c, open db' c = open db c)) /\
    (fails (length (log db)) sql_list = true
     \/ ledger (viewOf db (dispatch (length (log db)))) = None ->
     a = [] /\ open db' (dispatch (length (log db))) = None).
Proof.
  pose proof (list_answer dispatch fails db) as B.
  assert ((exists le, classify (server db) sql_list [] = CListApplied le)
          \/ exists f, classify (server db) sql_list [] = CLookup f) as C
      by (left; eexists; apply classify_list).
  destruct (getAppliedMigrations_cases dispatch fails db)
    as [(l & db' & Q & E) | (e & db' & Q & E)];
    rewrite Q in B; cbn [fst] in B;
    eexists; exists db'; (split; [exact E|]);
    destruct (read_only dispatch fails sql_list [] _ _ _ C Q)
      as (Hd & Ho & Hk);
    (split; [exact Hd|]); (split; [exact Ho|]);
    (split; [apply (query_sent _ _ _ _ _ _ _ Q)|]); split.
  - intros l0 F T. rewrite F, T in B. injection B as ->.
    split; [reflexivity|]. split; [apply orderBy_perm|].
    eapply Hk. reflexivity.
  - intros [F | T]; [rewrite F in B; discriminate|].
    rewrite T in B. destruct (fails (length (log db)) sql_list);
      discriminate.
  - intros l0 F T. rewrite F, T in B. discriminate.
  - intros _. split; [reflexivity|].
    apply (query_failed _ _ _ _ _ _ _ Q).
Qed.

Lemma getAppliedMigrations_exact_witness :
  fst (getAppliedMigrations (pinned 0) neverFails (connect storeAfter001))
  = Ok [f001].
Proof.
  destruct (getAppliedMigrations_exact (pinned 0) neverFails
              (connect storeAfter001))
    as (a & db' & E & _ & _ & _ & H & _).
  destruct (H [f001]) as (Ha & _); [reflexivity | reflexivity|].
  rewrite E. cbn [fst]. rewrite Ha. reflexivity.
Defined.

(** X5. Whatever the pool does, on the same database the two reads of the
    ledger agree whenever the server treats their queries alike (rejects
    both or neither): [isMigrationApplied] returns [true] for a filename
    exactly when the array [getAppliedMigrations] returns includes it. *)
Theorem reads_agree
        (dispatch : nat -> conn) (fails : nat -> jsstring -> bool)
        (f : jsstring) (db : DB) :
  fails (length (log db)) sql_list = fails (length (log db)) sql_lookup ->
  exists a,
    fst (getAppliedMigrations dispatch fails db) = Ok a /\
    fst (isMigrationApplied dispatch fails f db) = Ok (JS.includes a f).
Proof.
  intros Same. eexists. split; [apply getAppliedMigrations_answer|].
  rewrite isMigrationApplied_answer, Same.
  destruct (fails (length (log db)) sql_lookup); [reflexivity|].
  destruct (ledger (viewOf db (dispatch (length (log db)))));
    [rewrite (includes_perm _ _ f (orderBy_perm _ _))|]; reflexivity.
Qed.

Lemma reads_agree_witness :
  let db := connect storeAfter001 in
  fst (getAppliedMigrations (pinned 0) neverFails db) = Ok [f001] /\
  fst (isMigrationApplied (pinned 0) neverFails f001 db) = Ok true /\
  fst (isMigrationApplied (pinned 0) neverFails f002 db) = Ok false.
Proof.
  intros db.
  destruct (reads_agree (pinned 0) neverFails f001 db) as (a & Ha & H1);
    [reflexivity|].
  destruct (reads_agree (pinned 0) neverFails f002 db) as (b & Hb & H2);
    [reflexivity|].
  split; [vm_compute; reflexivity|].
  split; [rewrite H1 | rewrite H2]; vm_compute in Ha, Hb |- *;
    [injection Ha as <- | injection Hb as <-]; reflexivity.
Defined.


(* ===================================================================== *)
(** ** Further properties: what a unit of work leaves behind *)
(* ===================================================================== *)

Lemma idle_view (db : DB) (c : conn) :
  open db c = None -> viewOf db c = durable db.
Proof. unfold viewOf. intros ->. reflexivity. Qed.

Lemma rows_ledger (s : Store) (l : list jsstring) :
  rows s = l -> l <> [] -> ledger s = Some l.
Proof.
  unfold rows. destruct (ledger s); intros H N; congruence.
Qed.

Lemma includes_snoc_other (l : list jsstring) (f g : jsstring) :
  g <> f -> JS.includes (l ++ [f]) g = JS.includes l g.
Proof.
  intros N. destruct (JS.includes l g) eqn:E.
  - apply JSFacts.includes_In. apply JSFacts.includes_In in E.
    apply in_or_app. left. exact E.
  - apply JSFacts.includes_not_In. apply JSFacts.includes_not_In in E.
    intros H. apply in_app_or in H. destruct H as [H | [H | []]]; auto.
Qed.

(** X6. On one idle session, recording and looking up go together: before
    a unit of work that goes through, [isMigrationApplied] returns [false]
    for its filename; after it, when the server does not reject the
    lookup, it returns [true]; and for every other filename the answer is
    what the ledger held before. *)
Theorem recorded_then_found
        (fsys : FS) (c : conn) (fails : nat -> jsstring -> bool)
        (f : jsstring) (db db' : DB) :
  open db c = None ->
  runMigration fsys (pinned c) fails f db = (Ok tt, db') ->
  fails (length (log db')) sql_lookup = false ->
  fst (isMigrationApplied (pinned c) fails f db) = Ok false
  /\ fst (isMigrationApplied (pinned c) fails f db') = Ok true
  /\ (forall g, g <> f ->
                fst (isMigrationApplied (pinned c) fails g db')
                = Ok (JS.includes (rows (durable db)) g)).
Proof.
  intros Idle E NF.
  pose proof (runMigration_rows fsys c fails f db db' _ Idle E) as R.
  cbn in R. destruct R as (Idle' & New & R).
  assert (ledger (durable db') = Some (rows (durable db) ++ [f])) as L.
  { apply rows_ledger; [exact R|]. destruct (rows (durable db)); discriminate. }
  split; [|split].
  - rewrite isMigrationApplied_answer. unfold pinned.
    rewrite (idle_view db c Idle).
    destruct (fails (length (log db)) sql_lookup); [reflexivity|].
    unfold rows in New. destruct (ledger (durable db)); [|reflexivity].
    apply JSFacts.includes_not_In in New. rewrite New. reflexivity.
  - rewrite isMigrationApplied_answer, NF. unfold pinned.
    rewrite (idle_view db' c Idle'), L.
    assert (JS.includes (rows (durable db) ++ [f]) f = true) as ->;
      [|reflexivity].
    apply JSFacts.includes_In, in_or_app. right. left. reflexivity.
  - intros g N. rewrite isMigrationApplied_answer, NF. unfold pinned.
    rewrite (idle_view db' c Idle'), L, (includes_snoc_other _ _ _ N).
    reflexivity.
Qed.

Lemma recorded_then_found_witness :
  let db := connect storeAfter001 in
  let db' := snd (runMigration exampleDir (pinned 0) neverFails f002 db) in
  fst (isMigrationApplied (pinned 0) neverFails f002 db) = Ok false /\
  fst (isMigrationApplied (pinned 0) neverFails f002 db') = Ok true.
Proof.
  intros db db'.
  destruct (recorded_then_found exampleDir 0 neverFails f002 db db')
    as (H1 & H2 & _).
  - reflexivity.
  - vm_compute. reflexivity.
  - reflexivity.
  - split; assumption.
Defined.

(** X7. On one idle session, every exit of [runPendingMigrations] leaves
    the session outside any transaction, whether it returns or throws,
    whatever the scripts contain and whatever the server rejects: each
    [BEGIN] is followed by a [COMMIT] or a [ROLLBACK] on every path, and
    the pool closes the client of a query that failed. *)
Theorem run_closes_transaction
        (fsys : FS) (c : conn) (fails : nat -> jsstring -> bool)
        (db db' : DB) (r : Result unit) :
  open db c = None ->
  runPendingMigrations fsys (pinned c) fails db = (r, db') ->
  open db' c = None.
Proof.
  intros Idle E. apply runPendingMigrations_idle in E; [|exact Idle].
  destruct E as [(e & _ & _ & Ho & _)
                | (a & db2 & _ & Idle2 & _ & _ & _ & _ & _ & E)].
  - exact Ho.
  - eapply runAll_idle; eassumption.
Qed.

Lemma run_closes_transaction_witness :
  let db := connect emptyStore in
  let run := runPendingMigrations selfCommittingDir (pinned 0)
               (rejects (JS.lit "INSERT INTO u VALUES (1)")) db in
  fst run = Err StatementExecutionError /\ open (snd run) 0 = None.
Proof.
  intros db run. split; [vm_compute; reflexivity|].
  apply (run_closes_transaction selfCommittingDir 0
           (rejects (JS.lit "INSERT INTO u VALUES (1)")) db (snd run)
           (fst run)).
  - reflexivity.
  - apply surjective_pairing.
Defined.

(* ===================================================================== *)
(** ** Further properties: runs that go through *)
(* ===================================================================== *)

Lemma forallb_impl {A : Type} (p q : A -> bool) (l : list A) :
  (forall x, p x = true -> q x = true) ->
  forallb p l = true -> forallb q l = true.
Proof.
  intros H. rewrite !forallb_forall. intros K x Hx. apply H, K, Hx.
Qed.

(** What the server has no reason to refuse, it does not refuse, once the
    ledger table exists. *)
Lemma step_acceptable (srv : Server) (s : jsstring) (d : Store)
      (t : Session) :
  acceptable srv s = true -> ledger d <> None ->
  exists x d' t', step (classify srv s []) d t = (Ok x, (d', t')).
Proof.
  intros A T. unfold acceptable in A.
  pose proof (classify_nil srv s) as N.
  destruct (classify srv s []) eqn:C; try discriminate; cbn [step].
  - eauto.
  - eauto.
  - eauto.
  - destruct (push MkTable d t) as [d' t']. eauto.
  - destruct (ledger (view d t)) eqn:L; [eauto|].
    exfalso. exact (view_keeps_table d t T L).
  - exfalso. exact (proj2 (N filename) eq_refl).
  - exfalso. exact (proj1 (N filename) eq_refl).
  - destruct (push (Effect statement) d t) as [d' t']. eauto.
Qed.

Section GoesThrough.

Variable fsys : FS.
Variable c : conn.
Variable fails : nat -> jsstring -> bool.
Hypothesis accepts : forall n t, fails n t = false.

Lemma query_accepted (t : jsstring) (ps : list jsstring) (db db' : DB)
      (r : Result (list jsstring)) :
  query (pinned c) fails t ps db = (r, db') ->
  server db' = server db /\
  exists s,
    step (classify (server db) t ps) (durable db) (open db c)
    = (r, (durable db', s)) /\
    open db' c = released r s.
Proof.
  intros Q. apply query_inv in Q.
  destruct Q as (_ & Hs & _ & [(F & _) | (_ & s & S & Ho)]);
    [rewrite accepts in F; discriminate|].
  split; [exact Hs|]. exists s. auto.
Qed.

(** Statements that the server has no reason to refuse all go through. *)
Lemma executeStatements_returns (srv : Server) (stmts : list jsstring) :
  (forall s, In s stmts -> acceptable srv s = true) ->
  (forall s, In s stmts -> JS.truthy (JS.trim s) = true) ->
  forall db,
    server db = srv ->
    ledger (durable db) <> None ->
    exists db',
      executeStatements (pinned c) fails stmts db = (Ok tt, db') /\
      server db' = srv /\
      ledger (durable db') <> None.
Proof.
  unfold executeStatements.
  induction stmts as [|s stmts IH]; intros A Tr db Hs T.
  - exists db. cbn. auto.
  - cbn [forEach]. rewrite (Tr s (or_introl eq_refl)).
    unfold bind at 1. unfold bind at 1.
    destruct (query (pinned c) fails s [] db) as [rs db1] eqn:Q.
    destruct (query_accepted _ _ _ _ _ Q) as (Hs1 & s0 & S & _).
    destruct (step_acceptable srv s (durable db) (open db c)
                (A s (or_introl eq_refl)) T) as (x & d' & t' & S').
    rewrite Hs, S' in S. injection S as <- Hd _. unfold ret at 1.
    apply IH.
    + intros y Hy. apply A. right. exact Hy.
    + intros y Hy. apply Tr. right. exact Hy.
    + congruence.
    + rewrite <- Hd. eapply step_keeps_table; eassumption.
Qed.

(** A unit of work that nothing stops returns. *)
Lemma runMigration_returns (f txt : jsstring) (db : DB) :
  open db c = None ->
  readFile fsys f = Some txt ->
  forallb (acceptable (server db)) (statementsOf txt) = true ->
  ledger (durable db) <> None ->
  ~ In f (rows (durable db)) ->
  exists db', runMigration fsys (pinned c) fails f db = (Ok tt, db').
Proof.
  intros Idle Hr A T New.
  pose proof (idle_rowsAre c db Idle) as I0.
  set (R := rows (durable db)) in *. set (srv := server db) in *.
  unfold runMigration, try_catch, bind, fs_readFile. rewrite Hr. unfold ret.
  destruct (query (pinned c) fails sql_begin [] db) as [rb db1] eqn:Qb.
  pose proof (begin_rowsAre c fails srv R _ _ _ I0 Qb) as I1.
  pose proof (query_keeps_table _ _ _ _ _ _ _ T Qb) as T1.
  destruct (query_accepted _ _ _ _ _ Qb) as (Hs1 & s1 & Sb & _).
  rewrite classify_begin in Sb. cbn [step] in Sb. injection Sb as <- _ _.
  unfold applyScript, bind, ret.
  rewrite forallb_forall in A.
  destruct (executeStatements_returns srv (statementsOf txt) A
              (statement_truthy txt) db1 Hs1 T1) as (db2 & Es & Hs2 & T2).
  rewrite Es.
  pose proof (executeStatements_rowsAre c fails srv R _ _ _ _ I1 Es) as I2.
  destruct (query (pinned c) fails sql_insert [f] db2) as [ri db3] eqn:Qi.
  pose proof (insert_rowsAre c fails srv R f _ _ _ I2 Qi) as I3.
  destruct (query_accepted _ _ _ _ _ Qi) as (Hs3 & s3 & Si & _).
  rewrite classify_insert in Si. cbn [step] in Si.
  destruct I2 as [_ [_ V2]].
  destruct (ledger (view (durable db2) (open db2 c))) as [l|] eqn:L;
    [|exfalso; exact (view_keeps_table _ _ T2 L)].
  assert (l = R) as -> by (unfold rows in V2; rewrite L in V2; exact V2).
  assert (JS.includes R f = false) as Inc
      by (apply JSFacts.includes_not_In, New).
  rewrite Inc in Si.
  destruct (push (AddRow f) (durable db2) (open db2 c)) as [d3 t3].
  injection Si as <- _ _.
  destruct (query (pinned c) fails sql_commit [] db3) as [rc db4] eqn:Qc.
  destruct (query_accepted _ _ _ _ _ Qc) as (_ & s4 & Sc & _).
  rewrite classify_commit in Sc. cbn [step] in Sc. injection Sc as <- _ _.
  exists db4. reflexivity.
Qed.

(** What a unit of work that nothing stops leaves behind. *)
Lemma runMigration_goes_through (f txt : jsstring) (db : DB) :
  open db c = None ->
  readFile fsys f = Some txt ->
  forallb (acceptable (server db)) (statementsOf txt) = true ->
  ledger (durable db) <> None ->
  ~ In f (rows (durable db)) ->
  exists db',
    runMigration fsys (pinned c) fails f db = (Ok tt, db') /\
    open db' c = None /\
    server db' = server db /\
    ledger (durable db') <> None /\
    rows (durable db') = rows (durable db) ++ [f].
Proof.
  intros Idle Hr A T New.
  destruct (runMigration_returns f txt db Idle Hr A T New) as (db' & E).
  exists db'. split; [exact E|].
  destruct (runMigration_rows fsys c fails f db db' _ Idle E)
    as (Idle' & _ & R).
  split; [exact Idle'|]. split; [eapply runMigration_server; exact E|].
  split; [|exact R].
  exact (runMigration_preserves fsys (pinned c) fails
           (fun x => ledger (durable x) <> None) f
           (query_keeps_table (pinned c) fails) db _ db' T E).
Qed.

Lemma runAll_goes_through (l : list jsstring) :
  NoDup l ->
  forall db,
    (forall f, In f l ->
               exists txt, readFile fsys f = Some txt /\
                           forallb (acceptable (server db)) (statementsOf txt)
                           = true) ->
    open db c = None ->
    ledger (durable db) <> None ->
    (forall f, In f l -> ~ In f (rows (durable db))) ->
    exists db',
      forEach (runMigration fsys (pinned c) fails) l db = (Ok tt, db') /\
      open db' c = None /\
      rows (durable db') = rows (durable db) ++ l.
Proof.
  induction l as [|f l IH]; intros ND db Rd Idle T New.
  - exists db. cbn. rewrite !app_nil_r. auto.
  - inversion ND as [|? ? Nf NDl]; subst.
    destruct (Rd f (or_introl eq_refl)) as (txt & Hr & A).
    destruct (runMigration_goes_through f txt db Idle Hr A T
                (New f (or_introl eq_refl)))
      as (db1 & E1 & Idle1 & Hs1 & T1 & R1).
    destruct (IH NDl db1) as (db' & E & Idle' & R'); try assumption.
    { intros g Hg. rewrite Hs1. apply Rd. right. exact Hg. }
    { intros g Hg. rewrite R1. intros H. apply in_app_or in H.
      destruct H as [H | [<- | []]]; [|exact (Nf Hg)].
      exact (New g (or_intror Hg) H). }
    exists db'. cbn [forEach]. unfold bind. rewrite E1.
    split; [exact E|]. split; [exact Idle'|].
    rewrite R', R1, <- app_assoc. reflexivity.
Qed.

(** A run that nothing stops. *)
Lemma run_goes_through (db : DB) :
  open db c = None ->
  NoDup (discovered fsys) ->
  (forall f, In f (discovered fsys) ->
             exists txt, readFile fsys f = Some txt /\
                         forallb (acceptable (server db)) (statementsOf txt)
                         = true) ->
  exists a db2 db',
    Permutation a (rows (durable db)) /\
    open db2 c = None /\ server db2 = server db /\
    effects (durable db2) = effects (durable db) /\
    forEach (runMigration fsys (pinned c) fails)
            (pendingOf (rows (durable db)) (discovered fsys)) db2
    = (Ok tt, db') /\
    runPendingMigrations fsys (pinned c) fails db = (Ok tt, db') /\
    open db' c = None /\
    rows (durable db') =
    rows (durable db) ++ pendingOf (rows (durable db)) (discovered fsys).
Proof.
  intros Idle ND Rd.
  destruct (runPendingMigrations fsys (pinned c) fails db) as [r db'] eqn:E.
  apply runPendingMigrations_idle in E; [|exact Idle].
  destruct E as [(e & _ & _ & _ & _ & _ & F)
                | (a & db2 & Ha & Idle2 & Hs2 & R2 & E2 & T2 & _ & E)].
  { rewrite accepts in F. discriminate. }
  destruct Ha as [Ha | [_ F]]; [|rewrite accepts in F; discriminate].
  rewrite (pendingOf_perm _ _ _ Ha) in E.
  destruct (runAll_goes_through
              (pendingOf (rows (durable db)) (discovered fsys)))
    with (db := db2) as (dbx & Ex & Idlex & Rx).
  - apply NoDup_filter, ND.
  - intros f Hf. rewrite Hs2. apply Rd. apply pendingOf_In in Hf. apply Hf.
  - exact Idle2.
  - exact T2.
  - intros f Hf. rewrite R2. apply pendingOf_In in Hf. apply Hf.
  - rewrite Ex in E. injection E as <- <-. exists a, db2, dbx.
    rewrite R2 in Rx. auto 10.
Qed.

(** A unit of work for a filename that is recorded already. *)
Lemma runMigration_duplicate (f txt : jsstring) (db : DB) :
  open db c = None ->
  readFile fsys f = Some txt ->
  forallb (ordinary (server db)) (statementsOf txt) = true ->
  In f (rows (durable db)) ->
  exists db',
    runMigration fsys (pinned c) fails f db = (Err DuplicateEntryError, db') /\
    durable db' = durable db /\
    open db' c = None /\
    sent db' =
    sent db ++ interrupted txt (length (statementsOf txt))
                           [(sql_insert, [f])] /\
    answers db' =
    answers db ++ repeat true (S (length (statementsOf txt))) ++ [false; true].
Proof.
  intros Idle Hr Pl Old.
  destruct (ledger (durable db)) as [R|] eqn:L;
    [|unfold rows in Old; rewrite L in Old; destruct Old].
  assert (JS.includes R f = true) as Inc.
  { apply JSFacts.includes_In. unfold rows in Old. rewrite L in Old.
    exact Old. }
  assert (ledger (durable db) <> None) as T by congruence.
  unfold runMigration, try_catch, bind, fs_readFile. rewrite Hr. unfold ret.
  destruct (query (pinned c) fails sql_begin [] db) as [rb db1] eqn:Qb.
  pose proof (query_sent _ _ _ _ _ _ _ Qb) as Sb.
  pose proof (query_answers _ _ _ _ _ _ _ Qb) as Ab.
  pose proof (query_keeps_table _ _ _ _ _ _ _ T Qb) as T1.
  destruct (query_accepted _ _ _ _ _ Qb) as (Hs1 & s1 & Eb & Ho1).
  rewrite classify_begin, Idle in Eb. cbn [step] in Eb.
  injection Eb as <- Hd1 <-. cbn in Ho1, Ab.
  unfold applyScript, bind, ret.
  destruct (executeStatements_returns (server db) (statementsOf txt))
    with (db := db1) as (db2 & Es & Hs2 & T2);
    [ intros s Hs; rewrite forallb_forall in Pl;
      apply ordinary_acceptable, Pl, Hs
    | apply statement_truthy | exact Hs1 | exact T1 |].
  rewrite Es.
  destruct (executeStatements_ordinary c fails (server db) (statementsOf txt)
              Pl (statement_truthy txt) db1 [] db2 Hs1 Ho1 Es)
    as (_ & Hd2 & Ho2).
  cbn [app] in Ho2.
  pose proof (executeStatements_sent _ _ _ _ _ _ (statement_truthy txt) Es)
    as [Ss As]. cbn in Ss, As.
  destruct (query (pinned c) fails sql_insert [f] db2) as [ri db3] eqn:Qi.
  pose proof (query_sent _ _ _ _ _ _ _ Qi) as Si.
  pose proof (query_answers _ _ _ _ _ _ _ Qi) as Ai.
  destruct (query_accepted _ _ _ _ _ Qi) as (Hs3 & s3 & Ei & Ho3).
  rewrite classify_insert, Ho2, Hd2, <- Hd1 in Ei.
  cbn [step view] in Ei. rewrite replay_effects in Ei. cbn [ledger] in Ei.
  rewrite L, Inc in Ei. injection Ei as <- Hd3 _. cbn in Ho3, Ai.
  destruct (query (pinned c) fails sql_rollback [] db3) as [rr db4] eqn:Qr.
  pose proof (query_sent _ _ _ _ _ _ _ Qr) as Sr.
  pose proof (query_answers _ _ _ _ _ _ _ Qr) as Ar.
  destruct (query_accepted _ _ _ _ _ Qr) as (_ & s4 & Er & Ho4).
  rewrite classify_rollback in Er. cbn [step] in Er.
  injection Er as <- Hd4 <-. cbn in Ho4, Ar. unfold throw.
  exists db4. split; [reflexivity|]. split; [congruence|].
  split; [exact Ho4|]. split.
  - unfold interrupted. rewrite firstn_all, Sr, Si, Ss, Sb, <- !app_assoc.
    reflexivity.
  - rewrite Ar, Ai, As, Ab, <- !app_assoc. reflexivity.
Qed.

End GoesThrough.

(** X9. On one idle session, when the server rejects nothing, a unit of
    work for a readable script whose statements the server reads as
    ordinary, and whose filename the existing ledger lacks, returns
    normally; it commits the statements of the script, all of them, once
    each and in order, after what was there, and the ledger row of the
    filename after the rows that were there; and it leaves the session
    idle. *)
Theorem runMigration_commits
        (fsys : FS) (c : conn) (fails : nat -> jsstring -> bool)
        (f txt : jsstring) (db : DB) :
  (forall n t, fails n t = false) ->
  open db c = None ->
  readFile fsys f = Some txt ->
  forallb (ordinary (server db)) (statementsOf txt) = true ->
  ledger (durable db) <> None ->
  ~ In f (rows (durable db)) ->
  exists db',
    runMigration fsys (pinned c) fails f db = (Ok tt, db') /\
    open db' c = None /\
    rows (durable db') = rows (durable db) ++ [f] /\
    effects (durable db') = effects (durable db) ++ statementsOf txt.
Proof.
  intros A Idle Hr Pl T New.
  destruct (runMigration_goes_through fsys c fails A f txt db Idle Hr)
    as (db' & E & Idle' & _ & _ & R); try assumption.
  { revert Pl. apply forallb_impl. apply ordinary_acceptable. }
  exists db'. split; [exact E|]. split; [exact Idle'|]. split; [exact R|].
  exact (runMigration_effects fsys c fails f txt db db' tt Idle Hr Pl E).
Qed.

Lemma runMigration_commits_witness :
  exists db',
    runMigration exampleDir (pinned 0) neverFails f002
                 (connect storeAfter001) = (Ok tt, db') /\
    rows (durable db') = [f001; f002] /\
    effects (durable db') =
    effects storeAfter001 ++
    [JS.lit "ALTER TABLE t ADD COLUMN y int"; JS.lit "UPDATE t SET y = 0"].
Proof.
  destruct (runMigration_commits exampleDir 0 neverFails f002
              (JS.lit "ALTER TABLE t ADD COLUMN y int; UPDATE t SET y = 0;")
              (connect storeAfter001))
    as (db' & E & _ & R & F).
  - intros n t. reflexivity.
  - reflexivity.
  - reflexivity.
  - vm_compute. reflexivity.
  - discriminate.
  - vm_compute. intros [H | []]. discriminate.
  - exists db'. split; [exact E|]. split; [exact R | exact F].
Defined.

(** X10. On one idle session, when the server rejects nothing, the names
    of the directory are distinct and every discovered script is readable
    and made of statements that the server reads as ordinary,
    [runPendingMigrations] returns normally: it records the discovered
    scripts that the ledger lacked, in ascending order after the rows that
    were there, and commits their statements in that same order after what
    was there. *)
Theorem run_applies_all
        (fsys : FS) (c : conn) (fails : nat -> jsstring -> bool) (db : DB) :
  (forall n t, fails n t = false) ->
  open db c = None ->
  NoDup (discovered fsys) ->
  (forall f, In f (discovered fsys) ->
             exists txt, readFile fsys f = Some txt /\
                         forallb (ordinary (server db)) (statementsOf txt)
                         = true) ->
  exists db',
    runPendingMigrations fsys (pinned c) fails db = (Ok tt, db') /\
    open db' c = None /\
    rows (durable db') =
    rows (durable db) ++ pendingOf (rows (durable db)) (discovered fsys) /\
    effects (durable db') =
    effects (durable db)
    ++ statementsOfAll fsys (pendingOf (rows (durable db)) (discovered fsys)).
Proof.
  intros A Idle ND Rd.
  destruct (run_goes_through fsys c fails A db Idle ND)
    as (a & db2 & db' & _ & Idle2 & Hs2 & F2 & El & E & Idle' & R).
  { intros f Hf. destruct (Rd f Hf) as (txt & Hr & Pl). exists txt.
    split; [exact Hr|]. revert Pl. apply forallb_impl.
    apply ordinary_acceptable. }
  exists db'. split; [exact E|]. split; [exact Idle'|]. split; [exact R|].
  rewrite <- F2. apply (runAll_effects fsys c fails _ db2 db' tt Idle2);
    [|exact El].
  apply forallb_forall. intros f Hf. apply pendingOf_In in Hf.
  destruct (Rd f (proj1 Hf)) as (txt & Hr & Pl).
  unfold ordinaryScript. rewrite Hr, Hs2. exact Pl.
Qed.

Lemma run_applies_all_witness :
  exists db',
    runPendingMigrations exampleDir (pinned 0) neverFails
                         (connect emptyStore) = (Ok tt, db') /\
    rows (durable db') = [f001; f002] /\
    effects (durable db') =
    [JS.lit "CREATE TABLE t(x int)"; JS.lit "INSERT INTO t VALUES (1)";
     JS.lit "ALTER TABLE t ADD COLUMN y int"; JS.lit "UPDATE t SET y = 0"].
Proof.
  destruct (run_applies_all exampleDir 0 neverFails (connect emptyStore))
    as (db' & E & _ & R & F).
  - intros n t. reflexivity.
  - reflexivity.
  - vm_compute. repeat constructor; cbn; intuition discriminate.
  - intros f Hf. vm_compute in Hf.
    destruct Hf as [<- | [<- | []]]; eexists; split; reflexivity.
  - exists db'. split; [exact E|]. split; [exact R | exact F].
Defined.

(* ===================================================================== *)
(** ** Further properties: scripts and their statements *)
(* ===================================================================== *)

Lemma split_In (sep : N) (s piece : jsstring) (ch : N) :
  In piece (JS.split sep s) -> In ch piece -> In ch s.
Proof.
  revert piece. induction s as [|x s IH]; cbn [JS.split]; intros piece Hp Hc.
  - destruct Hp as [<- | []]. exact Hc.
  - destruct (N.eqb x sep).
    + destruct Hp as [<- | Hp]; [destruct Hc|]. right. eapply IH; eassumption.
    + pose proof (JSFacts.split_not_nil sep s) as NN.
      destruct (JS.split sep s) as [|p ps]; [congruence|].
      destruct Hp as [<- | Hp].
      * destruct Hc as [<- | Hc]; [left; reflexivity|].
        right. apply (IH p); [left; reflexivity | exact Hc].
      * right. apply (IH piece); [right; exact Hp | exact Hc].
Qed.

Lemma split_covers (sep : N) (s : jsstring) (ch : N) :
  In ch s -> ch <> sep ->
  exists piece, In piece (JS.split sep s) /\ In ch piece.
Proof.
  intros Hc N. induction s as [|x s IH]; [destruct Hc|].
  cbn [JS.split]. destruct (N.eqb x sep) eqn:E.
  - apply N.eqb_eq in E. subst x.
    destruct Hc as [<- | Hc]; [congruence|].
    destruct (IH Hc) as (piece & Hp & Hi). exists piece. split; [right|]; auto.
  - pose proof (JSFacts.split_not_nil sep s) as NN.
    destruct (JS.split sep s) as [|p ps] eqn:Sp; [congruence|].
    destruct Hc as [<- | Hc].
    + exists (x :: p). split; left; reflexivity.
    + destruct (IH Hc) as (piece & [<- | Hp] & Hi).
      * exists (x :: p). split; [left; reflexivity | right; exact Hi].
      * exists piece. split; [right; exact Hp | exact Hi].
Qed.

Lemma trimStart_blank (s : jsstring) :
  (forall ch, In ch s -> JS.isWhiteSpace ch = true) -> JS.trimStart s = [].
Proof.
  induction s as [|x s IH]; intros H; cbn [JS.trimStart]; [reflexivity|].
  rewrite (H x (or_introl eq_refl)). apply IH. intros ch Hc. apply H.
  right. exact Hc.
Qed.

Lemma trimStart_keeps (s : jsstring) (ch : N) :
  In ch s -> JS.isWhiteSpace ch = false -> In ch (JS.trimStart s).
Proof.
  intros Hc W. induction s as [|x s IH]; [destruct Hc|].
  cbn [JS.trimStart]. destruct (JS.isWhiteSpace x) eqn:E; [|exact Hc].
  destruct Hc as [<- | Hc]; [congruence | apply IH, Hc].
Qed.

Lemma trim_keeps (s : jsstring) (ch : N) :
  In ch s -> JS.isWhiteSpace ch = false -> In ch (JS.trim s).
Proof.
  intros Hc W. unfold JS.trim, JS.trimEnd.
  apply in_rev. rewrite rev_involutive.
  apply trimStart_keeps; [|exact W]. apply -> in_rev.
  apply trimStart_keeps; assumption.
Qed.

Lemma statementsOf_blank (txt : jsstring) :
  statementsOf txt = [] <->
  (forall ch, In ch txt -> ch = 59%N \/ JS.isWhiteSpace ch = true).
Proof.
  split.
  - intros E ch Hc. destruct (N.eq_dec ch 59) as [-> | N]; [left; reflexivity|].
    right. destruct (JS.isWhiteSpace ch) eqn:W; [reflexivity|]. exfalso.
    destruct (split_covers 59%N txt ch Hc N) as (piece & Hp & Hi).
    pose proof (trim_keeps piece ch Hi W) as Hk.
    assert (In (JS.trim piece) (statementsOf txt)) as Hs.
    { apply statementsOf_In. exists piece. repeat split; [exact Hp|].
      intros Z. rewrite Z in Hk. destruct Hk. }
    rewrite E in Hs. destruct Hs.
  - intros B. destruct (statementsOf txt) as [|s l] eqn:E; [reflexivity|].
    exfalso. assert (In s (statementsOf txt)) as Hs
        by (rewrite E; left; reflexivity).
    apply statementsOf_In in Hs. destruct Hs as (piece & Hp & -> & NE).
    apply NE. unfold JS.trim. rewrite trimStart_blank; [reflexivity|].
    intros ch Hc. destruct (B ch (split_In 59%N txt piece ch Hp Hc))
      as [-> | W]; [|exact W].
    exfalso. exact (JSFacts.split_no_sep 59%N txt piece Hp Hc).
Qed.

(** X11. A script has no statement exactly when its text holds nothing
    but white space and semicolons.  For such a script, whatever the pool
    does, a unit of work that returns has sent [BEGIN], the ledger insert
    and [COMMIT] and nothing between them: the script is recorded as
    applied although it applied nothing. *)
Theorem blank_script_is_recorded (txt : jsstring) :
  (statementsOf txt = [] <->
   (forall ch, In ch txt -> ch = 59%N \/ JS.isWhiteSpace ch = true))
  /\
  (forall fsys dispatch fails f db db' u,
      (forall ch, In ch txt -> ch = 59%N \/ JS.isWhiteSpace ch = true) ->
      readFile fsys f = Some txt ->
      runMigration fsys dispatch fails f db = (Ok u, db') ->
      sent db' =
      sent db ++ [(sql_begin, []); (sql_insert, [f]); (sql_commit, [])]).
Proof.
  split; [apply statementsOf_blank|].
  intros fsys dispatch fails f db db' u B Hr E.
  apply runMigration_sent_ok in E. destruct E as (txt' & Hr' & E & _).
  assert (txt' = txt) as -> by congruence.
  rewrite E. unfold unitOfWork.
  rewrite (proj2 (statementsOf_blank txt) B). reflexivity.
Qed.

Lemma split_app_sep (sep : N) (a b : jsstring) :
  ~ In sep a -> JS.split sep (a ++ sep :: b) = a :: JS.split sep b.
Proof.
  induction a as [|x a IH]; intros H; cbn [app JS.split].
  - rewrite N.eqb_refl. reflexivity.
  - destruct (N.eqb x sep) eqn:E.
    + apply N.eqb_eq in E. exfalso. apply H. left. exact E.
    + rewrite IH; [reflexivity|]. intros Hi. apply H. right. exact Hi.
Qed.

Lemma statements_after_newline (stmts : list jsstring) :
  (forall s, In s stmts -> s <> [] /\ JS.trim s = s /\ ~ In 59%N s) ->
  filter (fun stmt => 0 <? length stmt)
         (List.map JS.trim (JS.split 59%N (10%N :: scriptOf stmts)))
  = stmts.
Proof.
  induction stmts as [|s stmts IH]; intros H; [reflexivity|].
  destruct (H s (or_introl eq_refl)) as (NE & Tr & NS).
  cbn [scriptOf flat_map].
  change (10%N :: (s ++ [59%N; 10%N]) ++ flat_map
            (fun statement => statement ++ [59%N; 10%N]) stmts)
    with (10%N :: (s ++ [59%N; 10%N]) ++ scriptOf stmts).
  rewrite <- app_assoc. cbn [app].
  change (10%N :: s ++ 59%N :: 10%N :: scriptOf stmts)
    with ((10%N :: s) ++ 59%N :: 10%N :: scriptOf stmts).
  rewrite split_app_sep.
  2:{ intros [Hx | Hx]; [discriminate | exact (NS Hx)]. }
  cbn [List.map filter].
  change (JS.trim (10%N :: s)) with (JS.trim s). rewrite Tr.
  destruct s as [|x s]; [congruence|]. cbn [length Nat.ltb Nat.leb].
  f_equal. apply IH. intros y Hy. apply H. right. exact Hy.
Qed.

(** X12. Splitting gives back what was written: for statements that are
    not empty, have no white space around them and hold no semicolon, the
    script written one statement per line, each ended by a semicolon, is
    split by [runMigration] into exactly those statements, in order. *)
Theorem statementsOf_scriptOf (stmts : list jsstring) :
  (forall s, In s stmts -> s <> [] /\ JS.trim s = s /\ ~ In 59%N s) ->
  statementsOf (scriptOf stmts) = stmts.
Proof.
  intros H. destruct stmts as [|s stmts]; [reflexivity|].
  destruct (H s (or_introl eq_refl)) as (NE & Tr & NS).
  unfold statementsOf. cbn [scriptOf flat_map].
  change (flat_map (fun statement => statement ++ [59%N; 10%N]) stmts)
    with (scriptOf stmts).
  rewrite <- app_assoc. cbn [app]. rewrite split_app_sep; [|exact NS].
  cbn [List.map filter]. rewrite Tr.
  destruct s as [|x s]; [congruence|]. cbn [length Nat.ltb Nat.leb].
  f_equal. apply statements_after_newline.
  intros y Hy. apply H. right. exact Hy.
Qed.

Lemma statementsOf_scriptOf_witness :
  statementsOf (scriptOf [JS.lit "CREATE TABLE t(x int)";
                          JS.lit "INSERT INTO t VALUES (1)"])
  = [JS.lit "CREATE TABLE t(x int)"; JS.lit "INSERT INTO t VALUES (1)"].
Proof.
  apply statementsOf_scriptOf.
  intros s [<- | [<- | []]]; (split; [discriminate|]);
    (split; [vm_compute; reflexivity|]); vm_compute; intuition discriminate.
Defined.

(* ===================================================================== *)
(** ** Further properties: failed reads, failed runs, and the status *)
(* ===================================================================== *)

(** X13. On one idle session, when the server accepts the statement that
    ensures the table but rejects the list query, and some discovered
    script is already in the ledger, [runPendingMigrations] never returns
    normally: the empty array that [getAppliedMigrations] returns makes
    every discovered script pending, and the run throws. *)
Theorem unreadable_ledger_fails_the_run
        (fsys : FS) (c : conn) (fails : nat -> jsstring -> bool)
        (db db' : DB) (r : Result unit) :
  open db c = None ->
  fails (length (log db)) sql_create = false ->
  fails (S (length (log db))) sql_list = true ->
  (exists f, In f (discovered fsys) /\ In f (rows (durable db))) ->
  runPendingMigrations fsys (pinned c) fails db = (r, db') ->
  exists e, r = Err e.
Proof.
  intros Idle Fc Fl (f & HN & HR) E.
  destruct r as [u|e]; [exfalso | exists e; reflexivity].
  apply runPendingMigrations_cases in E.
  destruct E as [(e & _ & E) | (rc & db1 & a & db2 & Ec & Ea & E)];
    [discriminate|].
  destruct (create_idle _ _ _ _ _ Idle Ec) as (Idle1 & R1 & _).
  destruct (getAppliedMigrations_idle _ _ _ _ _ Idle1 Ea) as (Idle2 & D2 & _).
  pose proof (getAppliedMigrations_answer (pinned c) fails db1) as A.
  rewrite Ea in A. cbn [fst] in A.
  assert (length (log db1) = S (length (log db))) as L.
  { apply query_log in Ec. rewrite Ec, length_app. cbn. lia. }
  rewrite L, Fl in A. injection A as ->. rewrite pendingOf_nil in E.
  destruct u. destruct (runAll_ok _ _ _ _ _ _ _ Idle2 E) as (_ & _ & New & _).
  apply (New f HN). rewrite D2, R1. exact HR.
Qed.

Lemma unreadable_ledger_fails_the_run_witness :
  let fails := rejectsBoth sql_list (JS.lit "CREATE TABLE t(x int)") in
  let run := runPendingMigrations exampleDir (pinned 0) fails
               (connect storeAfter001) in
  fst run = Err StatementExecutionError /\
  durable (snd run) = storeAfter001.
Proof.
  intros fails run.
  destruct (unreadable_ledger_fails_the_run exampleDir 0 fails
              (connect storeAfter001) (snd run) (fst run)) as (e & He).
  - reflexivity.
  - reflexivity.
  - reflexivity.
  - exists f001. split; [vm_compute; auto | left; reflexivity].
  - apply surjective_pairing.
  - vm_compute. split; reflexivity.
Defined.



(** X15. Whatever the pool does, the status that [getStatus] returns adds
    up as follows: the pending array is in ascending order and holds the
    discovered scripts that the applied array lacks, so [pending] is at
    most [total], and [total] is [pending] plus the number of discovered
    scripts that are applied.  [applied + pending = total] holds when the
    applied filenames are distinct and all among the distinct discovered
    ones; a ledger row for a file that is gone breaks it. *)
Theorem getStatus_counts
        (fsys : FS) (dispatch : nat -> conn) (fails : nat -> jsstring -> bool)
        (db db' : DB) (st : Status) :
  getStatus fsys dispatch fails db = (Ok st, db') ->
  pending st <= total st
  /\ total st =
     pending st
     + length (filter (JS.includes (appliedMigrations st)) (discovered fsys))
  /\ (forall f, In f (pendingMigrations st) <->
                In f (discovered fsys) /\ ~ In f (appliedMigrations st))
  /\ JS.ascending (pendingMigrations st)
  /\ (NoDup (appliedMigrations st) -> NoDup (discovered fsys) ->
      incl (appliedMigrations st) (discovered fsys) ->
      applied st + pending st = total st).
Proof.
  intros E.
  destruct (getStatus_eq fsys dispatch fails db) as (a & dbx & _ & Es).
  rewrite E in Es. injection Es as -> _.
  cbn [total applied pending appliedMigrations pendingMigrations].
  pose proof (filter_length (JS.includes a) (discovered fsys)) as L.
  fold (pendingOf a (discovered fsys)) in L.
  split; [lia|]. split; [lia|]. split; [intros f; apply pendingOf_In|].
  split; [apply pendingOf_ascending|].
  intros Na Nn Sub.
  pose proof (split_by_ledger a (discovered fsys) Na Nn Sub) as S.
  assert (length a <= length (discovered fsys))
    by (apply NoDup_incl_length; assumption).
  lia.
Qed.

Lemma getStatus_counts_witness :
  let st := {| total := 2; applied := 1; pending := 1;
               appliedMigrations := [f001];
               pendingMigrations := [f002] |} in
  fst (getStatus exampleDir (pinned 0) neverFails (connect storeAfter001))
  = Ok st /\ applied st + pending st = total st.
Proof.
  intros st. split; [vm_compute; reflexivity|].
  destruct (getStatus_counts exampleDir (pinned 0) neverFails
              (connect storeAfter001)
              (snd (getStatus exampleDir (pinned 0) neverFails
                      (connect storeAfter001))) st) as (_ & _ & _ & _ & H).
  - vm_compute. reflexivity.
  - apply H.
    + repeat constructor. intros [].
    + vm_compute. repeat constructor; cbn; intuition discriminate.
    + apply incl_includes. reflexivity.
Defined.

(** X16. On one idle session, after a run of [runPendingMigrations] that
    returned, [getStatus], when the server does not reject its query,
    reports nothing pending, and its applied array holds exactly the
    ledger rows, in the order that [ORDER BY] gives under the collation of
    the server; with distinct names in the directory, [total] is at most
    [applied]. *)
Theorem status_after_run
        (fsys : FS) (c : conn) (fails : nat -> jsstring -> bool)
        (db db1 db2 : DB) (st : Status) :
  open db c = None ->
  runPendingMigrations fsys (pinned c) fails db = (Ok tt, db1) ->
  fails (length (log db1)) sql_list = false ->
  getStatus fsys (pinned c) fails db1 = (Ok st, db2) ->
  pending st = 0
  /\ pendingMigrations st = []
  /\ appliedMigrations st
     = orderBy (collation (server db1)) (rows (durable db1))
  /\ Permutation (appliedMigrations st) (rows (durable db1))
  /\ applied st = length (rows (durable db1))
  /\ (NoDup (discovered fsys) -> total st <= applied st).
Proof.
  intros Idle E1 NF E2.
  destruct (after_success _ _ _ _ _ Idle E1) as (Idle1 & T1 & Cov).
  destruct (getStatus_eq fsys (pinned c) fails db1) as (a & dbx & Ea & Es).
  rewrite E2 in Es. injection Es as -> _.
  pose proof (getAppliedMigrations_answer (pinned c) fails db1) as A.
  rewrite Ea, NF in A. cbn [fst] in A. unfold pinned in A.
  rewrite (idle_view db1 c Idle1) in A.
  assert (a = orderBy (collation (server db1)) (rows (durable db1))) as Ha.
  { unfold rows. destruct (ledger (durable db1)); [|congruence].
    injection A as ->. reflexivity. }
  assert (Permutation a (rows (durable db1))) as P
      by (rewrite Ha; apply orderBy_perm).
  cbn [total applied pending appliedMigrations pendingMigrations].
  rewrite (pendingOf_perm _ _ _ P), (pendingOf_covered _ _ Cov).
  pose proof (Permutation_length P) as L.
  repeat (split; [first [reflexivity | exact Ha | exact P | exact L]|]).
  intros ND. rewrite L. apply NoDup_incl_length; assumption.
Qed.

Lemma status_after_run_witness :
  let db1 := snd (runPendingMigrations exampleDir (pinned 0) neverFails
                    (connect emptyStore)) in
  let status := getStatus exampleDir (pinned 0) neverFails db1 in
  let st := {| total := 2; applied := 2; pending := 0;
               appliedMigrations := [f001; f002];
               pendingMigrations := [] |} in
  fst status = Ok st /\ pending st = 0 /\ total st <= applied st.
Proof.
  intros db1 status st. split; [vm_compute; reflexivity|].
  destruct (status_after_run exampleDir 0 neverFails (connect emptyStore)
              db1 (snd status) st) as (P & _ & _ & _ & _ & T).
  - reflexivity.
  - vm_compute. reflexivity.
  - reflexivity.
  - vm_compute. reflexivity.
  - split; [exact P|]. apply T.
    vm_compute. repeat constructor; cbn; intuition discriminate.
Defined.

(* ===================================================================== *)
(** ** Further properties: the command line *)
(* ===================================================================== *)

Section MainFacts.

Variable fsys : FS.
Variable dispatch : nat -> conn.
Variable fails : nat -> jsstring -> bool.

Lemma main_run_eq (argv2 : option jsstring) (db : DB) :
  argv2 = None \/ argv2 = Some [] \/ argv2 = Some (JS.lit "run") ->
  main fsys dispatch fails argv2 db =
  match runPendingMigrations fsys dispatch fails db with
  | (Ok _, db') => (Ok {| code := 0; printed := [] |}, db')
  | (Err _, db') => (Ok {| code := 1; printed := [] |}, db')
  end.
Proof.
  intros [-> | [-> | ->]]; unfold main;
    try change (JS.truthy []) with false;
    try change (JS.truthy (JS.lit "run")) with true; cbv iota;
    change (JS.eqb (JS.lit "run") (JS.lit "run")) with true; cbv iota;
    unfold try_catch, bind, ret;
    destruct (runPendingMigrations fsys dispatch fails db) as [[u|e] db'];
    reflexivity.
Qed.

Lemma main_status_eq (db : DB) :
  main fsys dispatch fails (Some (JS.lit "status")) db =
  match getStatus fsys dispatch fails db with
  | (Ok status, db') => (Ok {| code := 0; printed := report status |}, db')
  | (Err _, db') => (Ok {| code := 1; printed := [] |}, db')
  end.
Proof.
  unfold main.
  change (JS.truthy (JS.lit "status")) with true. cbv iota.
  change (JS.eqb (JS.lit "status") (JS.lit "run")) with false.
  change (JS.eqb (JS.lit "status") (JS.lit "status")) with true. cbv iota.
  unfold try_catch, bind, ret.
  destruct (getStatus fsys dispatch fails db) as [[st|e] db']; reflexivity.
Qed.

Lemma main_other_eq (a : jsstring) (db : DB) :
  a <> [] -> a <> JS.lit "run" -> a <> JS.lit "status" ->
  main fsys dispatch fails (Some a) db
  = (Ok {| code := 1; printed := usage |}, db).
Proof.
  intros N0 N1 N2. unfold main, try_catch, ret.
  assert (JS.truthy a = true) as -> by (destruct a; [congruence | reflexivity]).
  apply JSFacts.eqb_neq in N1, N2. rewrite N1, N2. reflexivity.
Qed.

Lemma getAppliedMigrations_sent (db db' : DB) (a : list jsstring) :
  getAppliedMigrations dispatch fails db = (Ok a, db') ->
  sent db' = sent db ++ [(sql_list, [])].
Proof.
  intros E.
  destruct (getAppliedMigrations_cases dispatch fails db)
    as [(l & dbx & Q & Ea) | (e & dbx & Q & Ea)];
    rewrite E in Ea; injection Ea as _ <-; apply (query_sent _ _ _ _ _ _ _ Q).
Qed.

End MainFacts.

(** X17. How the command ends, whatever the pool does and whatever fails.
    [main] never throws and ends with code 0 or 1.  With [status] it always
    ends with code 0, also when the ledger or the directory cannot be read;
    it has then sent the list query and nothing else, written nothing, and
    printed four lines, and a fifth with the pending filenames exactly when
    something is pending.  With [run], with no argument or with an empty
    one, it does what [runPendingMigrations] does, prints nothing, and ends
    with code 0 exactly when that run returned.  With any other argument it
    prints the usage, ends with code 1 and sends nothing to the database. *)
Theorem main_exit_code
        (fsys : FS) (dispatch : nat -> conn) (fails : nat -> jsstring -> bool)
        (argv2 : option jsstring) (db : DB) :
  (exists x db',
      main fsys dispatch fails argv2 db = (Ok x, db') /\
      (code x = 0 \/ code x = 1))
  /\ (exists st db',
         main fsys dispatch fails (Some (JS.lit "status")) db
         = (Ok {| code := 0; printed := report st |}, db') /\
         getStatus fsys dispatch fails db = (Ok st, db') /\
         durable db' = durable db /\
         sent db' = sent db ++ [(sql_list, [])] /\
         length (report st) = if 0 <? pending st then 5 else 4)
  /\ (argv2 = None \/ argv2 = Some [] \/ argv2 = Some (JS.lit "run") ->
      exists x,
        main fsys dispatch fails argv2 db
        = (Ok x, snd (runPendingMigrations fsys dispatch fails db)) /\
        printed x = [] /\
        (code x = 0 <->
         exists u, fst (runPendingMigrations fsys dispatch fails db) = Ok u) /\
        (code x = 1 <->
         exists e, fst (runPendingMigrations fsys dispatch fails db) = Err e))
  /\ (forall a,
         argv2 = Some a ->
         a <> [] -> a <> JS.lit "run" -> a <> JS.lit "status" ->
         main fsys dispatch fails argv2 db
         = (Ok {| code := 1; printed := usage |}, db)).
Proof.
  assert (exists st db',
             main fsys dispatch fails (Some (JS.lit "status")) db
             = (Ok {| code := 0; printed := report st |}, db') /\
             getStatus fsys dispatch fails db = (Ok st, db') /\
             durable db' = durable db /\
             sent db' = sent db ++ [(sql_list, [])] /\
             length (report st) = if 0 <? pending st then 5 else 4) as St.
  { destruct (getStatus_eq fsys dispatch fails db) as (a & db' & Ea & Es).
    eexists. exists db'. rewrite main_status_eq, Es.
    split; [reflexivity|]. split; [reflexivity|].
    split; [apply (getAppliedMigrations_readonly _ _ _ _ _ Ea)|].
    split; [apply (getAppliedMigrations_sent _ _ _ _ _ Ea)|].
    unfold report.
    cbn [total applied pending appliedMigrations pendingMigrations].
    rewrite length_app.
    destruct (0 <? length (pendingOf a (discovered fsys))); reflexivity. }
  assert (argv2 = None \/ argv2 = Some [] \/ argv2 = Some (JS.lit "run") ->
          exists x,
            main fsys dispatch fails argv2 db
            = (Ok x, snd (runPendingMigrations fsys dispatch fails db)) /\
            printed x = [] /\
            (code x = 0 <->
             exists u,
               fst (runPendingMigrations fsys dispatch fails db) = Ok u) /\
            (code x = 1 <->
             exists e,
               fst (runPendingMigrations fsys dispatch fails db) = Err e))
    as Run.
  { intros H. rewrite (main_run_eq fsys dispatch fails argv2 db H).
    destruct (runPendingMigrations fsys dispatch fails db) as [[u|e] db'];
      eexists; (split; [reflexivity|]); (split; [reflexivity|]); cbn;
      split; split; intros K; try discriminate;
      try (destruct K; discriminate); eauto. }
  split; [|split; [exact St|split; [exact Run|]]].
  - destruct argv2 as [a|].
    + destruct a as [|x a].
      * destruct Run as (y & E & _ & _); [auto|].
        exists y. eexists. split; [exact E|].
        rewrite main_run_eq in E by auto.
        destruct (runPendingMigrations fsys dispatch fails db) as [[u|e] db'];
          injection E as <-; cbn; auto.
      * destruct (JS.eqb (x :: a) (JS.lit "run")) eqn:E1.
        { apply JSFacts.eqb_eq in E1. rewrite E1 in *.
          destruct Run as (y & E & _ & _); [auto|].
          exists y. eexists. split; [exact E|].
          rewrite main_run_eq in E by auto.
          destruct (runPendingMigrations fsys dispatch fails db)
            as [[u|e] db']; injection E as <-; cbn; auto. }
        destruct (JS.eqb (x :: a) (JS.lit "status")) eqn:E2.
        { apply JSFacts.eqb_eq in E2. rewrite E2.
          destruct St as (st & db' & E & _).
          eexists. exists db'. split; [exact E | left; reflexivity]. }
        apply JSFacts.eqb_neq in E1, E2.
        eexists. exists db. rewrite main_other_eq by (auto; discriminate).
        split; [reflexivity | right; reflexivity].
    + destruct Run as (y & E & _ & _); [auto|].
      exists y. eexists. split; [exact E|].
      rewrite main_run_eq in E by auto.
      destruct (runPendingMigrations fsys dispatch fails db) as [[u|e] db'];
        injection E as <-; cbn; auto.
  - intros a -> N0 N1 N2. apply main_other_eq; assumption.
Qed.

(* ===================================================================== *)
(** ** Further properties: which error a unit of work throws *)
(* ===================================================================== *)

(** X18. Whatever the pool does, when a unit of work fails and the server
    then rejects the [ROLLBACK] that the [catch] block sends,
    [runMigration] throws the error of that [ROLLBACK]: the error that
    made the script fail is lost. *)
Theorem rollback_failure_masks_cause
        (fsys : FS) (dispatch : nat -> conn) (fails : nat -> jsstring -> bool)
        (f : jsstring) (db db' : DB) (e : Error)
        (q : list (jsstring * list jsstring)) :
  runMigration fsys dispatch fails f db = (Err e, db') ->
  sent db' = sent db ++ q ++ [(sql_rollback, [])] ->
  fails (length (log db') - 1) sql_rollback = true ->
  e = TransactionError.
Proof.
  intros E S F. apply runMigration_cases in E.
  destruct E as [(_ & _ & ->) | (txt & _ & E)].
  { exfalso. apply (f_equal (@length _)) in S.
    rewrite !length_app in S. cbn in S. lia. }
  destruct E as [(e0 & Eb & _) | (rb & db1 & _ & E)].
  { exfalso. apply query_sent in Eb. rewrite Eb in S.
    apply app_inv_head in S.
    change [(sql_begin, @nil jsstring)]
      with ([] ++ [(sql_begin, @nil jsstring)]) in S.
    apply app_inj_tail in S. destruct S as [_ S]. discriminate. }
  destruct E as [(_ & E) | (e0 & db2 & _ & E)]; [discriminate|].
  assert (forall rr,
             query dispatch fails sql_rollback [] db2 = (rr, db') ->
             rr = Err TransactionError) as Rejected.
  { intros rr Q. pose proof (query_log _ _ _ _ _ _ _ Q) as L.
    assert (length (log db') - 1 = length (log db2)) as Len
        by (rewrite L, length_app; cbn; lia).
    rewrite Len in F. apply query_inv in Q.
    destruct Q as (_ & _ & _ & [(_ & Er & _) | (F' & _)]).
    - rewrite classify_rollback in Er. exact Er.
    - rewrite F in F'. discriminate. }
  destruct E as [(rr & Q & _) | (e' & Q & He)].
  - apply Rejected in Q. discriminate.
  - apply Rejected in Q. congruence.
Qed.

Lemma rollback_failure_masks_cause_witness :
  let fails := rejectsBoth (JS.lit "UPDATE t SET y = 0") sql_rollback in
  let db := connect storeAfter001 in
  fst (query (pinned 0) fails (JS.lit "UPDATE t SET y = 0") [] db)
  = Err StatementExecutionError /\
  fst (runMigration exampleDir (pinned 0) fails f002 db)
  = Err TransactionError.
Proof.
  intros fails db. split; [vm_compute; reflexivity|].
  destruct (runMigration exampleDir (pinned 0) fails f002 db)
    as [[u|e] db'] eqn:E.
  - vm_compute in E. discriminate.
  - cbn [fst]. f_equal.
    apply (rollback_failure_masks_cause exampleDir (pinned 0) fails f002
             db db' e
             [(sql_begin, []);
              (JS.lit "ALTER TABLE t ADD COLUMN y int", []);
              (JS.lit "UPDATE t SET y = 0", [])] E).
    + vm_compute in E. injection E as _ <-. vm_compute. reflexivity.
    + vm_compute in E. injection E as _ <-. vm_compute. reflexivity.
Defined.

(** X19. On one idle session, when the server rejects nothing else, a unit
    of work for a filename that the ledger already holds, whose script is
    made of statements that the server reads as ordinary, runs every
    statement of the script again inside the transaction, is stopped by
    the uniqueness of [filename] at the ledger insert, rolls back and
    throws the duplicate-entry error: the committed store is as before and
    the session is idle. *)
Theorem runMigration_refuses_recorded
        (fsys : FS) (c : conn) (fails : nat -> jsstring -> bool)
        (f txt : jsstring) (db : DB) :
  (forall n t, fails n t = false) ->
  open db c = None ->
  readFile fsys f = Some txt ->
  forallb (ordinary (server db)) (statementsOf txt) = true ->
  In f (rows (durable db)) ->
  exists db',
    runMigration fsys (pinned c) fails f db = (Err DuplicateEntryError, db') /\
    durable db' = durable db /\
    open db' c = None /\
    sent db' =
    sent db ++ interrupted txt (length (statementsOf txt))
                           [(sql_insert, [f])] /\
    answers db' =
    answers db ++ repeat true (S (length (statementsOf txt))) ++ [false; true].
Proof.
  intros A. apply runMigration_duplicate. exact A.
Qed.

Lemma runMigration_refuses_recorded_witness :
  exists db',
    runMigration rerunDir (pinned 0) neverFails f006
                 (connect storeAfter006)
    = (Err DuplicateEntryError, db') /\
    durable db' = storeAfter006.
Proof.
  destruct (runMigration_refuses_recorded rerunDir 0 neverFails f006
              (JS.lit "UPDATE t SET x = 0; DELETE FROM t WHERE x < 0;")
              (connect storeAfter006)) as (db' & E & Hd & _).
  - intros n t. reflexivity.
  - reflexivity.
  - reflexivity.
  - vm_compute. reflexivity.
  - left. reflexivity.
  - exists db'. split; [exact E | exact Hd].
Defined.

(* ===================================================================== *)
(** ** Further properties: the status and the run that follows *)
(* ===================================================================== *)

(** X20. The status tells what the next run does.  On one idle session,
    when the server rejects nothing, the names of the directory are
    distinct and every discovered script is readable and holds neither of
    the two queries of the engine that need a parameter: the pending array
    that [getStatus] reports is the array of discovered scripts that the
    ledger lacks, also when the ledger table does not exist yet, and the
    run of [runPendingMigrations] that follows returns normally having
    recorded exactly those scripts, in that order. *)
Theorem status_predicts_run
        (fsys : FS) (c : conn) (fails : nat -> jsstring -> bool)
        (db db1 : DB) (st : Status) :
  (forall n t, fails n t = false) ->
  open db c = None ->
  NoDup (discovered fsys) ->
  (forall f, In f (discovered fsys) ->
             exists txt, readFile fsys f = Some txt /\
                         forallb (acceptable (server db)) (statementsOf txt)
                         = true) ->
  getStatus fsys (pinned c) fails db = (Ok st, db1) ->
  pendingMigrations st = pendingOf (rows (durable db)) (discovered fsys)
  /\ exists db',
       runPendingMigrations fsys (pinned c) fails db1 = (Ok tt, db') /\
       rows (durable db') = rows (durable db) ++ pendingMigrations st.
Proof.
  intros A Idle ND Rd E.
  destruct (getStatus_eq fsys (pinned c) fails db) as (a & dbx & Ea & Es).
  rewrite E in Es. injection Es as -> <-.
  cbn [pendingMigrations].
  destruct (getAppliedMigrations_idle _ _ _ _ _ Idle Ea)
    as (Idle1 & Hd & Hs & Ha).
  assert (pendingOf a (discovered fsys)
          = pendingOf (rows (durable db)) (discovered fsys)) as P.
  { destruct Ha as [-> | [-> [F | N]]].
    - apply pendingOf_perm, orderBy_perm.
    - rewrite A in F. discriminate.
    - unfold rows. rewrite N. reflexivity. }
  split; [exact P|].
  destruct (run_goes_through fsys c fails A db1 Idle1 ND)
    as (_ & _ & db' & _ & _ & _ & _ & _ & Er & _ & R).
  { intros f Hf. rewrite Hs. apply Rd, Hf. }
  exists db'. split; [exact Er|]. rewrite R, Hd, P. reflexivity.
Qed.

Lemma status_predicts_run_witness :
  let status := getStatus exampleDir (pinned 0) neverFails
                  (connect emptyStore) in
  let st := {| total := 2; applied := 0; pending := 2;
               appliedMigrations := [];
               pendingMigrations := [f001; f002] |} in
  fst status = Ok st /\
  exists db',
    runPendingMigrations exampleDir (pinned 0) neverFails (snd status)
    = (Ok tt, db') /\
    rows (durable db') = [f001; f002].
Proof.
  intros status st. split; [vm_compute; reflexivity|].
  destruct (status_predicts_run exampleDir 0 neverFails (connect emptyStore)
              (snd status) st) as (_ & db' & Er & R).
  - intros n t. reflexivity.
  - reflexivity.
  - vm_compute. repeat constructor; cbn; intuition discriminate.
  - intros f Hf. vm_compute in Hf.
    destruct Hf as [<- | [<- | []]]; eexists; split; reflexivity.
  - vm_compute. reflexivity.
  - exists db'. split; [exact Er | exact R].
Defined.

(* ===================================================================== *)
(** ** Further properties: running again on one client *)
(* ===================================================================== *)

(** X21. When one client of the pool, idle at the start, serves both
    runs: after a run of [runPendingMigrations] that returned, a second
    run over the same directory leaves the ledger rows as they are,
    whatever the server does; and when the server does not reject its two
    opening queries, the second run finds nothing pending: it returns
    normally having sent those two queries and nothing else, so no unit of
    work was started, and the committed store and the session are as the
    first run left them. *)
Theorem rerun_on_one_client
        (fsys : FS) (c : conn) (fails : nat -> jsstring -> bool)
        (db db1 db2 : DB) (r : Result unit) :
  open db c = None ->
  runPendingMigrations fsys (pinned c) fails db = (Ok tt, db1) ->
  runPendingMigrations fsys (pinned c) fails db1 = (r, db2) ->
  rows (durable db2) = rows (durable db1)
  /\ (fails (length (log db1)) sql_create = false ->
      fails (S (length (log db1))) sql_list = false ->
      r = Ok tt /\
      pendingOf (rows (durable db1)) (discovered fsys) = [] /\
      sent db2 = sent db1 ++ preamble /\
      durable db2 = durable db1 /\
      open db2 c = None).
Proof.
  intros Idle E1 E2.
  destruct (after_success _ _ _ _ _ Idle E1) as (Idle1 & T1 & Cov).
  apply runPendingMigrations_idle in E2; [|exact Idle1].
  destruct E2 as [(e & -> & Hd & _ & _ & _ & F)
                 | (a & dbm & Ha & Idlem & _ & Rm & Em & Tm & Sm & E)].
  - split; [rewrite Hd; reflexivity|]. intros NF. congruence.
  - assert (rows (durable db2) = rows (durable dbm)) as R2.
    { eapply runAll_stale; [exact Idlem | | exact E].
      intros f Hf. rewrite Rm. apply Cov.
      apply pendingOf_In in Hf. apply Hf. }
    split; [rewrite R2; exact Rm|].
    intros _ NF. destruct Ha as [Ha | [_ F]]; [|congruence].
    assert (pendingOf (rows (durable db1)) (discovered fsys) = [])
      as P by (apply pendingOf_covered, Cov).
    rewrite (pendingOf_perm _ _ _ Ha), P in E. cbn in E.
    injection E as <- <-.
    repeat split; try assumption.
    apply store_eq; assumption.
Qed.

Lemma rerun_on_one_client_witness :
  let db := connect emptyStore in
  let db1 := snd (runPendingMigrations exampleDir (pinned 0) neverFails db) in
  let run2 := runPendingMigrations exampleDir (pinned 0) neverFails db1 in
  rows (durable db1) = [f001; f002] /\
  fst run2 = Ok tt /\
  rows (durable (snd run2)) = [f001; f002] /\
  durable (snd run2) = durable db1 /\
  sent (snd run2) = sent db1 ++ preamble.
Proof.
  intros db db1 run2.
  destruct (rerun_on_one_client exampleDir 0 neverFails
              db db1 (snd run2) (fst run2)) as (R & H).
  - reflexivity.
  - vm_compute. reflexivity.
  - apply surjective_pairing.
  - destruct H as (Hr & _ & Hs & Hd & _); try reflexivity.
    split; [vm_compute; reflexivity|]. split; [exact Hr|].
    split; [rewrite R; vm_compute; reflexivity|].
    split; [exact Hd | exact Hs].
Defined.
